(* ===== verification/_CoqProject ===== *)
-Q . S2P
Prelude.v
VectorMath.v
HnswCore.v
HnswSearch.v
HnswInsert.v
HnswSpec.v
HnswJson.v
Store.v
Embedders.v
Indexer.v
IndexerProofs.v
IndexerSpec.v
Persistence.v
Migration.v
MigrationProofs.v
Dispatch.v
DispatchProofs.v
Client.v
Page.v
