(* ===== verification/Prelude.v ===== *)
(** * Vectoria: a verification development of an HNSW vector index

    This development models, in Rocq, the TypeScript library in [src/]:
    a persistent approximate-nearest-neighbour index built on a
    Hierarchical Navigable Small World (HNSW) graph, its IndexedDB
    persistence, the indexer facade, the re-embedding migration and the
    service-worker request dispatch, and the demo pages that drive it.

    ** The program and how its parts interact

    - [src/src/lib/hnsw.ts], class [HNSWIndex]: the in-memory graph.  Its
      state is a [Map<string, Node>] arena, an entry point id (or null),
      the parameters [M], [efConstruction], [efSearch], [levelMultiplier]
      and [maxLevel].  [addPoint] inserts a point and returns the set of
      node ids whose records it changed ("touched" nodes); [search] does a
      greedy descent through the upper layers and a beam search
      ([searchLayer]) on layer 0.  [toJSON]/[fromJSON] serialise it.
    - [src/unnamed/part_001] (lib/db.ts), class [VectorStore]: three
      IndexedDB object stores ([documents], [hnsw_nodes], [meta]).
    - [src/src/index.ts], class [Vectoria]: embeds text, inserts into the
      graph, writes the document, the meta record and only the touched
      nodes (granular persistence), and answers searches.
    - [src/src/lib/migration.ts], class [MigrationManager]: re-embeds all
      documents in batches with a new embedder and rebuilds the graph.
    - [src/ui/sw.ts]: the service worker's message handler, the only
      entry point of the demo application, and the page-side
      [IndexerClient] that posts requests to it.
    - [src/unnamed/part_000] and [src/ui/utils.ts]: the two demo pages,
      which send those requests from buttons, a configuration form saved
      in [localStorage], a migration poller and a batching loop.

    ** Files of the development (in dependency order)

    - [Prelude.v] (this file): the exception model ([exn], [res]) of the
      JavaScript code, a small state-exception monad [exc] for methods
      that mutate an object and may throw part-way, monadic folds, the
      class [JsNum] of the numbers the code compares (the engine is
      generic in them) with its order laws, scored candidates
      ([{id, score}] objects) and the model [sort_desc] of
      [arr.sort((a, b) => b.score - a.score)] (a stable insertion sort,
      as V8's sort is stable), with its lemmas.
    - [VectorMath.v]: the cosine similarity [dist] of hnsw.ts translated
      on primitive floats, the class [Similarity] through which the
      engine uses it, and an integer instance (dot product on [list Z])
      on which every witness runs.  The theorems are generic in the
      instance; [dist] itself is a translation no theorem instantiates,
      since floats give no order laws to prove them with.
    - [HnswCore.v]: [Node], [HNSWIndex], the constructor with its
      [config.x || default] defaults, [getRandomLevel], [selectNeighbors],
      the well-formedness invariant [wf] and its executable check
      [wf_check] (sound, so concrete graphs are shown [wf] by evaluation).
    - [HnswSearch.v]: the greedy layer climb ([greedy_layer], [descend]),
      [searchLayer] and [search]; fuel adequacy, absence of run-time
      errors on a well-formed graph, bounds, distinctness, exact scores
      and ordering of results (claims C3-C5).
    - [HnswInsert.v]: [addPoint] in [exc]; preservation of [wf] (degree
      bound [M], closure of neighbour lists, entry point of maximal
      level), touched-set completeness, the duplicate-id error, the new
      node and the specification's quantified invariants (C1, C2,
      C6-C8).
    - [HnswSpec.v]: the abstract specification of the index, a map from
      ids to vectors ([abs], [spec_add], [spec_search]); [addPoint]
      refines [spec_add], errors included (C25), and [search] meets
      [spec_search] (C26).
    - [HnswJson.v]: [toJSON]/[fromJSON]; [fromJSON] inverts [toJSON] on
      a well-formed graph, hence the specification's round-trip law
      (C10).
    - [Store.v]: [VectorStore] as three [gmap]s, one atomic update per
      awaited call.
    - [Embedders.v]: openai-embedder.ts ([request], [embedBatch] and
      [embed] over a [fetch] parameter: the documented answer gives the
      embeddings in order (C28), failures raise (C29), a short answer
      gives [undefined] ([embed_short_response]), and a JSON typing
      judgment [has_type] under which a well-typed answer gives the
      declared [number[][]] (C34)) and transformers-embedder.ts (its lazy
      [init] as a state machine of overlapping calls: invariant of every
      interleaving (C30), one load for serial calls (C31), two loads for
      two calls overlapping before the model is loaded, from any state
      (C32); [embed]/[embedBatch] after [init] run the configured
      pipeline, [te_embed_after_init]).
    - [Indexer.v]: [Vectoria] in [exc] over its database, embedder,
      graph and [initialized] flag: [init], [addDocument],
      [addDocuments], [indexDocuments], [saveIndex], [search] ([vsearch]),
      [resetIndex], [clear].
    - [IndexerProofs.v]: the persistence invariant [consistent] (the
      database rebuilds exactly the in-memory graph); reopening preserves
      every search (C11), [N] inserts grow both stores by [N] (C12), no
      search result is lost as a ghost (C13), and a failing
      [addDocument] (embedder error or duplicate id) leaves the whole
      state unchanged (C14).  Which methods leave the embedder alone is
      derived by the [preserves] lemmas of this file.
    - [IndexerSpec.v]: the indexing loop of [addDocuments] and
      [indexDocuments] refines the abstract fold of [spec_add] over the
      documents (C27), by lifting C25's simulation through [on_index]
      and [foldM] ([exc_sim], [foldM_exc_sim] of this file).
    - [Persistence.v]: the granular [saveIndex(touched)] is equivalent
      to the full [saveIndex()] when the touched set covers the change
      since the store was written ([touched_covers], C33).
    - [Migration.v]: [MigrationManager] as a state machine.  Its state
      [MigState] is the manager's fields and the [await] at which a
      running [start] is suspended ([MigPC]: on [getAllDocuments],
      [resetIndex], [embedBatch], [indexDocuments], the [setTimeout]
      yield); [resume] runs [start] from one [await] to the next, and
      [mig_step] interleaves resumptions with calls of [start] and
      [stop], which run at any [await] of a running [start].
    - [MigrationProofs.v]: the flag and progress invariant [mig_inv] of
      every reachable state (C15); an unstopped run with batch size at
      least 1 completes and leaves the graph holding exactly the stored
      documents (C16); and the code's edges, for every reachable
      state: a [stop] during the yield after the last batch leaves
      [isComplete] unset (C17), [start(0)] fails after [resetIndex] has
      wiped the graph (C18), and [isComplete] and [error] are never
      cleared, not even by a new [start] (C19).
    - [Dispatch.v]: sw.ts.  The worker's state [SW] is the shared
      IndexedDB, the heap of [Vectoria] objects ([indexer] addresses
      one; [CONFIGURE] allocates another) and the heap of managers (each
      [MIGRATE_START] allocates one, holding the address of the indexer
      it migrates; [migrationManager] addresses the last).  [handle] is
      the [message] listener with its reply; [resume_at] a background
      step of a manager on the object it references; [sw_step] and
      [sw_run] interleave them.  [settle] is the client's
      [IndexerClient.sendMessage].  [MIGRATE_START] never refuses
      (C21); the client rejects exactly the caught exceptions
      ([settle_rejects_iff_throw]) and resolves [MIGRATE_STOP] without a
      migration ([migrate_stop_unstarted]).
    - [DispatchProofs.v]: along every run the indexers' embedders are
      only extended, and unchanged without [CONFIGURE]: a migration
      never installs its target embedder (C20); after two
      [MIGRATE_START]s, [MIGRATE_STOP] stops only the last manager
      (C22); concrete runs show the two migrations colliding
      ([concurrent_migrations_collide]) and a search after a completed
      migration missing a document's own text
      ([search_after_migration_misses]).
    - [Client.v]: sw.ts's [IndexerClient] ([client_init],
      [controllerchange], [sendMessage]) over the browser's registration
      outcome, composed with the worker: requests reach [handle] exactly
      when the registration had an active worker, and fail after a
      [controllerchange] to no controller (C35).
    - [Page.v]: the demo pages.  A [World] is a [Page] (the client, the
      configuration [Form], the [localStorage] entries, the textarea, the
      status line, the polling flag, the migration buttons and the listed
      results), the worker's [SW] and the list of requests posted.
      [send] is an awaited [sendMessage]; each listener ([btnAdd],
      [btnSearch], [btnClear], [btnMigrate], [btnStopMigrate],
      [updateConfig], the polling tick [poll_tick], [btnLoadQA],
      [btnLoadHF], [btnRunIndex]) is a function of the world and of the
      inputs the DOM gives it, with [split_nl], [trim] and [js_slice]
      translating the string and array built-ins they call.  [btnAdd]
      posts one [ADD_DOC] per cleaned line (C36); the indexing loop
      posts the slices of the documents in order with a positive batch
      size (C37), and never completes with a batch size of at most 0
      (C38); the Migrate button applies the form before it validates it
      (C39); a saved configuration survives a reload (C40); a polling
      tick that sees the migration complete posts the form's
      configuration twice and stops polling (C23); and on a
      concrete run the page's migration flow, unlike [MIGRATE_START]
      alone, ends with searches that find a document's own text
      ([page_migration_finds_document]).

    ** Claims and their witnesses

    Every claim has a doc comment naming it, and each claim with a
    hypothesis has a witness that applies it on a concrete state: the
    [sample_graph] of HnswSearch.v, its extension by one [addPoint]
    ([sample_insert], HnswInsert.v), and small indexers over the integer
    instance (IndexerProofs.v) and a manager migrating one of them
    (MigrationProofs.v), the worker started on an empty database
    ([sw_start], DispatchProofs.v), canned [fetch] answers
    (Embedders.v) and a page whose client reaches that worker
    ([demo_world], Page.v), whose invariants are discharged by evaluation
    ([wf_check_sound], [consistent_by_eval]).  Concrete runs of the
    worker are built step by step; each background step is shown
    possible by evaluating a boolean ([is_Some] of [resume_at]), which
    keeps the evaluation from reading back whole states.

    ** Fuel

    [greedy_layer] and [searchLayer_loop] take [S (size nodes)] steps of
    fuel: each [greedy_layer] step strictly raises the similarity of the
    current node, so it visits each node at most once; each
    [searchLayer_loop] step either stops or removes a candidate, and a
    node enters the candidate list only when it is first visited.  The
    lemmas [greedy_layer_ok] and [searchLayer_loop_ok] show this fuel is
    never exhausted on a well-formed graph.  [getRandomLevel] takes 17,
    one more than its cap of 16 ([getRandomLevel_spec], C9).
    Results reached with some fuel are reached with more
    ([greedy_layer_mono], [searchLayer_loop_mono]), so the loops of the
    model compute what the unbounded loops compute (C24).  The
    migration's loop needs no fuel: its steps are those of [mig_step],
    each batch taking three resumptions, and C16 shows by induction on
    the documents left ([run_batches]) that the resumptions reach the
    end of an unstopped run.

    ** Modelling conventions

    - A thrown JavaScript exception is a [Throw] value of [res]; a
      property read on [undefined] (e.g. [this.nodes.get(id)!.vector] on a
      missing id) is [Throw (TypeError _)].  Methods that mutate the
      index before throwing return the partially mutated state ([exc]).
    - Loops whose termination is not structural ([while (changed)],
      [while (C.length > 0)]) take fuel; [OutOfFuel] is a model artefact
      and the fuel-adequacy theorems show the fuel chosen is never
      exhausted.
    - Randomness ([Math.random] in [getRandomLevel]) is an argument: the
      outcomes of the successive comparisons [Math.random() < lm].

    ** Not modelled

    - Network and model inference inside the embedders ([fetch], the
      transformers.js pipeline): parameters of Embedders.v; the indexer
      sees an embedder as an [EmbeddingModel], a record of two functions
      that may throw.
    - Iteration order of a JavaScript [Map] or [Set]: the model iterates
      in the order of the keys of [gmap]/[gset].  The graph's results do
      not depend on it on well-formed inputs; [toJSON]'s node order does,
      and the round trip is stated for the model's order.
    - Interleaving inside a handler: each indexer method is one atomic
      step; the background migrations interleave with handlers at the
      granularity of Migration.v's [await]s (Dispatch.v).  Crash points between the
      separate writes of [addDocument] and [saveIndex] are not modelled
      either: a write is never interrupted.
    - The service worker's [install]/[activate] listeners
      ([skipWaiting], [clients.claim], logging) and the registration call
      inside [IndexerClient.init]: the browser's lifecycle, whose outcome
      Client.v takes as input.
    - src/unnamed/part_002: an older copy of transformers-embedder.ts.
    - In the demo pages: the DOM rendering (log lines, counters, button
      labels and their timers), [updateVisibility] and the listeners that
      only toggle visibility, and [btnRunSearch], which picks queries by a
      [Math.random] sort and reports timings.  Page.v keeps every request
      the pages post and the state that decides them.  [parseInt] and the
      [fetch] of the datasets are inputs; [trim] removes the 8-bit white
      space characters, not the other Unicode ones.
    - src/vite.config.ts, the build configuration.
    - Floating-point rounding inside the engine: the engine is generic in
      its number type; the theorems hold for every number type whose [<]
      is a strict order. *)

From stdpp Require Export base list gmap strings sorting.
From Stdlib Require Export Lia.

Declare Scope vectoria_scope.
Delimit Scope vectoria_scope with vx.
Open Scope vectoria_scope.

(** ** Exceptions *)

(** The errors the modelled code throws. *)
Inductive exn :=
  | DuplicateId (id : string)     (** hnsw.ts: "Node with id ... already exists" *)
  | TypeError (what : string)     (** a property read on [undefined] *)
  | EmbedderError (msg : string)  (** a failing embedder call *)
  | MigrationRunning              (** migration.ts: "Migration already running" *)
  | UnknownMessage (ty : string)  (** sw.ts: "Unknown message type" *)
  | JsError (msg : string)        (** any other [new Error(msg)] *)
  | OutOfFuel.                    (** model artefact: fuel exhausted *)

Inductive res (A : Type) := Ok (a : A) | Throw (e : exn).
Arguments Ok {A} a.
Arguments Throw {A} e.

#[export] Instance res_ret : MRet res := fun _ a => Ok a.
#[export] Instance res_bind : MBind res :=
  fun _ _ f m => match m with Ok a => f a | Throw e => Throw e end.
#[export] Instance res_fmap : FMap res :=
  fun _ _ f m => match m with Ok a => Ok (f a) | Throw e => Throw e end.

(** [x!] followed by a property read: [undefined] raises a [TypeError]. *)
Definition of_option {A} (what : string) (o : option A) : res A :=
  match o with Some a => Ok a | None => Throw (TypeError what) end.

Notation "o '!?' what" := (of_option what o) (at level 25, left associativity) : vectoria_scope.

Lemma res_bind_Ok {A B} (m : res A) (f : A → res B) b :
  (x ← m; f x) = Ok b ↔ ∃ a, m = Ok a ∧ f a = Ok b.
Proof.
  destruct m as [a'|e]; simpl; split; [by exists a'|by intros (a & [= ->] & ?)|done|].
  by intros (a & ? & _).
Qed.

Lemma of_option_Ok {A} what (o : option A) a : of_option what o = Ok a ↔ o = Some a.
Proof. destruct o; simpl; split; congruence. Qed.

(** ** State-exception monad

    [exc St A] is a method of an object of type [St]: it returns its
    result or its exception together with the state of the object at
    that point, so mutations done before a [throw] stay visible. *)
Definition exc (St A : Type) : Type := St → res A * St.

#[export] Instance exc_ret {St} : MRet (exc St) := fun _ a s => (Ok a, s).
#[export] Instance exc_bind {St} : MBind (exc St) :=
  fun _ _ f m s => match m s with (Ok a, s') => f a s' | (Throw e, s') => (Throw e, s') end.

Definition exc_get {St} : exc St St := fun s => (Ok s, s).
Definition exc_put {St} (s' : St) : exc St unit := fun _ => (Ok tt, s').
Definition exc_modify {St} (f : St → St) : exc St unit := fun s => (Ok tt, f s).
Definition exc_lift {St A} (r : res A) : exc St A := fun s => (r, s).

Notation "'lift!' r" := (exc_lift r) (at level 10) : vectoria_scope.

Lemma exc_bind_run {St A B} (m : exc St A) (f : A → exc St B) s :
  (x ← m; f x) s =
    match m s with (Ok a, s') => f a s' | (Throw e, s') => (Throw e, s') end.
Proof. reflexivity. Qed.

(** ** Monadic left fold ([for (const x of xs)] with a body that may throw) *)
Fixpoint foldM {M} `{MBind M, MRet M} {A B} (f : B → A → M B) (acc : B) (l : list A) : M B :=
  match l with
  | [] => mret acc
  | x :: l' => acc' ← f acc x; foldM f acc' l'
  end.

(** [arr.map(f)] with an [f] that may throw. *)
Fixpoint mapM_res {A B} (f : A → res B) (l : list A) : res (list B) :=
  match l with
  | [] => Ok []
  | x :: l' => y ← f x; ys ← mapM_res f l'; Ok (y :: ys)
  end.

Section FoldRes.
Context {A B : Type} (f : B → A → res B).

(** An invariant of the accumulator preserved by each successful step
    holds of the result of a successful fold. *)
Lemma foldM_res_inv (P : B → Prop) l acc r :
  (∀ b x b', P b → x ∈ l → f b x = Ok b' → P b') →
  P acc → foldM f acc l = Ok r → P r.
Proof.
  revert acc. induction l as [|x l IH]; simpl; intros acc Hstep Hacc Hf.
  - by injection Hf as <-.
  - apply res_bind_Ok in Hf as (b & Hb & Hrest).
    eapply IH; [|eapply Hstep; eauto; left|done].
    intros; eapply Hstep; eauto. by right.
Qed.

(** A fold whose every step succeeds succeeds. *)
Lemma foldM_res_ok (P : B → Prop) l acc :
  (∀ b x, P b → x ∈ l → ∃ b', f b x = Ok b' ∧ P b') →
  P acc → ∃ r, foldM f acc l = Ok r ∧ P r.
Proof.
  revert acc. induction l as [|x l IH]; simpl; intros acc Hstep Hacc.
  - by exists acc.
  - destruct (Hstep acc x Hacc) as (b & Hb & HPb); [left|].
    rewrite Hb. simpl. apply IH; [|done].
    intros; apply Hstep; [done|by right].
Qed.
End FoldRes.

(** A fold of a method whose every step succeeds and keeps an invariant
    of the accumulator and the object succeeds. *)
Lemma foldM_exc_ok {St A B} (f : B → A → exc St B) (P : B → St → Prop) l acc s :
  (∀ b x s, P b s → x ∈ l → ∃ b' s', f b x s = (Ok b', s') ∧ P b' s') →
  P acc s → ∃ r s', foldM f acc l s = (Ok r, s') ∧ P r s'.
Proof.
  revert acc s. induction l as [|x l IH]; intros acc s Hstep HP; simpl.
  - by exists acc, s.
  - destruct (Hstep acc x s HP) as (b & s1 & Hf & HP1); [left|].
    rewrite exc_bind_run, Hf. apply IH; [|done].
    intros; apply Hstep; [done|by right].
Qed.

(** ** Simulation of methods

    [exc_sim R Rv m1 m2]: run on states related by [R], the methods [m1]
    and [m2] end in states related by [R], both with results related by
    [Rv] or both with the same exception.  It is the simulation diagram
    of a concrete method [m1] against an abstract one [m2]. *)
Definition res_rel {A B} (Rv : A → B → Prop) (r1 : res A) (r2 : res B) : Prop :=
  match r1, r2 with
  | Ok a, Ok b => Rv a b
  | Throw e1, Throw e2 => e1 = e2
  | _, _ => False
  end.

Definition exc_sim {S1 S2 A B} (R : S1 → S2 → Prop) (Rv : A → B → Prop)
    (m1 : exc S1 A) (m2 : exc S2 B) : Prop :=
  ∀ s1 s2, R s1 s2 → R (m1 s1).2 (m2 s2).2 ∧ res_rel Rv (m1 s1).1 (m2 s2).1.

Section ExcSim.
Context {S1 S2 : Type} (R : S1 → S2 → Prop).

Lemma exc_sim_ret {A B} (Rv : A → B → Prop) a b : Rv a b → exc_sim R Rv (mret a) (mret b).
Proof. intros Hab s1 s2 Hs. by split. Qed.

Lemma exc_sim_bind {A B C D} (Rv : A → B → Prop) (Rw : C → D → Prop) m1 m2
    (k1 : A → exc S1 C) (k2 : B → exc S2 D) :
  exc_sim R Rv m1 m2 → (∀ a b, Rv a b → exc_sim R Rw (k1 a) (k2 b)) →
  exc_sim R Rw (m1 ≫= k1) (m2 ≫= k2).
Proof.
  intros Hm Hk s1 s2 Hs. rewrite !exc_bind_run. destruct (Hm s1 s2 Hs) as [Hs' Hr].
  destruct (m1 s1) as [[a|e1] s1'], (m2 s2) as [[b|e2] s2']; cbn in Hs', Hr; try done.
  by apply Hk.
Qed.

Lemma foldM_exc_sim {X Y B1 B2} (Rx : X → Y → Prop) (Rb : B1 → B2 → Prop)
    (f : B1 → X → exc S1 B1) (g : B2 → Y → exc S2 B2) l1 l2 acc1 acc2 :
  Forall2 Rx l1 l2 → (∀ b1 b2 x y, Rb b1 b2 → Rx x y → exc_sim R Rb (f b1 x) (g b2 y)) →
  Rb acc1 acc2 → exc_sim R Rb (foldM f acc1 l1) (foldM g acc2 l2).
Proof.
  intros Hl Hstep. revert acc1 acc2. induction Hl as [|x y l1 l2 Hxy _ IH]; intros acc1 acc2 Hacc.
  - by apply exc_sim_ret.
  - apply (exc_sim_bind Rb); [by apply Hstep|]. intros. by apply IH.
Qed.
End ExcSim.

Lemma mapM_res_Ok {A B} (f : A → res B) l ys :
  mapM_res f l = Ok ys → Forall2 (λ x y, f x = Ok y) l ys.
Proof.
  revert ys. induction l as [|x l IH]; simpl; intros ys H.
  - injection H as <-. constructor.
  - apply res_bind_Ok in H as (y & Hy & H).
    apply res_bind_Ok in H as (ys' & Hys & [= <-]).
    constructor; auto.
Qed.

Lemma mapM_res_ok {A B} (f : A → res B) l :
  (∀ x, x ∈ l → ∃ y, f x = Ok y) → ∃ ys, mapM_res f l = Ok ys.
Proof.
  induction l as [|x l IH]; simpl; intros H; [by eexists|].
  destruct (H x) as [y ->]; [left|]. simpl.
  destruct IH as [ys ->]; [intros; apply H; by right|]. by eexists.
Qed.

(** ** Numbers as the code compares them

    The engine only compares numbers with [<] and tests them for
    truthiness ([x || default]).  It is generic in the number type. *)
Class JsNum (S : Type) := {
  num_lt : S → S → bool;      (** [a < b] *)
  num_truthy : S → bool        (** [!!a]: false for 0 and NaN *)
}.

(** [<] on the numbers met in practice is a strict order (NaN included:
    every comparison with NaN is false, which keeps [<] irreflexive and
    transitive). *)
Class NumStrictOrder (S : Type) `{JsNum S} := {
  num_lt_irrefl a : num_lt a a = false;
  num_lt_trans a b c : num_lt a b = true → num_lt b c = true → num_lt a c = true
}.

(** Without NaN, incomparability is transitive as well (a strict weak order). *)
Class NumWeakOrder (S : Type) `{NumStrictOrder S} := {
  num_lt_weak a b c : num_lt a c = true → num_lt a b = true ∨ num_lt b c = true
}.

Section NumLemmas.
Context {S : Type} `{NumStrictOrder S}.

Lemma num_lt_asym a b : num_lt a b = true → num_lt b a = false.
Proof.
  intros Hab. destruct (num_lt b a) eqn:Hba; [|done].
  pose proof (num_lt_trans a b a Hab Hba) as Haa.
  by rewrite num_lt_irrefl in Haa.
Qed.

Lemma num_ge_trans `{!NumWeakOrder S} a b c :
  num_lt a b = false → num_lt b c = false → num_lt a c = false.
Proof.
  intros Hab Hbc. destruct (num_lt a c) eqn:Hac; [|done].
  destruct (num_lt_weak a b c Hac); congruence.
Qed.
End NumLemmas.

(** ** Scored candidates: the [{ id, score }] objects of hnsw.ts *)

Record Scored (S : Type) := mkScored { cid : string; score : S }.
Arguments mkScored {S} cid score.
Arguments cid {S} s.
Arguments score {S} s.

Section SortDesc.
Context {S : Type} `{JsNum S}.

(** [arr.sort((a, b) => b.score - a.score)]: the comparator is negative,
    i.e. [a] goes first, exactly when [b.score < a.score].  The engine's
    sort is stable (ECMAScript 2019), and for a strict weak order a
    stable sort has exactly one result, the one of this insertion sort:
    an element is moved behind a later one only when the later one has
    a strictly greater score. *)
Fixpoint insert_desc (x : Scored S) (l : list (Scored S)) : list (Scored S) :=
  match l with
  | [] => [x]
  | y :: l' => if num_lt (score x) (score y) then y :: insert_desc x l' else x :: l
  end.

Fixpoint sort_desc (l : list (Scored S)) : list (Scored S) :=
  match l with
  | [] => []
  | x :: l' => insert_desc x (sort_desc l')
  end.

(** [a] may precede [b] in a descending order: [a.score >= b.score]. *)
Definition desc (a b : Scored S) : Prop := num_lt (score a) (score b) = false.

Lemma insert_desc_perm x l : insert_desc x l ≡ₚ x :: l.
Proof.
  induction l as [|y l IH]; simpl; [done|].
  destruct (num_lt _ _); [|done]. rewrite IH. constructor.
Qed.

Lemma sort_desc_perm l : sort_desc l ≡ₚ l.
Proof.
  induction l as [|x l IH]; simpl; [done|]. by rewrite insert_desc_perm, IH.
Qed.

Lemma length_sort_desc l : length (sort_desc l) = length l.
Proof. apply Permutation_length, sort_desc_perm. Qed.

Lemma elem_of_sort_desc x l : x ∈ sort_desc l ↔ x ∈ l.
Proof. apply elem_of_Permutation_proper, sort_desc_perm. Qed.

Lemma sort_desc_nil l : sort_desc l = [] ↔ l = [].
Proof.
  split; [|by intros ->]. intros Hl.
  apply length_zero_iff_nil. rewrite <- length_sort_desc, Hl. done.
Qed.

Context `{!NumStrictOrder S}.

Lemma insert_desc_hd y x l : desc y x → HdRel desc y l → HdRel desc y (insert_desc x l).
Proof.
  destruct l as [|z l]; simpl; intros Hyx Hhd; [by constructor|].
  destruct (num_lt _ _); constructor; [by inversion Hhd|done].
Qed.

Lemma insert_desc_sorted x l : Sorted desc l → Sorted desc (insert_desc x l).
Proof.
  induction 1 as [|y l Hl IH Hhd]; simpl; [by repeat constructor|].
  destruct (num_lt (score x) (score y)) eqn:Hxy.
  - constructor; [done|]. apply insert_desc_hd; [by apply num_lt_asym|done].
  - by repeat constructor.
Qed.

Lemma sort_desc_sorted l : Sorted desc (sort_desc l).
Proof. induction l; simpl; [constructor|by apply insert_desc_sorted]. Qed.

(** Sorting a list that is already in descending order leaves it as is. *)
Lemma sort_desc_id l : Sorted desc l → sort_desc l = l.
Proof.
  induction 1 as [|x l Hl IH Hhd]; simpl; [done|]. rewrite IH.
  destruct Hhd as [|y l' Hxy]; simpl; [done|]. by rewrite Hxy.
Qed.

Lemma sorted_desc_app_l l1 l2 : Sorted desc (l1 ++ l2) → Sorted desc l1.
Proof.
  induction l1 as [|x l1 IH]; simpl; intros Hs; [constructor|].
  apply Sorted_inv in Hs as [Hs Hhd]. constructor; [by apply IH|].
  destruct l1; simpl in *; constructor. by inversion Hhd.
Qed.

Lemma sorted_desc_take n l : Sorted desc l → Sorted desc (take n l).
Proof.
  intros Hs. rewrite <- (take_drop n l) in Hs. by eapply sorted_desc_app_l.
Qed.

Lemma sorted_desc_removelast l : Sorted desc l → Sorted desc (removelast l).
Proof.
  intros Hs. destruct l as [|x l] using rev_ind; [done|].
  rewrite removelast_last. by eapply sorted_desc_app_l.
Qed.
End SortDesc.

(** ** Shared list facts *)

Lemma lookup_app_snoc {A} (l : list A) x j y :
  (l ++ [x]) !! j = Some y → l !! j = Some y ∨ (j = length l ∧ y = x).
Proof.
  intros Hj. destruct (decide (j < length l)) as [Hlt|Hge].
  - left. by rewrite lookup_app_l in Hj.
  - right. rewrite lookup_app_r in Hj by lia. apply list_lookup_singleton_Some in Hj as [? ->]. split; [lia|done].
Qed.

Lemma elem_of_take_1 {A} (x : A) n l : x ∈ take n l → x ∈ l.
Proof. intros Hx. rewrite <- (take_drop n l). apply elem_of_app. by left. Qed.

Lemma elem_of_drop_1 {A} (x : A) n l : x ∈ drop n l → x ∈ l.
Proof. intros Hx. rewrite <- (take_drop n l). apply elem_of_app. by right. Qed.

Lemma take_add_drop {A} (l : list A) i n : take (i + n) l = take i l ++ take n (drop i l).
Proof. revert i. induction l as [|x l IH]; intros [|i]; simpl; rewrite ?take_nil; try done. by rewrite IH. Qed.

Lemma elem_of_removelast_1 {A} (x : A) l : x ∈ removelast l → x ∈ l.
Proof.
  destruct l as [|y l] using rev_ind; [done|].
  rewrite removelast_last. intros Hx. apply elem_of_app. by left.
Qed.

Lemma length_removelast {A} (l : list A) : length (removelast l) = pred (length l).
Proof.
  destruct l as [|y l] using rev_ind; [done|].
  rewrite removelast_last, length_app. simpl. lia.
Qed.

Lemma fmap_removelast {A B} (f : A → B) (l : list A) : f <$> removelast l = removelast (f <$> l).
Proof.
  induction l as [|x l IH]; [done|]. destruct l as [|y l]; [done|].
  change (f x :: (f <$> removelast (y :: l)) = removelast (f x :: f y :: (f <$> l))).
  rewrite IH. done.
Qed.

Lemma NoDup_removelast {A} (l : list A) : NoDup l → NoDup (removelast l).
Proof.
  destruct l as [|x l] using rev_ind; [done|].
  rewrite removelast_last, NoDup_app. naive_solver.
Qed.

Lemma NoDup_take {A} (l : list A) n : NoDup l → NoDup (take n l).
Proof. intros Hl. rewrite <- (take_drop n l), NoDup_app in Hl. tauto. Qed.

Lemma NoDup_fmap_sort_desc {S B} `{JsNum S} (f : Scored S → B) l :
  NoDup (f <$> sort_desc l) ↔ NoDup (f <$> l).
Proof. apply NoDup_Permutation_proper. apply fmap_Permutation, sort_desc_perm. Qed.

(** ** Fields a method leaves alone

    [preserves proj m]: whatever the object it runs on and whether it
    returns or throws, the method [m] leaves the part [proj] of the
    object unchanged.  The lemmas follow the structure of [exc]
    programs, so a method built from [mret], reads, writes that keep
    [proj], lifted results, binds and folds is shown to keep it by
    [preserves_tac]. *)
Definition preserves {St B A} (proj : St → B) (m : exc St A) : Prop := ∀ s, proj (m s).2 = proj s.

Section Preserves.
Context {St B : Type} (proj : St → B).

Lemma preserves_ret {A} (a : A) : preserves proj (mret a).
Proof. done. Qed.

Lemma preserves_get : preserves proj exc_get.
Proof. done. Qed.

Lemma preserves_lift {A} (r : res A) : preserves proj (exc_lift r).
Proof. done. Qed.

Lemma preserves_modify (f : St → St) : (∀ s, proj (f s) = proj s) → preserves proj (exc_modify f).
Proof. done. Qed.

Lemma preserves_bind {A C} (m : exc St A) (k : A → exc St C) :
  preserves proj m → (∀ a, preserves proj (k a)) → preserves proj (x ← m; k x).
Proof.
  intros Hm Hk s. unfold mbind, exc_bind. specialize (Hm s).
  destruct (m s) as [[a|e] s']; cbn in *; [by rewrite Hk|done].
Qed.

Lemma preserves_foldM {A C} (f : C → A → exc St C) (l : list A) :
  (∀ c a, preserves proj (f c a)) → ∀ acc, preserves proj (foldM f acc l).
Proof.
  intros Hf. induction l as [|a l IH]; intros acc; cbn [foldM]; [apply preserves_ret|].
  apply preserves_bind; [apply Hf|intros; apply IH].
Qed.
End Preserves.

Create HintDb preserves discriminated.
#[export] Hint Resolve preserves_ret preserves_get preserves_lift preserves_foldM : preserves.

(** Split a method into its binds and branches and close each piece by
    the [preserves] hints (which include the lemmas of the methods it
    calls). *)
Ltac preserves_tac :=
  repeat first
    [ solve [eauto with preserves]
    | apply preserves_bind; [|intros ?]
    | apply preserves_modify; intros ?; reflexivity
    | case_match ].

(** ** Automation *)

Create HintDb vectoria discriminated.
#[export] Hint Resolve sort_desc_sorted insert_desc_sorted sorted_desc_take
  sorted_desc_removelast : vectoria.
#[export] Hint Resolve elem_of_take_1 elem_of_removelast_1 : vectoria.
Create Rewrite HintDb vectoria_len.
#[export] Hint Rewrite @length_sort_desc @length_removelast @length_take : vectoria_len.

(** Unfold the monads' operations so that a method run reduces once the
    reads it depends on are rewritten. *)
Ltac exc_unfold :=
  cbv [mbind exc_bind exc_get exc_lift exc_put exc_modify mret exc_ret res_bind res_ret].
Ltac exc_unfold_in H :=
  cbv [mbind exc_bind exc_get exc_lift exc_put exc_modify mret exc_ret res_bind res_ret] in H.

(** Decompose successful binds and option reads in a hypothesis. *)
Ltac res_inv :=
  repeat match goal with
  | H : Ok _ = Ok _ |- _ => injection H as H
  | H : Ok _ = Throw _ |- _ => discriminate H
  | H : Throw _ = Ok _ |- _ => discriminate H
  | H : (_ ← _; _) = Ok _ |- _ =>
      let a := fresh "a" in let Ha := fresh "Ha" in
      apply res_bind_Ok in H as (a & Ha & H)
  | H : of_option _ _ = Ok _ |- _ => apply of_option_Ok in H
  end.
