(* ===== verification/VectorMath.v ===== *)
(** * Vector math: the similarity the HNSW engine ranks by

    [dist] is hnsw.ts's private [dist] (cosine similarity, higher is
    better) translated on binary64 primitive floats: JavaScript reads the
    elements of a [Float32Array] as doubles and computes in doubles, so
    the translation is bit-exact on vectors of float32 values, including
    the out-of-bounds read of a shorter [b] ([undefined], i.e. NaN in
    arithmetic).  [cosineSimilarity] (src/lib/vector.ts, not part of the
    sources) is modelled from the specification.

    The engine itself is generic: it sees vectors through the interface
    [Float32Vec] ([new Float32Array(arr)] and [Array.from(vec)]) and the
    similarity through [Similarity].  The integer instance below (dot
    product on [list Z]) is the one the witnesses run on. *)

From S2P Require Import Prelude.
From Stdlib Require Import PrimFloat ZArith.

(** ** Interfaces used by the engine *)

(** A [Float32Array] built from a JavaScript array and converted back. *)
Class Float32Vec (V S : Type) := {
  f32_of_array : list S → V;     (** [new Float32Array(arr)] *)
  f32_to_array : V → list S      (** [Array.from(vec)] *)
}.

(** [Array.from] after [new Float32Array] on an array it produced is the
    identity: a float32 value survives the double round trip. *)
Class Float32VecLaws (V S : Type) `{Float32Vec V S} := {
  f32_of_to_array v : f32_of_array (f32_to_array v) = v
}.

(** The similarity [dist(a, b)] of the engine: higher is closer. *)
Class Similarity (V S : Type) := sim : V → V → S.

(** ** hnsw.ts [dist] on binary64 floats *)

Section FloatDist.
Local Open Scope float_scope.

(** [1e-6], the nearest double. *)
Definition eps : float := 0x1.0c6f7a0b5ed8dp-20.

(** The loop [for (let i = 0; i < a.length; i++)] accumulating [dot],
    [normA] and [normB]; reading [b[i]] beyond [b]'s end gives NaN. *)
Fixpoint dist_loop (a b : list float) (dot normA normB : float) : float * float * float :=
  match a with
  | [] => (dot, normA, normB)
  | x :: a' =>
      let y := match b with [] => nan | y :: _ => y end in
      dist_loop a' (tail b) (dot + x * y) (normA + x * x) (normB + y * y)
  end.

Definition dist (a b : list float) : float :=
  let '(dot, normA, normB) := dist_loop a b 0 0 0 in
  dot / (sqrt normA * sqrt normB + eps).

(** spec.md 4.2: [sim(a, b) = dot(a,b) / (|a| |b| + eps)], as used by the
    brute-force search of index.ts through vector.ts. *)
Fixpoint dot (a b : list float) : float :=
  match a, b with
  | x :: a', y :: b' => x * y + dot a' b'
  | _, _ => 0
  end.

Definition cosineSimilarity (a b : list float) : float :=
  dot a b / (sqrt (dot a a) * sqrt (dot b b) + eps).
End FloatDist.

(** ** Integer instance

    Scores and vector components in [Z], similarity the dot product: a
    fixed-precision stand-in with an exact order, on which the witnesses
    evaluate the engine. *)

#[export] Instance Z_JsNum : JsNum Z := {
  num_lt := Z.ltb;
  num_truthy x := negb (Z.eqb x 0)
}.

#[export] Instance Z_NumStrictOrder : NumStrictOrder Z.
Proof.
  split; simpl; intros *; rewrite ?Z.ltb_lt, ?Z.ltb_irrefl; [done|lia].
Qed.

#[export] Instance Z_NumWeakOrder : NumWeakOrder Z.
Proof. split; simpl. intros a b c. rewrite !Z.ltb_lt. lia. Qed.

#[export] Instance Z_Float32Vec : Float32Vec (list Z) Z := {
  f32_of_array a := a;
  f32_to_array v := v
}.

#[export] Instance Z_Float32VecLaws : Float32VecLaws (list Z) Z.
Proof. by split. Qed.

Fixpoint zdot (a b : list Z) : Z :=
  match a, b with
  | x :: a', y :: b' => (x * y + zdot a' b')%Z
  | _, _ => 0%Z
  end.

#[export] Instance Z_Similarity : Similarity (list Z) Z := zdot.
