(* ===== verification/HnswCore.v ===== *)
(** * HNSW graph: data model, construction and the graph invariant

    The state of hnsw.ts's class [HNSWIndex]: the node arena
    [Map<string, Node>] is a [gmap string (Node V)] (each JavaScript node
    object is reachable through exactly one key, so an update of the
    object is an update of the map at its key), the entry point is an
    [option string] ([null] is [None]).  The constructor's
    [config.x || default] is modelled with JavaScript truthiness.

    [wf] is the invariant the engine maintains: every node is stored
    under its own id, has one neighbour list per layer [0..level], every
    list has at most [M] ids and only names nodes that exist and live on
    that layer, and the entry point is a node of level [maxLevel]. *)

From S2P Require Import Prelude VectorMath.

Record Node (V : Type) := mkNode {
  node_id : string;
  vector : V;
  level : nat;
  neighbors : list (list string)   (** [neighbors[l]] = ids on layer [l] *)
}.
Arguments mkNode {V}.
Arguments node_id {V}.
Arguments vector {V}.
Arguments level {V}.
Arguments neighbors {V}.

(** [levelMultiplier]: a configured number, or the default
    [1 / Math.log(this.M)], kept symbolic (only its comparisons with
    [Math.random()] matter, and those are inputs of the model). *)
Inductive LevelMultiplier (S : Type) :=
  | LMValue (x : S)
  | LMInvLogM (m : nat).
Arguments LMValue {S}.
Arguments LMInvLogM {S}.

Record HNSWIndex (V S : Type) := mkIndex {
  nodes : gmap string (Node V);
  entryPointId : option string;
  M : nat;
  efConstruction : nat;
  efSearch : nat;
  levelMultiplier : LevelMultiplier S;
  maxLevel : nat
}.
Arguments mkIndex {V S}.
Arguments nodes {V S}.
Arguments entryPointId {V S}.
Arguments M {V S}.
Arguments efConstruction {V S}.
Arguments efSearch {V S}.
Arguments levelMultiplier {V S}.
Arguments maxLevel {V S}.

(** [HNSWConfig]: every field optional ([undefined] is [None]).  The
    level multiplier is a [LevelMultiplier]: [fromJSON] passes back the
    number [toJSON] wrote, which may be the default [1 / Math.log(M)]. *)
Record HNSWConfig (S : Type) := mkConfig {
  cfg_M : option nat;
  cfg_efConstruction : option nat;
  cfg_efSearch : option nat;
  cfg_levelMultiplier : option (LevelMultiplier S)
}.
Arguments mkConfig {S}.
Arguments cfg_M {S}.
Arguments cfg_efConstruction {S}.
Arguments cfg_efSearch {S}.
Arguments cfg_levelMultiplier {S}.

Definition default_config {S} : HNSWConfig S := mkConfig None None None None.

(** [x || d] on a count: [undefined] and [0] are falsy. *)
Definition js_or_nat (o : option nat) (d : nat) : nat :=
  match o with Some (S n) => S n | _ => d end.

Section Core.
Context {V Num : Type} `{JsNum Num}.

Implicit Types (idx : HNSWIndex V Num) (n : Node V).

(** JavaScript truthiness of the multiplier: [1 / Math.log(m)] is never
    [0] or [NaN] for [m >= 1] (it is [Infinity] for [m = 1]). *)
Definition lm_truthy (lm : LevelMultiplier Num) : bool :=
  match lm with LMValue x => num_truthy x | LMInvLogM _ => true end.

(** [constructor(config)]. *)
Definition HNSWIndex_new (config : HNSWConfig Num) : HNSWIndex V Num :=
  let m := js_or_nat (cfg_M config) 16 in
  {| nodes := ∅;
     entryPointId := None;
     M := m;
     efConstruction := js_or_nat (cfg_efConstruction config) 200;
     efSearch := js_or_nat (cfg_efSearch config) 200;
     levelMultiplier :=
       match cfg_levelMultiplier config with
       | Some x => if lm_truthy x then x else LMInvLogM m
       | None => LMInvLogM m
       end;
     maxLevel := 0 |}.

(** Field updates of the object. *)
Definition set_nodes (ns : gmap string (Node V)) idx : HNSWIndex V Num :=
  mkIndex ns (entryPointId idx) (M idx) (efConstruction idx) (efSearch idx)
    (levelMultiplier idx) (maxLevel idx).

Definition set_entry (ep : option string) (ml : nat) idx : HNSWIndex V Num :=
  mkIndex (nodes idx) ep (M idx) (efConstruction idx) (efSearch idx)
    (levelMultiplier idx) ml.

(** [node.neighbors[l] = ns]. *)
Definition set_layer (l : nat) (ns : list string) n : Node V :=
  mkNode (node_id n) (vector n) (level n) (<[l := ns]> (neighbors n)).

(** [getNode(id)]. *)
Definition getNode idx (id : string) : option (Node V) := nodes idx !! id.

(** [getRandomLevel()]: [coin i] is the outcome of the [i]-th test
    [Math.random() < this.levelMultiplier]; the test is evaluated before
    [level < 16], so a draw is made even at level 16.  The fuel 17 is
    never the reason the loop stops ([getRandomLevel_spec]). *)
Fixpoint random_level_loop (fuel : nat) (coin : nat → bool) (level : nat) : nat :=
  match fuel with
  | 0 => level
  | S fuel' =>
      if coin level && (level <? 16) then random_level_loop fuel' coin (S level) else level
  end.

Definition getRandomLevel (coin : nat → bool) : nat := random_level_loop 17 coin 0.

(** [selectNeighbors(candidates, M)]: [candidates.sort(..).slice(0, M)].
    The sort is in place: the caller's array is the sorted one. *)
Definition selectNeighbors (candidates : list (Scored Num)) (m : nat) : list (Scored Num) :=
  take m (sort_desc candidates).

(** ** The graph invariant *)

(** Every id of a layer-[l] list names a node that lives on layer [l]. *)
Definition layer_closed (ns : gmap string (Node V)) (l : nat) (ids : list string) : Prop :=
  ∀ j, j ∈ ids → ∃ m, ns !! j = Some m ∧ l ≤ level m.

(** A node stored under key [k] of the arena [ns], for the degree bound
    [m] and the level bound [ml]. *)
Record node_wf (ns : gmap string (Node V)) (m ml : nat) (k : string) n : Prop := {
  nwf_id : node_id n = k;
  nwf_len : length (neighbors n) = S (level n);
  nwf_level : level n ≤ ml;
  nwf_degree : ∀ l ids, neighbors n !! l = Some ids → length ids ≤ m;
  nwf_closed : ∀ l ids, neighbors n !! l = Some ids → layer_closed ns l ids
}.

Definition nodes_ok (ns : gmap string (Node V)) (m ml : nat) : Prop :=
  map_Forall (node_wf ns m ml) ns.

Definition entry_wf idx : Prop :=
  match entryPointId idx with
  | None => nodes idx = ∅ ∧ maxLevel idx = 0
  | Some e => ∃ n, nodes idx !! e = Some n ∧ level n = maxLevel idx
  end.

Record wf idx : Prop := {
  wf_nodes : nodes_ok (nodes idx) (M idx) (maxLevel idx);
  wf_entry : entry_wf idx;
  wf_efC : 1 ≤ efConstruction idx;
  wf_efS : 1 ≤ efSearch idx
}.
(** ** An executable check of the invariant *)

Definition layer_closed_b (ns : gmap string (Node V)) (l : nat) (ids : list string) : bool :=
  forallb (λ j, match ns !! j with Some m => l <=? level m | None => false end) ids.

Definition node_wf_b (ns : gmap string (Node V)) (m ml : nat) (k : string) n : bool :=
  bool_decide (node_id n = k) && (length (neighbors n) =? S (level n)) &&
  (level n <=? ml) &&
  forallb (λ l, match neighbors n !! l with
                | Some ids => (length ids <=? m) && layer_closed_b ns l ids
                | None => false
                end) (seq 0 (length (neighbors n))).

Definition entry_wf_b idx : bool :=
  match entryPointId idx with
  | None => (size (nodes idx) =? 0) && (maxLevel idx =? 0)
  | Some e => match nodes idx !! e with Some n => level n =? maxLevel idx | None => false end
  end.

Definition wf_check idx : bool :=
  bool_decide (map_Forall (λ k n, node_wf_b (nodes idx) (M idx) (maxLevel idx) k n = true) (nodes idx)) &&
  entry_wf_b idx && (1 <=? efConstruction idx) && (1 <=? efSearch idx).
End Core.

Section CoreLemmas.
Context {V Num : Type} `{JsNum Num}.

Lemma set_nodes_id (idx : HNSWIndex V Num) : set_nodes (nodes idx) idx = idx.
Proof. by destruct idx. Qed.

Lemma set_nodes_set_nodes (ns ns' : gmap string (Node V)) (idx : HNSWIndex V Num) :
  set_nodes ns' (set_nodes ns idx) = set_nodes ns' idx.
Proof. done. Qed.

Lemma random_level_loop_spec fuel coin lv :
  lv ≤ 16 → 17 ≤ fuel + lv →
  let r := random_level_loop fuel coin lv in
  lv ≤ r ≤ 16 ∧ (∀ i, lv ≤ i < r → coin i = true) ∧ (r = 16 ∨ coin r = false).
Proof.
  revert lv. induction fuel as [|fuel IH]; intros lv Hlv Hfuel; simpl; [lia|].
  destruct (coin lv) eqn:Hc; simpl.
  - destruct (Nat.ltb_spec lv 16) as [Hlt|Hge]; simpl.
    + destruct (IH (S lv)) as (Hr & Hall & Hend); [lia|lia|].
      split; [lia|split; [|done]].
      intros i Hi. destruct (decide (i = lv)) as [->|]; [done|]. apply Hall; lia.
    + split; [lia|split; [intros; lia|left; lia]].
  - split; [lia|split; [intros; lia|by right]].
Qed.

(** C9: [getRandomLevel] draws [level = 0] and increments it while the
    random test succeeds and [level < 16]: its result is the first
    failed test, capped at 16. *)
Lemma getRandomLevel_spec (coin : nat → bool) :
  getRandomLevel coin ≤ 16 ∧
  (∀ i, i < getRandomLevel coin → coin i = true) ∧
  (getRandomLevel coin = 16 ∨ coin (getRandomLevel coin) = false).
Proof.
  unfold getRandomLevel.
  destruct (random_level_loop_spec 17 coin 0) as (Hr & Hall & Hend); [lia|lia|].
  split; [lia|split; [|done]]. intros i Hi. apply Hall. lia.
Qed.

(** A fresh index is well formed whatever the configuration: the
    defaults of the [||] operator make [M], [efConstruction] and
    [efSearch] positive and the level multiplier truthy. *)
Lemma HNSWIndex_new_ok (config : HNSWConfig Num) :
  let idx : HNSWIndex V Num := HNSWIndex_new config in
  wf idx ∧ 1 ≤ M idx ∧ lm_truthy (levelMultiplier idx) = true.
Proof.
  unfold HNSWIndex_new, js_or_nat. split_and!; simpl.
  - split; simpl; [apply map_Forall_empty|by split| |].
    + destruct (cfg_efConstruction config) as [[]|]; simpl; lia.
    + destruct (cfg_efSearch config) as [[]|]; simpl; lia.
  - destruct (cfg_M config) as [[]|]; simpl; lia.
  - destruct (cfg_levelMultiplier config) as [lm|]; [|done]. by destruct (lm_truthy lm) eqn:E.
Qed.

Lemma layer_closed_b_sound (ns : gmap string (Node V)) l ids :
  layer_closed_b ns l ids = true → layer_closed ns l ids.
Proof.
  unfold layer_closed_b. rewrite forallb_forall. intros Hall j Hj.
  apply list_elem_of_In, Hall in Hj. destruct (ns !! j) as [m|]; [|done].
  apply Nat.leb_le in Hj. eauto.
Qed.

Lemma node_wf_b_sound (ns : gmap string (Node V)) m ml k n :
  node_wf_b ns m ml k n = true → node_wf ns m ml k n.
Proof.
  unfold node_wf_b. rewrite !andb_true_iff, bool_decide_eq_true, Nat.eqb_eq, Nat.leb_le,
    forallb_forall.
  intros (((Hid & Hlen) & Hlv) & Hall). split; [done|done|done| |].
  - intros l ids Hl. pose proof (lookup_lt_Some _ _ _ Hl).
    assert (Hin : In l (seq 0 (length (neighbors n)))) by (apply in_seq; lia).
    apply Hall in Hin. rewrite Hl in Hin. apply andb_true_iff in Hin as [Hin _].
    by apply Nat.leb_le.
  - intros l ids Hl. pose proof (lookup_lt_Some _ _ _ Hl).
    assert (Hin : In l (seq 0 (length (neighbors n)))) by (apply in_seq; lia).
    apply Hall in Hin. rewrite Hl in Hin. apply andb_true_iff in Hin as [_ Hin].
    by apply layer_closed_b_sound.
Qed.

(** [wf_check] decides [wf] soundly: it lets a concrete index be shown
    well formed by evaluation. *)
Lemma wf_check_sound (idx : HNSWIndex V Num) : wf_check idx = true → wf idx.
Proof.
  unfold wf_check. rewrite !andb_true_iff, bool_decide_eq_true, !Nat.leb_le.
  intros (((Hn & He) & Hc) & Hs). split; [|clear Hn|done|done].
  - intros k n Hk. apply node_wf_b_sound. by apply Hn.
  - unfold entry_wf_b, entry_wf in *. destruct (entryPointId idx).
    + destruct (nodes idx !! s) eqn:Hl; [|done]. apply Nat.eqb_eq in He. eauto.
    + rewrite andb_true_iff, !Nat.eqb_eq in He. destruct He as [Hsz ?].
      split; [|done]. by apply map_size_empty_iff.
Qed.
End CoreLemmas.
