(* ===== verification/HnswSearch.v ===== *)
(** * HNSW search: greedy layer climb, beam search on a layer, top-k

    Translation of hnsw.ts's [search], [searchLayer] and of the greedy
    descent loop shared by [search] and [addPoint].  The two loops whose
    termination is not structural take fuel:
    - [greedy_layer] ([while (changed)]): each iteration moves to a node
      of strictly higher similarity, so [size nodes + 1] iterations
      suffice when [<] is a strict order ([greedy_layer_fuel_ok]);
    - [searchLayer_loop] ([while (C.length > 0)]): each iteration pops a
      candidate and pushes only ids newly marked visited, so
      [size nodes + 1] iterations suffice ([searchLayer_fuel_ok]).

    The theorems show that on a well-formed graph neither loop runs out
    of fuel nor reads a missing node or layer (no [TypeError]), and that
    [search] returns at most [k] distinct results in descending order of
    similarity, all of them nodes of the graph. *)

From S2P Require Import Prelude VectorMath HnswCore.
From Stdlib Require Import ZArith.

(** The loop state of [searchLayer]: the visited set [v], the candidate
    array [C] and the result array [W]. *)
Record SLState (Num : Type) := mkSL {
  sl_visited : gset string;
  sl_C : list (Scored Num);
  sl_W : list (Scored Num)
}.
Arguments mkSL {Num}.
Arguments sl_visited {Num}.
Arguments sl_C {Num}.
Arguments sl_W {Num}.

Section Search.
Context {V Num : Type} `{JsNum Num} `{Similarity V Num} `{Float32Vec V Num}.

Implicit Types (idx : HNSWIndex V Num) (ns : gmap string (Node V)) (q : V).

(** One step of [for (const neighborId of neighbors)] in the greedy
    climb: keep the neighbour of best similarity if it beats [bestDist]. *)
Definition climb_step ns q (best : option (Node V) * Num) (nid : string)
    : res (option (Node V) * Num) :=
  neighbor ← ns !! nid !? "nodes.get(neighborId)!";
  let d := sim q (vector neighbor) in
  Ok (if num_lt best.2 d then (Some neighbor, d) else best).

(** [while (changed) { ... }] on layer [l]. *)
Fixpoint greedy_layer (fuel : nat) ns q (l : nat) (cur : Node V) (curDist : Num)
    : res (Node V * Num) :=
  match fuel with
  | 0 => Throw OutOfFuel
  | S fuel' =>
      nbrs ← neighbors cur !! l !? "currObj.neighbors[l]";
      best ← foldM (climb_step ns q) (None, curDist) nbrs;
      match best with
      | (Some b, bDist) => greedy_layer fuel' ns q l b bDist
      | (None, _) => Ok (cur, curDist)
      end
  end.

(** The layers [hi, hi-1, ..., lo+1] of [for (l = hi; l > lo; l--)]. *)
Definition layers_down (hi lo : nat) : list nat := rev (seq (S lo) (hi - lo)).

(** The greedy descent from layer [hi] down to layer [lo + 1]. *)
Definition descend ns q (hi lo : nat) (cur : Node V) (curDist : Num) : res (Node V * Num) :=
  foldM (λ (cd : Node V * Num) (l : nat), greedy_layer (S (size ns)) ns q l cd.1 cd.2)
    (cur, curDist) (layers_down hi lo).

(** One step of the inner loop of [searchLayer] for [neighborId]; [f] is
    the worst element of [W] read before the loop (it is not refreshed
    inside the loop). *)
Definition sl_expand ns q (ef : nat) (f : Scored Num) (st : SLState Num) (nid : string)
    : res (SLState Num) :=
  if decide (nid ∈ sl_visited st) then Ok st else
  neighbor ← ns !! nid !? "nodes.get(neighborId)!";
  let s := sim q (vector neighbor) in
  let visited := {[nid]} ∪ sl_visited st in
  if (length (sl_W st) <? ef) || num_lt (score f) s then
    let e := mkScored nid s in
    let W := sort_desc (sl_W st ++ [e]) in
    Ok (mkSL visited (sl_C st ++ [e]) (if ef <? length W then removelast W else W))
  else Ok (mkSL visited (sl_C st) (sl_W st)).

(** [while (C.length > 0) { ... }]. *)
Fixpoint searchLayer_loop (fuel : nat) ns q (ef l : nat) (st : SLState Num)
    : res (list (Scored Num)) :=
  match sl_C st with
  | [] => Ok (sl_W st)
  | _ :: _ =>
      match fuel with
      | 0 => Throw OutOfFuel
      | S fuel' =>
          match sort_desc (sl_C st) with
          | [] => Ok (sl_W st)
          | c :: C =>
              let W := sort_desc (sl_W st) in
              f ← last W !? "W[W.length - 1]";
              if num_lt (score c) (score f) && (ef <=? length W) then Ok W
              else
                cNode ← ns !! cid c !? "nodes.get(c.id)!";
                nbrs ← neighbors cNode !! l !? "cNode.neighbors[level]";
                st' ← foldM (sl_expand ns q ef f) (mkSL (sl_visited st) C W) nbrs;
                searchLayer_loop fuel' ns q ef l st'
          end
      end
  end.

(** [searchLayer(query, entry, ef, level)]. *)
Definition searchLayer ns q (entry : Node V) (ef l : nat) : res (list (Scored Num)) :=
  let e := mkScored (node_id entry) (sim q (vector entry)) in
  searchLayer_loop (S (size ns)) ns q ef l (mkSL {[node_id entry]} [e] [e]).

(** [search(query, k)]. *)
Definition search idx (query : list Num) (k : nat) : res (list (Scored Num)) :=
  match entryPointId idx with
  | None => Ok []
  | Some ep =>
      let q := f32_of_array query in
      cur ← nodes idx !! ep !? "nodes.get(entryPointId)!";
      cd ← descend (nodes idx) q (maxLevel idx) 0 cur (sim q (vector cur));
      W ← searchLayer (nodes idx) q cd.1 (efSearch idx) 0;
      Ok (take k W)
  end.
End Search.

(** A small well-formed graph over the integer instance, on which the
    witnesses run [search]: [a] (level 1, the entry point), [b], [c]
    (level 1), with [M = 2]. *)
Definition sample_graph : HNSWIndex (list Z) Z :=
  {| nodes := list_to_map [
       ("a", mkNode "a" [1;0]%Z 1 [["b";"c"];["c"]]);
       ("b", mkNode "b" [0;1]%Z 0 [["a";"c"]]);
       ("c", mkNode "c" [1;1]%Z 1 [["a";"b"];["a"]])];
     entryPointId := Some "a"; M := 2; efConstruction := 200; efSearch := 200;
     levelMultiplier := LMInvLogM 2; maxLevel := 1 |}.

(** ** Greedy climb and descent *)

Section ClimbLemmas.
Context {V Num : Type} `{JsNum Num} `{Similarity V Num} `{Float32Vec V Num}.
Context `{!NumStrictOrder Num}.

Implicit Types (idx : HNSWIndex V Num) (ns : gmap string (Node V)) (q : V).

(** A node value read from the arena that lives on layer [l]. *)
Definition on_layer ns (l : nat) (n : Node V) : Prop := (∃ k, ns !! k = Some n) ∧ l ≤ level n.

(** What [wf] guarantees a traversal of layer [l]: a node living on it
    has a layer-[l] list, and that list names nodes living on it. *)
Definition layer_ok ns (l : nat) : Prop :=
  ∀ k n, ns !! k = Some n → l ≤ level n →
    ∃ ids, neighbors n !! l = Some ids ∧ layer_closed ns l ids.

Lemma nodes_ok_layer_ok ns m ml l : nodes_ok ns m ml → layer_ok ns l.
Proof.
  intros Hok k n Hk Hl.
  destruct (map_Forall_lookup_1 _ _ _ _ Hok Hk) as [_ Hlen _ _ Hcl].
  destruct (lookup_lt_is_Some_2 (neighbors n) l) as [ids Hids]; [lia|].
  exists ids. split; [done|]. by eapply Hcl.
Qed.

Lemma wf_layer_ok idx l : wf idx → layer_ok (nodes idx) l.
Proof. intros Hwf. eapply nodes_ok_layer_ok, wf_nodes, Hwf. Qed.

Lemma layer_ok_lookup ns l n :
  layer_ok ns l → on_layer ns l n → ∃ ids, neighbors n !! l = Some ids ∧ layer_closed ns l ids.
Proof. intros Hok [[k Hk] Hl]. by eapply Hok. Qed.

(** The accumulator of the climb's inner loop: either no better
    neighbour yet, or a neighbour on the layer strictly better than the
    current node, with its similarity. *)
Definition climb_inv ns q (l : nat) (d0 : Num) (best : option (Node V) * Num) : Prop :=
  match best.1 with
  | None => best.2 = d0
  | Some b => on_layer ns l b ∧ best.2 = sim q (vector b) ∧ num_lt d0 best.2 = true
  end.

Lemma climb_step_ok ns q l d0 ids best nid :
  layer_closed ns l ids → nid ∈ ids → climb_inv ns q l d0 best →
  ∃ best', climb_step ns q best nid = Ok best' ∧ climb_inv ns q l d0 best'.
Proof.
  intros Hcl Hnid Hinv. destruct (Hcl nid Hnid) as (m & Hm & Hlm).
  unfold climb_step. rewrite Hm. simpl. eexists; split; [done|].
  destruct (num_lt best.2 (sim q (vector m))) eqn:Hlt; [|done].
  unfold climb_inv in *; simpl. split; [split; [by exists nid|done]|split; [done|]].
  destruct best as [[b|] d]; simpl in *; [|by subst].
  destruct Hinv as (_ & _ & Hd0). by eapply num_lt_trans.
Qed.

(** The measure of the climb: the nodes strictly more similar to [q]
    than the current distance. *)
Definition above_b ns q (d : Num) (k : string) : bool :=
  match ns !! k with Some n => num_lt d (sim q (vector n)) | None => false end.

Definition above ns q (d : Num) : gset string := filter (λ k, above_b ns q d k = true) (dom ns).

Lemma above_size ns q d : size (above ns q d) ≤ size ns.
Proof. rewrite <- size_dom. apply subseteq_size. unfold above. set_solver. Qed.

Lemma above_lt ns q d k b :
  ns !! k = Some b → num_lt d (sim q (vector b)) = true →
  size (above ns q (sim q (vector b))) < size (above ns q d).
Proof.
  intros Hk Hlt. apply subset_size. split.
  - intros j. unfold above. rewrite !elem_of_filter. unfold above_b.
    intros [Hj Hdom]. split; [|done]. destruct (ns !! j); [|done]. by eapply num_lt_trans.
  - intros Hsub. assert (Hin : k ∈ above ns q d).
    { unfold above. rewrite elem_of_filter. unfold above_b. rewrite Hk.
      split; [done|]. apply elem_of_dom. by eexists. }
    apply Hsub in Hin. unfold above in Hin. rewrite elem_of_filter in Hin.
    unfold above_b in Hin. rewrite Hk, num_lt_irrefl in Hin. by destruct Hin.
Qed.

(** The climb on a layer does not fail, given more fuel than nodes
    above the current distance: each iteration moves to a strictly
    more similar node. *)
Lemma greedy_layer_ok fuel ns q l cur :
  layer_ok ns l → on_layer ns l cur → size (above ns q (sim q (vector cur))) < fuel →
  ∃ cur', greedy_layer fuel ns q l cur (sim q (vector cur)) = Ok (cur', sim q (vector cur'))
    ∧ on_layer ns l cur'.
Proof.
  revert cur. induction fuel as [|fuel IH]; intros cur Hok Hcur Hfuel; [lia|simpl].
  destruct (layer_ok_lookup ns l cur Hok Hcur) as (ids & Hids & Hcl). rewrite Hids. simpl.
  destruct (foldM_res_ok (climb_step ns q) (climb_inv ns q l (sim q (vector cur))) ids
    (None, sim q (vector cur))) as ([[b|] d] & Hfold & Hinv); [|done|..].
  { intros. by eapply climb_step_ok. }
  - rewrite Hfold. simpl. destruct Hinv as (Hb & Hd & Hlt). simpl in Hd, Hlt. subst d.
    apply IH; [done|done|]. destruct Hb as [[k Hk] _].
    pose proof (above_lt ns q _ k b Hk Hlt). lia.
  - rewrite Hfold. simpl. eauto.
Qed.

Lemma layers_down_le hi lo : hi ≤ lo → layers_down hi lo = [].
Proof. intros Hle. unfold layers_down. by replace (hi - lo) with 0 by lia. Qed.

Lemma layers_down_S h lo : lo ≤ h → layers_down (S h) lo = S h :: layers_down h lo.
Proof.
  intros Hle. unfold layers_down. replace (S h - lo) with (S (h - lo)) by lia.
  rewrite seq_S, rev_app_distr. simpl. do 2 f_equal. lia.
Qed.

(** The descent from layer [hi] to layer [lo + 1] does not fail and ends
    on a node living on layer [min hi (lo + 1)], the first layer the
    caller works on next. *)
Lemma descend_ok ns q hi lo cur :
  (∀ l, layer_ok ns l) → (∃ k, ns !! k = Some cur) → hi ≤ level cur →
  ∃ cur', descend ns q hi lo cur (sim q (vector cur)) = Ok (cur', sim q (vector cur'))
    ∧ (∃ k, ns !! k = Some cur') ∧ min hi (S lo) ≤ level cur'.
Proof.
  unfold descend. revert cur. induction hi as [|h IH]; intros cur Hok Hcur Hlv.
  - rewrite layers_down_le by lia. exists cur. split; [done|]. split; [done|lia].
  - destruct (decide (S h ≤ lo)).
    + rewrite layers_down_le by done. exists cur. split; [done|]. split; [done|lia].
    + rewrite layers_down_S by lia. cbn [foldM fst snd].
      destruct (greedy_layer_ok (S (size ns)) ns q (S h) cur) as (c1 & Hc1 & [Hin1 Hlv1]);
        [done|by split|pose proof (above_size ns q (sim q (vector cur))); lia|].
      rewrite Hc1. cbn [mbind res_bind].
      destruct (IH c1) as (c2 & Hc2 & Hin2 & Hlv2); [done|done|lia|].
      exists c2. split; [done|]. split; [done|].
      destruct (decide (h ≤ lo)).
      * rewrite layers_down_le in Hc2 by done. simpl in Hc2. injection Hc2 as <-. lia.
      * lia.
Qed.
End ClimbLemmas.

(** ** Beam search on one layer *)

Section LayerLemmas.
Context {V Num : Type} `{JsNum Num} `{Similarity V Num} `{Float32Vec V Num}.
Context `{!NumStrictOrder Num}.

Implicit Types (idx : HNSWIndex V Num) (ns : gmap string (Node V)) (q : V).

(** An [{id, score}] produced by a traversal of layer [l] for [q]: a node
    living on the layer, with its exact similarity to [q]. *)
Definition scored_ok ns q (l : nat) (s : Scored Num) : Prop :=
  ∃ n, ns !! cid s = Some n ∧ l ≤ level n ∧ score s = sim q (vector n).

(** What [searchLayer] guarantees of its result. *)
Record result_ok ns q (l : nat) (W : list (Scored Num)) : Prop := {
  ro_scored : ∀ w, w ∈ W → scored_ok ns q l w;
  ro_nonempty : W ≠ [];
  ro_nodup : NoDup (cid <$> W);
  ro_sorted : Sorted desc W
}.

(** The array [W] of the loop: a result whose ids are all visited. *)
Record W_ok ns q (l : nat) (vis : gset string) (W : list (Scored Num)) : Prop := {
  wo_result : result_ok ns q l W;
  wo_visited : ∀ w, w ∈ W → cid w ∈ vis
}.

Record sl_inv ns q (l : nat) (st : SLState Num) : Prop := {
  sli_C : ∀ c, c ∈ sl_C st → scored_ok ns q l c;
  sli_W : W_ok ns q l (sl_visited st) (sl_W st)
}.

(** The loop's measure: unvisited nodes plus pending candidates. *)
Definition sl_measure ns (st : SLState Num) : nat :=
  size (dom ns ∖ sl_visited st) + length (sl_C st).

Lemma W_ok_of_sort ns q l vis W :
  (∀ w, w ∈ W → scored_ok ns q l w) → W ≠ [] → NoDup (cid <$> W) →
  (∀ w, w ∈ W → cid w ∈ vis) → W_ok ns q l vis (sort_desc W).
Proof.
  intros Hs Hne Hnd Hv. split; [split|].
  - intros w Hw. apply Hs. by rewrite elem_of_sort_desc in Hw.
  - by rewrite sort_desc_nil.
  - by rewrite NoDup_fmap_sort_desc.
  - apply sort_desc_sorted.
  - intros w Hw. apply Hv. by rewrite elem_of_sort_desc in Hw.
Qed.

Lemma W_ok_sort ns q l vis W : W_ok ns q l vis W → W_ok ns q l vis (sort_desc W).
Proof. intros [[Hs Hne Hnd _] Hv]. by apply W_ok_of_sort. Qed.

(** [W.push(e); W.sort(..); if (W.length > ef) W.pop()] for a fresh id. *)
Lemma W_ok_push ns q l vis W e ef :
  W_ok ns q l vis W → scored_ok ns q l e → cid e ∉ vis →
  W_ok ns q l ({[cid e]} ∪ vis)
    (let W' := sort_desc (W ++ [e]) in if ef <? length W' then removelast W' else W').
Proof.
  intros [[Hs Hne Hnd _] Hv] He Hfresh.
  assert (HWe : W_ok ns q l ({[cid e]} ∪ vis) (sort_desc (W ++ [e]))).
  { apply W_ok_of_sort.
    - intros w [Hw| ->%list_elem_of_singleton]%elem_of_app; [by apply Hs|done].
    - by destruct W.
    - rewrite fmap_app, NoDup_app. split; [done|split; [|apply NoDup_singleton]].
      intros x (w & -> & Hw)%list_elem_of_fmap Hx. simpl in Hx.
      apply list_elem_of_singleton in Hx. apply Hfresh. rewrite <- Hx. by apply Hv.
    - intros w [Hw| ->%list_elem_of_singleton]%elem_of_app; [|set_solver].
      apply Hv in Hw. set_solver. }
  cbv zeta. destruct (Nat.ltb_spec ef (length (sort_desc (W ++ [e])))) as [Hlt|]; [|done].
  destruct HWe as [[Hs' Hne' Hnd' Hsrt'] Hv']. split; [split|].
  - intros w Hw. apply Hs'. by apply elem_of_removelast_1.
  - rewrite length_sort_desc, length_app in Hlt. intros Hnil.
    pose proof (length_removelast (sort_desc (W ++ [e]))) as Hlen.
    rewrite Hnil, length_sort_desc, length_app in Hlen. destruct W; [done|simpl in Hlen; lia].
  - rewrite fmap_removelast. by apply NoDup_removelast.
  - by apply sorted_desc_removelast.
  - intros w Hw. apply Hv'. by apply elem_of_removelast_1.
Qed.

Lemma W_ok_mono ns q l vis vis' W : vis ⊆ vis' → W_ok ns q l vis W → W_ok ns q l vis' W.
Proof. intros Hsub [Hr Hv]. split; [done|]. intros w Hw. apply Hsub, Hv, Hw. Qed.

(** One step of the inner loop on an id of the layer: no error, the
    invariant holds after it and the measure does not grow. *)
Lemma sl_expand_ok ns q l ef f st nid :
  sl_inv ns q l st → (∃ m, ns !! nid = Some m ∧ l ≤ level m) →
  ∃ st', sl_expand ns q ef f st nid = Ok st' ∧ sl_inv ns q l st'
    ∧ sl_measure ns st' ≤ sl_measure ns st.
Proof.
  intros [HC HW] (m & Hm & Hlm). unfold sl_expand.
  case_decide as Hvis; [eexists; split; [done|split; [by split|lia]]|].
  rewrite Hm. cbn [of_option mbind res_bind].
  assert (Hlt : size (dom ns ∖ ({[nid]} ∪ sl_visited st)) < size (dom ns ∖ sl_visited st)).
  { apply subset_size. apply elem_of_dom_2 in Hm. set_solver. }
  assert (He : scored_ok ns q l (mkScored nid (sim q (vector m)))) by (by exists m).
  destruct (_ || _); eexists; (split; [done|]); unfold sl_measure in *; simpl.
  - split; [split|].
    + intros c [Hc| ->%list_elem_of_singleton]%elem_of_app; [by apply HC|done].
    + by apply (W_ok_push ns q l (sl_visited st) (sl_W st) (mkScored nid (sim q (vector m)))).
    + rewrite length_app. simpl. lia.
  - split; [split; [done|]|lia]. simpl. eapply W_ok_mono; [|done]. set_solver.
Qed.

(** The loop succeeds when its fuel covers the measure. *)
Lemma searchLayer_loop_ok fuel ns q ef l st :
  layer_ok ns l → sl_inv ns q l st → sl_measure ns st ≤ fuel →
  ∃ W, searchLayer_loop fuel ns q ef l st = Ok W ∧ result_ok ns q l W.
Proof.
  revert st. induction fuel as [|fuel IH]; intros [vis C W] Hok Hinv Hmeas; simpl.
  - destruct C as [|c C]; [eexists; split; [done|apply Hinv]|].
    unfold sl_measure in Hmeas. simpl in Hmeas. lia.
  - destruct C as [|c0 C0] eqn:HC; [eexists; split; [done|apply Hinv]|].
    destruct (sort_desc (c0 :: C0)) as [|c C'] eqn:Hs; [eexists; split; [done|apply Hinv]|].
    pose proof (W_ok_sort _ _ _ _ _ (sli_W _ _ _ _ Hinv)) as HWs. simpl in HWs.
    destruct (last (sort_desc W)) as [f|] eqn:Hf;
      [|apply last_None in Hf; by destruct (ro_nonempty _ _ _ _ (wo_result _ _ _ _ _ HWs))].
    cbn [of_option mbind res_bind].
    destruct (_ && _); [eexists; split; [done|apply HWs]|].
    assert (Hcin : c ∈ c0 :: C0) by (apply elem_of_sort_desc; rewrite Hs; left).
    destruct (sli_C _ _ _ _ Hinv c Hcin) as (n & Hn & Hln & _).
    destruct (Hok _ _ Hn Hln) as (ids & Hids & Hcl).
    rewrite Hn. cbn [of_option mbind res_bind]. rewrite Hids. cbn [of_option mbind res_bind].
    set (st0 := mkSL vis C' (sort_desc W)).
    assert (Hlen : length (c0 :: C0) = S (length C'))
      by (rewrite <- (length_sort_desc (c0 :: C0)), Hs; done).
    destruct (foldM_res_ok (sl_expand ns q ef f)
      (λ st', sl_inv ns q l st' ∧ sl_measure ns st' ≤ sl_measure ns st0) ids st0)
      as (st' & Hfold & Hinv' & Hm'); [| |].
    + intros st1 nid [Hinv1 Hm1] Hnid. destruct (Hcl nid Hnid) as (m & Hm & Hlm).
      destruct (sl_expand_ok ns q l ef f st1 nid Hinv1) as (st2 & H2 & Hinv2 & Hm2); [eauto|].
      exists st2. split; [done|]. split; [done|lia].
    + split; [|done]. split; [|done]. intros c1 Hc1. apply (sli_C _ _ _ _ Hinv).
      simpl. apply elem_of_sort_desc. rewrite Hs. by right.
    + rewrite Hfold. cbn [mbind res_bind]. apply IH; [done|done|].
      unfold sl_measure in *. simpl in *. lia.
Qed.

(** [searchLayer] from a node of the layer does not fail, and its result
    is a non-empty, duplicate-free, descending list of nodes of the
    layer with their exact similarities. *)
Lemma searchLayer_ok ns q entry ef l :
  layer_ok ns l → ns !! node_id entry = Some entry → l ≤ level entry →
  ∃ W, searchLayer ns q entry ef l = Ok W ∧ result_ok ns q l W.
Proof.
  intros Hok Hentry Hl. unfold searchLayer. apply searchLayer_loop_ok; [done| |].
  - assert (He : scored_ok ns q l (mkScored (node_id entry) (sim q (vector entry))))
      by (by exists entry).
    split; simpl; [intros c ->%list_elem_of_singleton; done|].
    split; [split|].
    + by intros w ->%list_elem_of_singleton.
    + done.
    + apply NoDup_singleton.
    + repeat constructor.
    + intros w ->%list_elem_of_singleton. set_solver.
  - unfold sl_measure. simpl. rewrite <- size_dom.
    assert (size (dom ns ∖ {[node_id entry]}) ≤ size (dom ns))
      by (apply subseteq_size; set_solver). lia.
Qed.
End LayerLemmas.

(** ** Fuel: a result reached with some fuel is reached with more *)

Section FuelLemmas.
Context {V Num : Type} `{JsNum Num} `{Similarity V Num} `{Float32Vec V Num}.

Lemma greedy_layer_mono fuel n ns q l (cur : Node V) d r :
  greedy_layer fuel ns q l cur d = Ok r → greedy_layer (fuel + n) ns q l cur d = Ok r.
Proof.
  revert cur d. induction fuel as [|fuel IH]; intros cur d; [done|]. cbn [greedy_layer Nat.add].
  destruct (neighbors cur !! l) as [nbrs|]; [|done]. cbn [of_option mbind res_bind].
  destruct (foldM _ _ _) as [[[b|] bd]|]; [apply IH|done|done].
Qed.

Lemma searchLayer_loop_nil fuel ns q ef l (st : SLState Num) :
  sl_C st = [] → searchLayer_loop fuel ns q ef l st = Ok (sl_W st).
Proof. intros HC. destruct fuel; simpl; by rewrite HC. Qed.

Lemma searchLayer_loop_mono fuel n ns q ef l (st : SLState Num) W :
  searchLayer_loop fuel ns q ef l st = Ok W → searchLayer_loop (fuel + n) ns q ef l st = Ok W.
Proof.
  revert st. induction fuel as [|fuel IH]; intros st.
  { destruct (sl_C st) eqn:HC; [by rewrite !searchLayer_loop_nil|simpl; by rewrite HC]. }
  cbn [searchLayer_loop Nat.add]. destruct (sl_C st) as [|c0 C0]; [done|].
  destruct (sort_desc (c0 :: C0)) as [|c C]; [done|].
  destruct (last (sort_desc (sl_W st))) as [f|]; [|done]. cbn [of_option mbind res_bind].
  destruct (_ && _); [done|].
  destruct (ns !! cid c) as [cn|]; [|done]. cbn [of_option mbind res_bind].
  destruct (neighbors cn !! l) as [nbrs|]; [|done]. cbn [of_option mbind res_bind].
  destruct (foldM _ _ _) as [st'|]; [apply IH|done].
Qed.
End FuelLemmas.

(** ** Top-k search *)

Section SearchTheorems.
Context {V Num : Type} `{JsNum Num} `{Similarity V Num} `{Float32Vec V Num}.
Context `{!NumStrictOrder Num}.

Implicit Types (idx : HNSWIndex V Num).

Lemma wf_node_id idx k n : wf idx → nodes idx !! k = Some n → node_id n = k.
Proof. intros Hwf Hk. by destruct (map_Forall_lookup_1 _ _ _ _ (wf_nodes _ Hwf) Hk). Qed.

Lemma wf_empty_entry idx : wf idx → nodes idx = ∅ → entryPointId idx = None.
Proof.
  intros Hwf Hemp. pose proof (wf_entry _ Hwf) as He. unfold entry_wf in He.
  destruct (entryPointId idx); [|done]. destruct He as (n & Hn & _). by rewrite Hemp in Hn.
Qed.

(** Everything [search] guarantees on a well-formed index. *)
Lemma search_spec idx query k :
  wf idx →
  ∃ W, search idx query k = Ok W ∧ length W ≤ k ∧ NoDup (cid <$> W) ∧ Sorted desc W ∧
    (∀ w, w ∈ W → scored_ok (nodes idx) (f32_of_array query) 0 w) ∧
    (nodes idx ≠ ∅ → 1 ≤ k → W ≠ []).
Proof.
  intros Hwf. unfold search.
  destruct (entryPointId idx) as [ep|] eqn:Hep.
  - pose proof (wf_entry _ Hwf) as He. unfold entry_wf in He. rewrite Hep in He.
    destruct He as (n & Hn & Hlv). rewrite Hn. cbn [of_option mbind res_bind].
    set (q := f32_of_array query).
    destruct (descend_ok (nodes idx) q (maxLevel idx) 0 n) as (c & Hc & [kc Hkc] & _);
      [intros; by apply wf_layer_ok|by eexists|lia|].
    rewrite Hc. cbn [mbind res_bind fst].
    destruct (searchLayer_ok (nodes idx) q c (efSearch idx) 0) as (W & HW & [Hs Hne Hnd Hsrt]);
      [by apply wf_layer_ok|by rewrite (wf_node_id idx kc c Hwf Hkc)|lia|].
    rewrite HW. cbn [mbind res_bind]. eexists. split; [done|].
    split; [rewrite length_take; lia|]. split; [rewrite fmap_take; by apply NoDup_take|].
    split; [by apply sorted_desc_take|]. split; [intros w Hw; apply Hs; by eapply elem_of_take_1|].
    intros _ Hk. destruct W; [done|]. destruct k; [lia|done].
  - eexists. split; [done|]. split; [simpl; lia|]. split; [constructor|].
    split; [constructor|]. split; [intros w Hw; inversion Hw|].
    intros Hne _. pose proof (wf_entry _ Hwf) as He. unfold entry_wf in He.
    rewrite Hep in He. by destruct He.
Qed.

(** [search] on a well-formed index never throws: no [TypeError]
    from a missing node or layer, and neither loop exhausts its fuel. *)
Theorem search_no_error idx query k : wf idx → ∃ W, search idx query k = Ok W.
Proof. intros Hwf. destruct (search_spec idx query k Hwf) as (W & HW & _). eauto. Qed.

(** C3: the results of [search] are in descending order of similarity. *)
Theorem search_sorted idx query k W : wf idx → search idx query k = Ok W → Sorted desc W.
Proof.
  intros Hwf HW. destruct (search_spec idx query k Hwf) as (W' & HW' & _ & _ & Hs & _).
  rewrite HW in HW'. by injection HW' as ->.
Qed.

(** C4: [search] returns at most [k] results with pairwise distinct ids,
    each one a node of the graph scored with its exact similarity to the
    query. *)
Theorem search_results_exact idx query k W :
  wf idx → search idx query k = Ok W →
  length W ≤ k ∧ NoDup (cid <$> W) ∧
  ∀ w, w ∈ W → ∃ n, nodes idx !! cid w = Some n ∧ score w = sim (f32_of_array query) (vector n).
Proof.
  intros Hwf HW. destruct (search_spec idx query k Hwf) as (W' & HW' & Hk & Hnd & _ & Hsc & _).
  rewrite HW in HW'. injection HW' as <-. split; [done|split; [done|]].
  intros w Hw. destruct (Hsc w Hw) as (n & Hn & _ & Hs). eauto.
Qed.

(** C5: [search] returns no result exactly when the index is empty or
    [k = 0]. *)
Theorem search_empty_iff idx query k :
  wf idx → (search idx query k = Ok [] ↔ nodes idx = ∅ ∨ k = 0).
Proof.
  intros Hwf. destruct (search_spec idx query k Hwf) as (W & HW & Hk & _ & _ & _ & Hne).
  rewrite HW. split.
  - intros [= ->]. destruct (decide (nodes idx = ∅)) as [|Hn]; [by left|right].
    destruct k; [done|]. by destruct (Hne Hn); [lia|].
  - intros [Hemp| ->].
    + unfold search in HW. by rewrite (wf_empty_entry idx Hwf Hemp) in HW.
    + by destruct W; [|simpl in Hk; lia].
Qed.

(** C24: the two [while] loops of [search] terminate on a well-formed
    graph.  From a node [entry] of layer [l], the greedy climb ([while
    (changed)]) and [searchLayer]'s loop ([while (C.length > 0)]) reach
    a result within [size nodes + 1] iterations, and every larger
    iteration bound gives the same result: the bounded loops of the model
    compute what the unbounded loops of hnsw.ts compute. *)
Theorem search_loops_terminate idx k (entry : Node V) q ef l :
  wf idx → nodes idx !! k = Some entry → l ≤ level entry →
  (∃ cur', ∀ fuel, S (size (nodes idx)) ≤ fuel →
     greedy_layer fuel (nodes idx) q l entry (sim q (vector entry)) = Ok (cur', sim q (vector cur'))) ∧
  (∃ W, ∀ fuel, S (size (nodes idx)) ≤ fuel →
     searchLayer_loop fuel (nodes idx) q ef l
       (mkSL {[node_id entry]} [mkScored (node_id entry) (sim q (vector entry))]
                               [mkScored (node_id entry) (sim q (vector entry))]) = Ok W).
Proof.
  intros Hwf Hk Hl. pose proof (wf_layer_ok idx l Hwf) as Hok.
  split.
  - destruct (greedy_layer_ok (S (size (nodes idx))) (nodes idx) q l entry) as (c & Hc & _);
      [done|split; [by exists k|done]|pose proof (above_size (nodes idx) q (sim q (vector entry))); lia|].
    exists c. intros fuel Hf. replace fuel with (S (size (nodes idx)) + (fuel - S (size (nodes idx)))) by lia.
    by apply greedy_layer_mono.
  - rewrite <- (wf_node_id idx k entry Hwf Hk) in Hk.
    destruct (searchLayer_ok (nodes idx) q entry ef l Hok Hk Hl) as (W & HW & _).
    exists W. intros fuel Hf. replace fuel with (S (size (nodes idx)) + (fuel - S (size (nodes idx)))) by lia.
    by apply searchLayer_loop_mono.
Qed.
End SearchTheorems.

Lemma search_no_error_witness : ∃ W, search sample_graph [0;1]%Z 2 = Ok W.
Proof. apply (search_no_error sample_graph [0;1]%Z 2). apply wf_check_sound. vm_compute. reflexivity. Defined.

Lemma search_sorted_witness :
  search sample_graph [0;1]%Z 2 = Ok [mkScored "c" 1%Z; mkScored "b" 1%Z] ∧
  Sorted desc [mkScored "c" 1%Z; mkScored "b" 1%Z].
Proof.
  split; [vm_compute; reflexivity|].
  apply (search_sorted sample_graph [0;1]%Z 2); [apply wf_check_sound|]; vm_compute; reflexivity.
Defined.

Lemma search_results_exact_witness :
  search sample_graph [0;1]%Z 5 = Ok [mkScored "c" 1%Z; mkScored "b" 1%Z; mkScored "a" 0%Z] ∧
  length [mkScored "c" 1%Z; mkScored "b" 1%Z; mkScored "a" 0%Z] ≤ 5.
Proof.
  split; [vm_compute; reflexivity|].
  apply (search_results_exact sample_graph [0;1]%Z 5); [apply wf_check_sound|]; vm_compute; reflexivity.
Defined.

Lemma search_empty_iff_witness : search sample_graph [0;1]%Z 0 = Ok [].
Proof.
  apply (search_empty_iff sample_graph [0;1]%Z 0); [apply wf_check_sound; vm_compute; reflexivity|].
  by right.
Defined.

Lemma search_loops_terminate_witness :
  let a := mkNode "a" [1;0]%Z 1 [["b";"c"];["c"]] in
  (∃ cur', ∀ fuel, S (size (nodes sample_graph)) ≤ fuel →
     greedy_layer fuel (nodes sample_graph) [0;1]%Z 0 a (sim [0;1]%Z (vector a))
       = Ok (cur', sim [0;1]%Z (vector cur'))) ∧
  (∃ W, ∀ fuel, S (size (nodes sample_graph)) ≤ fuel →
     searchLayer_loop fuel (nodes sample_graph) [0;1]%Z 2 0
       (mkSL {[node_id a]} [mkScored (node_id a) (sim [0;1]%Z (vector a))]
                           [mkScored (node_id a) (sim [0;1]%Z (vector a))]) = Ok W).
Proof.
  intros a. apply (search_loops_terminate sample_graph "a" a [0;1]%Z 2 0);
    [apply wf_check_sound; vm_compute; reflexivity|vm_compute; reflexivity|simpl; lia].
Defined.
