(* ===== verification/HnswInsert.v ===== *)
(** * HNSW insertion: [addPoint]

    hnsw.ts's [addPoint(id, vector)] as a method of the index in the
    state-exception monad [exc]: it mutates the node arena step by step
    (insert the new node, set its layer lists, push the new id on each
    selected neighbour's list and prune it back to [M]) and any
    [TypeError] leaves the mutations done so far in place, as in the
    source.  The random level is drawn from the [coin] outcomes.

    The theorems show that on a well-formed index [addPoint] of a fresh
    id never throws and yields a well-formed index (degree bound [M],
    closed neighbour lists, entry point of maximal level), that it throws
    [DuplicateId] without changing anything on a known id, that it adds
    exactly one node, and that every node whose record it changed is in
    the returned touched set, which index.ts persists. *)

From S2P Require Import Prelude VectorMath HnswCore HnswSearch.

Section Insert.
Context {V Num : Type} `{JsNum Num} `{Similarity V Num} `{Float32Vec V Num}.

Implicit Types (idx : HNSWIndex V Num) (ns : gmap string (Node V)).

(** [neighbor.neighbors[l].map(nid => ({ id: nid,
      score: this.dist(neighbor.vector, this.nodes.get(nid)!.vector) }))]. *)
Definition prune_candidates ns (nv : V) (ids : list string) : res (list (Scored Num)) :=
  mapM_res (λ nid, n ← ns !! nid !? "nodes.get(nid)!"; Ok (mkScored nid (sim nv (vector n)))) ids.

(** The body of [for (const neighborInfo of neighbors)]: push the new id
    on the neighbour's layer-[l] list, record the neighbour as touched,
    and prune the list to the [M] most similar ids when it is too long. *)
Definition link_neighbor (id : string) (l : nat) (touched : gset string) (ni : Scored Num)
    : exc (HNSWIndex V Num) (gset string) :=
  idx ← exc_get;
  neighbor ← lift! (nodes idx !! cid ni !? "nodes.get(neighborInfo.id)!");
  ids ← lift! (neighbors neighbor !! l !? "neighbor.neighbors[l]");
  let ids' := ids ++ [id] in
  let neighbor' := set_layer l ids' neighbor in
  exc_put (set_nodes (<[cid ni := neighbor']> (nodes idx)) idx);;
  let touched' := {[node_id neighbor]} ∪ touched in
  if M idx <? length ids' then
    idx' ← exc_get;
    cands ← lift! (prune_candidates (nodes idx') (vector neighbor) ids');
    let kept := cid <$> selectNeighbors cands (M idx') in
    exc_put (set_nodes (<[cid ni := set_layer l kept neighbor']> (nodes idx')) idx');;
    mret touched'
  else mret touched'.

(** One iteration of [for (let l = min(level, maxLevel); l >= 0; l--)]:
    search the layer from [currObj], connect the new node to the best
    [M] results in both directions, and continue from [W[0]] (after the
    in-place sort done by [selectNeighbors]). *)
Definition connect_layer (id : string) (q : V) (acc : Node V * gset string) (l : nat)
    : exc (HNSWIndex V Num) (Node V * gset string) :=
  idx ← exc_get;
  W ← lift! (searchLayer (nodes idx) q acc.1 (efConstruction idx) l);
  let Ws := sort_desc W in
  let sel := take (M idx) Ws in
  exc_modify (λ idx, set_nodes (alter (set_layer l (cid <$> sel)) id (nodes idx)) idx);;
  touched ← foldM (link_neighbor id l) acc.2 sel;
  idx' ← exc_get;
  cur ← match Ws with
        | [] => mret acc.1
        | w :: _ => lift! (nodes idx' !! cid w !? "nodes.get(W[0].id)!")
        end;
  mret (cur, touched).

(** The layers [min(level, maxLevel), ..., 0]. *)
Definition connect_layers (level top : nat) : list nat := rev (seq 0 (S (min level top))).

(** [addPoint(id, vector)]. *)
Definition addPoint (id : string) (vector : list Num) (coin : nat → bool)
    : exc (HNSWIndex V Num) (gset string) :=
  let q := f32_of_array vector in
  idx ← exc_get;
  match nodes idx !! id with
  | Some _ => lift! (Throw (DuplicateId id))
  | None =>
      let level := getRandomLevel coin in
      let newNode := mkNode id q level (replicate (S level) []) in
      exc_put (set_nodes (<[id := newNode]> (nodes idx)) idx);;
      match entryPointId idx with
      | None => exc_modify (set_entry (Some id) level);; mret {[id]}
      | Some ep =>
          idx1 ← exc_get;
          cur ← lift! (nodes idx1 !! ep !? "nodes.get(entryPointId)!");
          cd ← lift! (descend (nodes idx1) q (maxLevel idx1) level cur (sim q (HnswCore.vector cur)));
          acc ← foldM (connect_layer id q) (cd.1, {[id]}) (connect_layers level (maxLevel idx1));
          idx2 ← exc_get;
          (if maxLevel idx2 <? level then exc_put (set_entry (Some id) level idx2) else mret ());;
          mret acc.2
      end
  end.
End Insert.

(** ** The arena under the mutations of [addPoint] *)

Section ArenaLemmas.
Context {V Num : Type} `{JsNum Num}.

Implicit Types (ns : gmap string (Node V)) (n : Node V).

(** What [addPoint] never changes in a node: id, vector and level. *)
Definition node_shape n : string * V * nat := (node_id n, vector n, level n).

Definition same_shape ns ns' : Prop := node_shape <$> ns = node_shape <$> ns'.

Lemma same_shape_lookup ns ns' k n :
  same_shape ns ns' → ns !! k = Some n → ∃ n', ns' !! k = Some n' ∧ node_shape n' = node_shape n.
Proof.
  intros Hs Hk. apply (f_equal (lookup k)) in Hs. rewrite !lookup_fmap, Hk in Hs.
  destruct (ns' !! k) as [n'|]; [|discriminate]. exists n'. split; [done|].
  symmetry. exact (f_equal (default (node_shape n)) Hs).
Qed.

Lemma set_layer_shape l ids n : node_shape (set_layer l ids n) = node_shape n.
Proof. done. Qed.

Lemma same_shape_set_layer ns k n l ids :
  ns !! k = Some n → same_shape ns (<[k := set_layer l ids n]> ns).
Proof.
  intros Hk. unfold same_shape. rewrite fmap_insert, set_layer_shape.
  symmetry. apply insert_id. by rewrite lookup_fmap, Hk.
Qed.

Lemma layer_closed_shape ns ns' l ids :
  same_shape ns ns' → layer_closed ns l ids → layer_closed ns' l ids.
Proof.
  intros Hs Hcl j Hj. destruct (Hcl j Hj) as (m & Hm & Hl).
  destruct (same_shape_lookup ns ns' j m Hs Hm) as (m' & Hm' & [= _ _ Hlv]).
  exists m'. split; [done|lia].
Qed.

Lemma node_wf_shape ns ns' m ml k n :
  same_shape ns ns' → node_wf ns m ml k n → node_wf ns' m ml k n.
Proof.
  intros Hs [Hid Hlen Hlv Hdeg Hcl]. split; try done.
  intros l ids Hl. eapply layer_closed_shape; [done|]. by eapply Hcl.
Qed.

Lemma set_layer_set_layer l ids ids' n : set_layer l ids (set_layer l ids' n) = set_layer l ids n.
Proof. unfold set_layer. simpl. by rewrite list_insert_insert_eq. Qed.

(** Replacing one layer list of a node by a short, closed list keeps the
    arena well formed. *)
Lemma nodes_ok_set_layer ns m ml k n l ids :
  nodes_ok ns m ml → ns !! k = Some n → l ≤ level n → length ids ≤ m →
  layer_closed ns l ids → nodes_ok (<[k := set_layer l ids n]> ns) m ml.
Proof.
  intros Hok Hk Hl Hlen Hcl. pose proof (same_shape_set_layer ns k n l ids Hk) as Hs.
  destruct (map_Forall_lookup_1 _ _ _ _ Hok Hk) as [Hid Hln Hlv Hdeg Hcln].
  apply map_Forall_insert_2.
  - split; simpl; [done|by rewrite length_insert|done| |].
    + intros l' ids' Hl'. rewrite list_lookup_insert in Hl'.
      case_decide as Hc; [destruct Hc as [<- _]; simplify_eq; lia|by eapply Hdeg].
    + intros l' ids' Hl'. eapply layer_closed_shape; [done|].
      rewrite list_lookup_insert in Hl'.
      case_decide as Hc; [destruct Hc as [<- _]; by simplify_eq|by eapply Hcln].
  - eapply map_Forall_impl; [done|]. intros k' n'. by apply node_wf_shape.
Qed.

Lemma nodes_ok_mono ns m ml ml' : ml ≤ ml' → nodes_ok ns m ml → nodes_ok ns m ml'.
Proof.
  intros Hle Hok. eapply map_Forall_impl; [done|].
  intros k n [Hid Hlen Hlv Hdeg Hcl]. split; try done. lia.
Qed.

(** Adding the new node, whose layer lists are all empty. *)
Lemma nodes_ok_insert_new ns m ml id q lvl :
  nodes_ok ns m ml → ns !! id = None → lvl ≤ ml →
  nodes_ok (<[id := mkNode id q lvl (replicate (S lvl) [])]> ns) m ml.
Proof.
  intros Hok Hid Hlvl.
  assert (Hmono : ∀ l ids, layer_closed ns l ids → layer_closed (<[id := mkNode id q lvl (replicate (S lvl) [])]> ns) l ids).
  { intros l ids Hcl j Hj. destruct (Hcl j Hj) as (m' & Hm' & Hl). exists m'.
    rewrite lookup_insert_ne; [done|]. intros ->. congruence. }
  apply map_Forall_insert_2.
  - split; cbn [node_id vector level neighbors]; [done|by rewrite length_replicate|done| |].
    + intros l ids Hl. apply lookup_replicate in Hl as [-> _]. simpl. lia.
    + intros l ids Hl. apply lookup_replicate in Hl as [-> _]. by intros j Hj%elem_of_nil.
  - eapply map_Forall_impl; [done|]. intros k n [Hk Hlen Hlv Hdeg Hcl].
    split; try done. intros l ids Hl. apply Hmono. by eapply Hcl.
Qed.
End ArenaLemmas.

(** ** The steps of [addPoint] *)

Section InsertLemmas.
Context {V Num : Type} `{JsNum Num} `{Similarity V Num} `{Float32Vec V Num}.
Context `{!NumStrictOrder Num}.

Implicit Types (idx : HNSWIndex V Num) (ns : gmap string (Node V)).

Lemma prune_candidates_ok ns nv ids :
  (∀ j, j ∈ ids → is_Some (ns !! j)) →
  ∃ cands, prune_candidates ns nv ids = Ok cands ∧ cid <$> cands = ids.
Proof.
  unfold prune_candidates. induction ids as [|j ids IH]; intros Hin; [by exists []|].
  destruct (Hin j) as [n Hn]; [left|]. simpl. rewrite Hn. simpl.
  destruct IH as (cands & -> & Hc); [intros; apply Hin; by right|].
  eexists. split; [done|]. change (j :: (cid <$> cands) = j :: ids). by rewrite Hc.
Qed.

Lemma layer_closed_app ns l ids ids' :
  layer_closed ns l ids → layer_closed ns l ids' → layer_closed ns l (ids ++ ids').
Proof. intros Hc1 Hc2 j [Hj|Hj]%elem_of_app; [by apply Hc1|by apply Hc2]. Qed.

(** One [neighborInfo] of [addPoint]: the neighbour's layer-[l] list
    becomes a closed list of at most [M] ids drawn from its old list and
    the new id, and the neighbour is recorded as touched. *)
Lemma link_neighbor_spec id l touched ni idx nb ml :
  nodes_ok (nodes idx) (M idx) ml → nodes idx !! cid ni = Some nb → l ≤ level nb →
  (∃ nn, nodes idx !! id = Some nn ∧ l ≤ level nn) →
  ∃ ids', link_neighbor id l touched ni idx =
      (Ok ({[cid ni]} ∪ touched), set_nodes (<[cid ni := set_layer l ids' nb]> (nodes idx)) idx)
    ∧ length ids' ≤ M idx ∧ layer_closed (nodes idx) l ids'.
Proof.
  intros Hok Hnb Hl (nn & Hnn & Hlnn).
  destruct (map_Forall_lookup_1 _ _ _ _ Hok Hnb) as [Hid Hlen _ Hdeg Hcl].
  destruct (lookup_lt_is_Some_2 (neighbors nb) l) as [ids Hids]; [lia|].
  assert (Hcl' : layer_closed (nodes idx) l (ids ++ [id])).
  { apply layer_closed_app; [by eapply Hcl|]. intros j ->%list_elem_of_singleton. eauto. }
  unfold link_neighbor. exc_unfold.
  rewrite Hnb. cbn [of_option]. rewrite Hids. cbn [of_option]. rewrite Hid.
  destruct (Nat.ltb_spec (M idx) (length (ids ++ [id]))) as [Hlt|Hge].
  - cbn [nodes set_nodes M].
    destruct (prune_candidates_ok (<[cid ni := set_layer l (ids ++ [id]) nb]> (nodes idx))
      (vector nb) (ids ++ [id])) as (cands & Hc & Hcids).
    { intros j Hj. destruct (Hcl' j Hj) as (m & Hm & _).
      rewrite lookup_insert. case_decide; [done|by eexists]. }
    rewrite Hc. cbn [exc_put mret exc_ret].
    exists (cid <$> selectNeighbors cands (M idx)). split; [|split].
    + by rewrite insert_insert_eq, set_layer_set_layer.
    + rewrite length_fmap. unfold selectNeighbors. rewrite length_take. lia.
    + intros j Hj. apply Hcl'. rewrite <- Hcids. unfold selectNeighbors in Hj.
      apply list_elem_of_fmap in Hj as (c & -> & Hc').
      apply list_elem_of_fmap_2. apply elem_of_take_1 in Hc'. by rewrite elem_of_sort_desc in Hc'.
  - exists (ids ++ [id]). split; [done|]. split; [lia|done].
Qed.

Lemma same_shape_trans ns1 ns2 ns3 : same_shape ns1 ns2 → same_shape ns2 ns3 → same_shape ns1 ns3.
Proof. unfold same_shape. congruence. Qed.

Lemma same_shape_vectors ns ns' : same_shape ns ns' → vector <$> ns = vector <$> ns'.
Proof.
  intros Hs. apply (f_equal (fmap (λ p : string * V * nat, p.1.2))) in Hs.
  rewrite <- !map_fmap_compose in Hs. exact Hs.
Qed.

Lemma same_shape_dom ns ns' : same_shape ns ns' → dom ns = dom ns'.
Proof. intros Hs. by rewrite <- (dom_fmap_L node_shape ns), Hs, dom_fmap_L. Qed.

Lemma alter_Some_insert (f : Node V → Node V) ns k x :
  ns !! k = Some x → alter f k ns = <[k := f x]> ns.
Proof.
  intros Hk. apply map_eq. intros j. destruct (decide (k = j)) as [<-|Hne].
  - by rewrite lookup_alter_eq, lookup_insert_eq, Hk.
  - by rewrite lookup_alter_ne, lookup_insert_ne.
Qed.

(** The loop [for (const neighborInfo of neighbors)] over the selected
    neighbours: the arena stays well formed and of the same shape, and
    exactly the keys it changes are added to the touched set. *)
Lemma link_all_spec id l sel touched idx ml :
  nodes_ok (nodes idx) (M idx) ml →
  (∀ x, x ∈ sel → ∃ n, nodes idx !! cid x = Some n ∧ l ≤ level n) →
  (∃ nn, nodes idx !! id = Some nn ∧ l ≤ level nn) →
  ∃ touched' ns', foldM (link_neighbor id l) touched sel idx = (Ok touched', set_nodes ns' idx)
    ∧ nodes_ok ns' (M idx) ml ∧ same_shape (nodes idx) ns'
    ∧ touched ⊆ touched' ∧ touched' ⊆ touched ∪ dom (nodes idx)
    ∧ (∀ k, k ∉ touched' → ns' !! k = nodes idx !! k).
Proof.
  intros Hok Hsel (nn & Hnn & Hlnn).
  destruct (foldM_exc_ok (link_neighbor id l)
    (λ t s, ∃ ns', s = set_nodes ns' idx ∧ nodes_ok ns' (M idx) ml ∧ same_shape (nodes idx) ns'
      ∧ touched ⊆ t ∧ t ⊆ touched ∪ dom (nodes idx) ∧ ∀ k, k ∉ t → ns' !! k = nodes idx !! k)
    sel touched idx) as (t & s & Hf & ns' & -> & Hrest).
  - intros t x s (ns1 & -> & Hok1 & Hsh1 & Ht1 & Ht1' & Hk1) Hx.
    destruct (Hsel x Hx) as (n & Hn & Hln).
    destruct (same_shape_lookup _ _ _ _ Hsh1 Hn) as (nb & Hnb & Hsnb).
    destruct (same_shape_lookup _ _ _ _ Hsh1 Hnn) as (nn' & Hnn' & Hsnn).
    injection Hsnb as _ _ Hlv. injection Hsnn as _ _ Hlv'.
    destruct (link_neighbor_spec id l t x (set_nodes ns1 idx) nb ml) as (ids' & Hl & Hlen & Hcl);
      [done|done|lia|exists nn'; split; [done|lia]|].
    eexists _, _. split; [exact Hl|].
    exists (<[cid x := set_layer l ids' nb]> ns1). split; [done|].
    split; [by apply nodes_ok_set_layer; [|done|lia| |]|].
    split; [eapply same_shape_trans; [done|by apply same_shape_set_layer]|].
    split; [set_solver|]. split.
    + apply elem_of_dom_2 in Hn. set_solver.
    + intros k Hk. rewrite lookup_insert_ne by set_solver. apply Hk1. set_solver.
  - exists (nodes idx). rewrite set_nodes_id. split; [done|]. split; [done|].
    split; [done|]. split; [done|]. split; [set_solver|done].
  - exists t, ns'. by split.
Qed.

(** One layer of the connection loop: the arena stays well formed and
    of the same shape, the next entry node lives on the layer, and the
    keys changed are exactly those added to the touched set. *)
Lemma connect_layer_spec id q cur touched l idx ml :
  nodes_ok (nodes idx) (M idx) ml → nodes idx !! node_id cur = Some cur → l ≤ level cur →
  (∃ nn, nodes idx !! id = Some nn ∧ l ≤ level nn) → id ∈ touched →
  ∃ cur' touched' ns',
    connect_layer id q (cur, touched) l idx = (Ok (cur', touched'), set_nodes ns' idx)
    ∧ nodes_ok ns' (M idx) ml ∧ same_shape (nodes idx) ns'
    ∧ ns' !! node_id cur' = Some cur' ∧ l ≤ level cur'
    ∧ touched ⊆ touched' ∧ touched' ⊆ touched ∪ dom (nodes idx)
    ∧ (∀ k, k ∉ touched' → ns' !! k = nodes idx !! k).
Proof.
  intros Hok Hcur Hl (nn & Hnn & Hlnn) Hid.
  destruct (searchLayer_ok (nodes idx) q cur (efConstruction idx) l)
    as (W & HW & [Hs Hne Hnd Hsrt]); [by eapply nodes_ok_layer_ok|done|done|].
  destruct (sort_desc W) as [|w Ws'] eqn:HWs; [by rewrite sort_desc_nil in HWs|].
  assert (Hsel : ∀ x, x ∈ take (M idx) (w :: Ws') → ∃ n, nodes idx !! cid x = Some n ∧ l ≤ level n).
  { intros x Hx. apply elem_of_take_1 in Hx. rewrite <- HWs, elem_of_sort_desc in Hx.
    destruct (Hs x Hx) as (n & Hn & Hln & _). eauto. }
  set (sel := take (M idx) (w :: Ws')) in *.
  set (ns1 := <[id := set_layer l (cid <$> sel) nn]> (nodes idx)).
  assert (Hsh1 : same_shape (nodes idx) ns1) by (by apply same_shape_set_layer).
  assert (Hok1 : nodes_ok ns1 (M idx) ml).
  { apply nodes_ok_set_layer; [done|done|lia| |].
    - rewrite length_fmap. unfold sel. rewrite length_take. lia.
    - intros j (x & -> & Hx)%list_elem_of_fmap. destruct (Hsel x Hx) as (n & Hn & Hln). eauto. }
  destruct (link_all_spec id l sel touched (set_nodes ns1 idx) ml)
    as (t' & ns' & Hf & Hok' & Hsh' & Ht1 & Ht2 & Hk'); [done| | |].
  { intros x Hx. destruct (Hsel x Hx) as (n & Hn & Hln).
    destruct (same_shape_lookup _ _ _ _ Hsh1 Hn) as (n' & Hn' & Hs'). injection Hs' as _ _ Hlv.
    exists n'. split; [done|lia]. }
  { exists (set_layer l (cid <$> sel) nn). split; [apply lookup_insert_eq|done]. }
  assert (Hw : w ∈ W) by (rewrite <- elem_of_sort_desc, HWs; left).
  destruct (Hs w Hw) as (nw & Hnw & Hlnw & _).
  pose proof (same_shape_trans _ _ _ Hsh1 Hsh') as Hsh.
  destruct (same_shape_lookup _ _ _ _ Hsh Hnw) as (nw' & Hnw' & Hsw).
  injection Hsw as Hidw _ Hlvw.
  unfold connect_layer. exc_unfold. cbn [fst snd]. rewrite HW. cbn [of_option]. rewrite HWs.
  rewrite (alter_Some_insert _ _ _ nn Hnn). fold sel ns1.
  cbn [nodes set_nodes M efConstruction]. exc_unfold_in Hf. rewrite Hf. cbn [nodes set_nodes]. rewrite Hnw'.
  cbn [of_option]. exists nw', t', ns'. split; [done|]. split; [done|]. split; [done|].
  destruct (map_Forall_lookup_1 _ _ _ _ Hok' Hnw') as [Hid' _ _ _ _].
  split; [by rewrite Hid'|]. split; [lia|]. split; [done|].
  rewrite (same_shape_dom _ _ Hsh1). split; [done|].
  intros k Hk. rewrite Hk' by done. cbn [nodes set_nodes]. unfold ns1. rewrite lookup_insert_ne; [done|].
  intros ->. apply Hk, Ht1, Hid.
Qed.

Lemma rev_seq_S_top t : rev (seq 0 (S (S t))) = S t :: rev (seq 0 (S t)).
Proof. by rewrite (seq_S (S t)), rev_app_distr. Qed.

(** The loop [for (let l = t; l >= 0; l--)] of [addPoint] from an entry
    node living on layer [t]: it succeeds, keeps the arena well formed
    and of the same shape, and records every key it changes. *)
Lemma connect_all_spec id q t cur touched idx ml :
  nodes_ok (nodes idx) (M idx) ml → nodes idx !! node_id cur = Some cur → t ≤ level cur →
  (∃ nn, nodes idx !! id = Some nn ∧ t ≤ level nn) → id ∈ touched →
  ∃ cur' touched' ns',
    foldM (connect_layer id q) (cur, touched) (rev (seq 0 (S t))) idx
      = (Ok (cur', touched'), set_nodes ns' idx)
    ∧ nodes_ok ns' (M idx) ml ∧ same_shape (nodes idx) ns'
    ∧ touched ⊆ touched' ∧ touched' ⊆ touched ∪ dom (nodes idx)
    ∧ (∀ k, k ∉ touched' → ns' !! k = nodes idx !! k).
Proof.
  revert cur touched idx. induction t as [|t IH]; intros cur touched idx Hok Hcur Hl Hnn Hid.
  - destruct (connect_layer_spec id q cur touched 0 idx ml)
      as (c' & t' & ns' & Hc & Hok' & Hsh & _ & _ & Ht1 & Ht2 & Hk); [done..|].
    exists c', t', ns'. cbn [rev seq app foldM]. rewrite exc_bind_run, Hc. by split.
  - destruct Hnn as (nn & Hnn & Hlnn).
    destruct (connect_layer_spec id q cur touched (S t) idx ml)
      as (c' & t' & ns' & Hc & Hok' & Hsh & Hc' & Hlc' & Ht1 & Ht2 & Hk); [eauto..|].
    destruct (same_shape_lookup _ _ _ _ Hsh Hnn) as (nn' & Hnn' & Hsnn). injection Hsnn as _ _ Hlv.
    destruct (IH c' t' (set_nodes ns' idx))
      as (c'' & t'' & ns'' & Hf & Hok'' & Hsh' & Ht1' & Ht2' & Hk'); cbn [nodes set_nodes M];
      [done|done|lia|exists nn'; split; [done|lia]|set_solver|].
    exists c'', t'', ns''. rewrite rev_seq_S_top. cbn [foldM]. rewrite exc_bind_run, Hc, Hf.
    cbn [nodes set_nodes] in *. rewrite set_nodes_set_nodes. split; [done|]. split; [done|].
    split; [by eapply same_shape_trans|]. split; [set_solver|].
    rewrite <- (same_shape_dom _ _ Hsh) in Ht2'. split; [set_solver|].
    intros k Hk''. rewrite Hk' by done. apply Hk. set_solver.
Qed.
End InsertLemmas.

(** ** [addPoint] on a well-formed index *)

Section AddPointLemmas.
Context {V Num : Type} `{JsNum Num} `{Similarity V Num} `{Float32Vec V Num}.
Context `{!NumStrictOrder Num}.

Implicit Types (idx : HNSWIndex V Num) (ns : gmap string (Node V)).

(** What a successful [addPoint id vector] guarantees of the index it
    returns: well-formedness, exactly one new key holding the new node,
    every changed record in the touched set, and the parameters kept. *)
Record insert_post idx (id : string) (q : V) (lvl : nat) (touched : gset string) idx' : Prop := {
  ip_wf : wf idx';
  ip_dom : dom (nodes idx') = {[id]} ∪ dom (nodes idx);
  ip_new : ∃ n, nodes idx' !! id = Some n ∧ node_shape n = (id, q, lvl);
  ip_touched_new : id ∈ touched;
  ip_touched_dom : touched ⊆ dom (nodes idx');
  ip_untouched : ∀ k, k ∉ touched → nodes idx' !! k = nodes idx !! k;
  ip_maxLevel : maxLevel idx' = max (maxLevel idx) lvl;
  ip_params : M idx' = M idx ∧ efConstruction idx' = efConstruction idx ∧ efSearch idx' = efSearch idx
              ∧ levelMultiplier idx' = levelMultiplier idx;
  ip_vectors : vector <$> nodes idx' = <[id := q]> (vector <$> nodes idx)
}.

(** The entry point after the connection loop: kept when the new node is
    not above the top layer, moved to the new node otherwise. *)
Lemma wf_keep_entry idx ns' id nn ep :
  wf idx → entryPointId idx = Some ep → nodes idx !! id = None → level nn ≤ maxLevel idx →
  nodes_ok ns' (M idx) (maxLevel idx) → same_shape (<[id := nn]> (nodes idx)) ns' →
  wf (set_nodes ns' idx).
Proof.
  intros [Hok He HefC HefS] Hep Hid Hlv Hok' Hsh. split; [done| |done|done].
  unfold entry_wf in *. cbn [nodes set_nodes entryPointId maxLevel].
  rewrite Hep in *. destruct He as (n & Hn & Hln).
  destruct (same_shape_lookup _ _ ep n Hsh) as (n' & Hn' & [= _ _ Hl']).
  { rewrite lookup_insert_ne; [done|]. intros ->. congruence. }
  exists n'. split; [done|lia].
Qed.

Lemma wf_raise_entry idx ns' id nn :
  wf idx → maxLevel idx < level nn →
  nodes_ok ns' (M idx) (level nn) → same_shape (<[id := nn]> (nodes idx)) ns' →
  wf (set_entry (Some id) (level nn) (set_nodes ns' idx)).
Proof.
  intros [Hok He HefC HefS] Hlv Hok' Hsh. split; [done| |done|done].
  unfold entry_wf. cbn [nodes set_nodes set_entry entryPointId maxLevel].
  destruct (same_shape_lookup _ _ id nn Hsh) as (n' & Hn' & [= _ _ Hl']);
    [apply lookup_insert_eq|].
  by exists n'.
Qed.

(** The first insertion ([entryPointId === null]). *)
Lemma addPoint_first_post idx id q lvl :
  wf idx → entryPointId idx = None →
  insert_post idx id q lvl {[id]}
    (set_entry (Some id) lvl (set_nodes (<[id := mkNode id q lvl (replicate (S lvl) [])]> (nodes idx)) idx)).
Proof.
  intros Hwf Hep. pose proof (wf_entry _ Hwf) as He. unfold entry_wf in He. rewrite Hep in He.
  destruct He as [Hemp Hml]. cbn [nodes set_nodes set_entry maxLevel M efConstruction efSearch].
  rewrite Hemp. split; cbn [nodes set_nodes set_entry maxLevel M efConstruction efSearch]; rewrite ?Hemp.
  - split; cbn [nodes set_nodes set_entry maxLevel M efConstruction efSearch entryPointId];
      [|eexists; split; [apply lookup_insert_eq|done]|apply Hwf|apply Hwf].
    apply nodes_ok_insert_new; [apply map_Forall_empty|done|done].
  - rewrite dom_insert_L. set_solver.
  - eexists. split; [apply lookup_insert_eq|done].
  - set_solver.
  - rewrite dom_insert_L. set_solver.
  - intros k Hk. rewrite lookup_insert_ne; [done|set_solver].
  - lia.
  - done.
  - by rewrite fmap_insert.
Qed.

(** The index after the connection loop and the entry-point update. *)
Lemma addPoint_connect_post idx id nn ep ns' t' :
  wf idx → entryPointId idx = Some ep → nodes idx !! id = None → node_id nn = id →
  nodes_ok ns' (M idx) (max (maxLevel idx) (level nn)) → same_shape (<[id := nn]> (nodes idx)) ns' →
  id ∈ t' → t' ⊆ {[id]} ∪ dom (<[id := nn]> (nodes idx)) →
  (∀ k, k ∉ t' → ns' !! k = <[id := nn]> (nodes idx) !! k) →
  insert_post idx id (vector nn) (level nn) t'
    (if maxLevel idx <? level nn then set_entry (Some id) (level nn) (set_nodes ns' idx)
     else set_nodes ns' idx).
Proof.
  intros Hwf Hep Hid Hnn Hok Hsh Ht Ht' Hk.
  assert (Hwf' : wf (if maxLevel idx <? level nn then set_entry (Some id) (level nn) (set_nodes ns' idx)
                     else set_nodes ns' idx)).
  { destruct (Nat.ltb_spec (maxLevel idx) (level nn)).
    - apply wf_raise_entry; [done|done| |done]. by rewrite Nat.max_r in Hok by lia.
    - eapply wf_keep_entry; [done..| |done]. by rewrite Nat.max_l in Hok by lia. }
  revert Hwf'. set (idx' := if maxLevel idx <? level nn then set_entry (Some id) (level nn) (set_nodes ns' idx)
                            else set_nodes ns' idx).
  assert (Hidx : nodes idx' = ns' ∧ maxLevel idx' = max (maxLevel idx) (level nn) ∧ M idx' = M idx
                 ∧ efConstruction idx' = efConstruction idx ∧ efSearch idx' = efSearch idx
                 ∧ levelMultiplier idx' = levelMultiplier idx).
  { unfold idx'. destruct (Nat.ltb_spec (maxLevel idx) (level nn)); simpl; split_and!; done || lia. }
  destruct Hidx as (Hn & Hml & HM & HefC & HefS & Hlm). intros Hwf'.
  rewrite (same_shape_dom _ _ Hsh) in Ht'.
  destruct (same_shape_lookup _ _ id nn Hsh) as (n' & Hn' & Hs'); [apply lookup_insert_eq|].
  split; rewrite ?Hn; try done.
  - by rewrite <- (same_shape_dom _ _ Hsh), dom_insert_L.
  - exists n'. split; [done|]. rewrite Hs'. unfold node_shape. by rewrite Hnn.
  - apply elem_of_dom_2 in Hn'. set_solver.
  - intros k Hk'. rewrite Hk, lookup_insert_ne; [done|set_solver|done].
  - by rewrite <- (same_shape_vectors _ _ Hsh), fmap_insert.
Qed.

(** [addPoint] of a fresh id on a well-formed index. *)
Lemma addPoint_fresh_post idx id vec coin :
  wf idx → nodes idx !! id = None →
  ∃ touched idx', addPoint id vec coin idx = (Ok touched, idx')
    ∧ insert_post idx id (f32_of_array vec) (getRandomLevel coin) touched idx'.
Proof.
  intros Hwf Hfresh.
  set (lvl := getRandomLevel coin). set (q := f32_of_array vec).
  set (nn := mkNode id q lvl (replicate (S lvl) [])).
  unfold addPoint. exc_unfold. rewrite Hfresh. fold q lvl nn.
  destruct (entryPointId idx) as [ep|] eqn:Hep.
  2: { eexists _, _. split; [reflexivity|]. by apply addPoint_first_post. }
  pose proof (wf_entry _ Hwf) as He. unfold entry_wf in He. rewrite Hep in He.
  destruct He as (ne & Hne & Hlne).
  assert (Hne1 : <[id := nn]> (nodes idx) !! ep = Some ne) by (rewrite lookup_insert_ne; [done|congruence]).
  assert (Hok1 : nodes_ok (<[id := nn]> (nodes idx)) (M idx) (max (maxLevel idx) lvl)).
  { apply nodes_ok_insert_new; [|done|lia]. eapply nodes_ok_mono; [|apply Hwf]. lia. }
  cbn [nodes set_nodes maxLevel]. rewrite Hne1. cbn [of_option].
  destruct (descend_ok (<[id := nn]> (nodes idx)) q (maxLevel idx) lvl ne) as (c & Hc & [kc Hkc] & Hlc);
    [intros; by eapply nodes_ok_layer_ok|by eexists|lia|].
  rewrite Hc. cbn [fst].
  destruct (map_Forall_lookup_1 _ _ _ _ Hok1 Hkc) as [Hidc _ _ _ _].
  destruct (connect_all_spec id q (min lvl (maxLevel idx)) c {[id]} (set_nodes (<[id := nn]> (nodes idx)) idx)
    (max (maxLevel idx) lvl)) as (c' & t' & ns' & Hf & Hok' & Hsh & Ht1 & Ht2 & Hk);
    cbn [nodes set_nodes M]; [done|by rewrite Hidc|lia|exists nn; split; [apply lookup_insert_eq|simpl; lia]|set_solver|].
  exc_unfold_in Hf. unfold connect_layers. rewrite Hf. cbn [nodes set_nodes maxLevel fst snd].
  pose proof (addPoint_connect_post idx id nn ep ns' t' Hwf Hep Hfresh eq_refl Hok' Hsh) as Hpost.
  change (level nn) with lvl in Hpost. change (vector nn) with q in Hpost. rewrite !set_nodes_set_nodes.
  destruct (maxLevel idx <? lvl); (eexists _, _; split; [reflexivity|]); apply Hpost; set_solver.
Qed.
End AddPointLemmas.

Section AddPointTheorems.
Context {V Num : Type} `{JsNum Num} `{Similarity V Num} `{Float32Vec V Num}.
Context `{!NumStrictOrder Num}.

Implicit Types (idx : HNSWIndex V Num).

Lemma addPoint_fresh_det idx id vec coin touched idx' :
  wf idx → nodes idx !! id = None → addPoint id vec coin idx = (Ok touched, idx') →
  insert_post idx id (f32_of_array vec) (getRandomLevel coin) touched idx'.
Proof.
  intros Hwf Hid Hr. destruct (addPoint_fresh_post idx id vec coin Hwf Hid) as (t & i & Hr' & Hp).
  rewrite Hr in Hr'. by simplify_eq.
Qed.

(** C1: [addPoint] of a fresh id on a well-formed index returns normally
    and leaves a well-formed index: every neighbour list holds at most
    [M] ids of nodes living on its layer, and the entry point is a node
    of the top level [maxLevel]. *)
Theorem addPoint_wf idx id vec coin :
  wf idx → nodes idx !! id = None →
  ∃ touched idx', addPoint id vec coin idx = (Ok touched, idx') ∧ wf idx'.
Proof.
  intros Hwf Hid. destruct (addPoint_fresh_post idx id vec coin Hwf Hid) as (t & i & Hr & Hp).
  exists t, i. split; [done|]. apply Hp.
Qed.

(** C2: the set returned by [addPoint] (which index.ts persists) names
    the new node and nodes of the index only, and every node whose
    record [addPoint] changed is in it. *)
Theorem addPoint_touched_complete idx id vec coin touched idx' :
  wf idx → nodes idx !! id = None → addPoint id vec coin idx = (Ok touched, idx') →
  id ∈ touched ∧ touched ⊆ dom (nodes idx') ∧
  ∀ k, k ∉ touched → nodes idx' !! k = nodes idx !! k.
Proof.
  intros Hwf Hid Hr. destruct (addPoint_fresh_det idx id vec coin touched idx' Hwf Hid Hr).
  split_and!; done.
Qed.

(** C6: [addPoint] adds exactly one node, under the new id, holding the
    [Float32Array] of the vector at the drawn level, and raises
    [maxLevel] to that level when it is higher. *)
Theorem addPoint_adds_node idx id vec coin touched idx' :
  wf idx → nodes idx !! id = None → addPoint id vec coin idx = (Ok touched, idx') →
  dom (nodes idx') = {[id]} ∪ dom (nodes idx) ∧
  (∃ n, nodes idx' !! id = Some n ∧ node_id n = id ∧ vector n = f32_of_array vec
        ∧ level n = getRandomLevel coin) ∧
  maxLevel idx' = max (maxLevel idx) (getRandomLevel coin).
Proof.
  intros Hwf Hid Hr. destruct (addPoint_fresh_det idx id vec coin touched idx' Hwf Hid Hr)
    as [_ Hdom (n & Hn & Hs) _ _ _ Hml _].
  injection Hs as Hi Hv Hl. split; [done|]. split; [by exists n|done].
Qed.

(** C7: [addPoint] of an id already in the index throws the duplicate
    error before any mutation. *)
Theorem addPoint_duplicate idx id vec coin :
  is_Some (nodes idx !! id) → addPoint id vec coin idx = (Throw (DuplicateId id), idx).
Proof. intros [n Hn]. unfold addPoint. exc_unfold. by rewrite Hn. Qed.

(** C8: after [addPoint] of a fresh id on a well-formed index, [search]
    for any query returns normally, and returns at least one result
    when [k >= 1]. *)
Theorem addPoint_then_search idx id vec coin query k :
  wf idx → nodes idx !! id = None →
  ∃ touched idx' W, addPoint id vec coin idx = (Ok touched, idx') ∧
    search idx' query k = Ok W ∧ (1 ≤ k → W ≠ []).
Proof.
  intros Hwf Hid. destruct (addPoint_fresh_post idx id vec coin Hwf Hid) as (t & i & Hr & Hp).
  destruct (search_spec i query k (ip_wf _ _ _ _ _ _ Hp)) as (W & HW & _ & _ & _ & _ & Hne).
  exists t, i, W. split_and!; [done|done|]. intros Hk. apply Hne; [|done].
  destruct (ip_new _ _ _ _ _ _ Hp) as (n & Hn & _). intros He. by rewrite He in Hn.
Qed.

(** The quantified invariants of the specification hold after every
    [addPoint] of a fresh id on a well-formed index: every neighbour list
    has at most [M] ids, and the entry point is a node whose level is at
    least the level of every node. *)
Theorem addPoint_spec_invariants idx id vec coin touched idx' :
  wf idx → nodes idx !! id = None → addPoint id vec coin idx = (Ok touched, idx') →
  (∀ k n l ids, nodes idx' !! k = Some n → neighbors n !! l = Some ids → length ids ≤ M idx') ∧
  (∀ k n, nodes idx' !! k = Some n →
     ∃ e ne, entryPointId idx' = Some e ∧ nodes idx' !! e = Some ne ∧ level n ≤ level ne).
Proof.
  intros Hwf Hid Hr. destruct (addPoint_fresh_det idx id vec coin touched idx' Hwf Hid Hr) as [[Hok He _ _] _ _ _ _ _ _ _].
  split.
  - intros k n l ids Hk Hl. by eapply (nwf_degree _ _ _ _ _ (map_Forall_lookup_1 _ _ _ _ Hok Hk)).
  - intros k n Hk. unfold entry_wf in He. destruct (entryPointId idx') as [e|].
    + destruct He as (ne & Hne & Hlv). exists e, ne. split_and!; [done|done|].
      rewrite Hlv. apply (nwf_level _ _ _ _ _ (map_Forall_lookup_1 _ _ _ _ Hok Hk)).
    + destruct He as [Hemp _]. by rewrite Hemp in Hk.
Qed.
End AddPointTheorems.

(** ** Witnesses on the sample graph

    Inserting [d = (1, 2)] at level 0 into [sample_graph]: [d] is linked
    to [c] and [b] on layer 0, and [c]'s layer-0 list [a; b; d] is pruned
    back to [M = 2] ids, [d; a]. *)

Definition sample_insert : res (gset string) * HNSWIndex (list Z) Z :=
  addPoint "d" [1;2]%Z (λ _, false) sample_graph.

(** The run above, evaluated. *)
Lemma sample_insert_run :
  addPoint "d" [1;2]%Z (λ _, false) sample_graph = (Ok {["c"; "b"; "d"]}, sample_insert.2).
Proof. vm_compute. reflexivity. Qed.

Lemma addPoint_wf_witness :
  ∃ touched idx', addPoint "d" [1;2]%Z (λ _, false) sample_graph = (Ok touched, idx') ∧ wf idx'.
Proof.
  apply addPoint_wf; [apply wf_check_sound|]; vm_compute; reflexivity.
Defined.

Lemma addPoint_touched_complete_witness :
  "d" ∈ ({["c"; "b"; "d"]} : gset string) ∧
  ({["c"; "b"; "d"]} : gset string) ⊆ dom (nodes sample_insert.2) ∧
  ∀ k, k ∉ ({["c"; "b"; "d"]} : gset string) → nodes sample_insert.2 !! k = nodes sample_graph !! k.
Proof.
  apply (addPoint_touched_complete sample_graph "d" [1;2]%Z (λ _, false));
    [apply wf_check_sound; vm_compute; reflexivity|vm_compute; reflexivity|].
  exact sample_insert_run.
Defined.

Lemma addPoint_adds_node_witness :
  dom (nodes sample_insert.2) = {["d"]} ∪ dom (nodes sample_graph) ∧
  (∃ n, nodes sample_insert.2 !! "d" = Some n ∧ node_id n = "d" ∧ vector n = f32_of_array [1;2]%Z
        ∧ level n = getRandomLevel (λ _, false)) ∧
  maxLevel sample_insert.2 = max (maxLevel sample_graph) (getRandomLevel (λ _, false)).
Proof.
  apply (addPoint_adds_node sample_graph "d" [1;2]%Z (λ _, false) {["c"; "b"; "d"]});
    [apply wf_check_sound; vm_compute; reflexivity|vm_compute; reflexivity|].
  exact sample_insert_run.
Defined.

Lemma addPoint_duplicate_witness :
  addPoint "a" [1;2]%Z (λ _, false) sample_graph = (Throw (DuplicateId "a"), sample_graph).
Proof.
  apply addPoint_duplicate. apply (bool_decide_eq_true_1 _). vm_compute. reflexivity.
Defined.

Lemma addPoint_then_search_witness :
  ∃ touched idx' W, addPoint "d" [1;2]%Z (λ _, false) sample_graph = (Ok touched, idx') ∧
    search idx' [0;1]%Z 1 = Ok W ∧ (1 ≤ 1 → W ≠ []).
Proof.
  apply addPoint_then_search; [apply wf_check_sound|]; vm_compute; reflexivity.
Defined.

Lemma addPoint_spec_invariants_witness :
  (∀ k n l ids, nodes sample_insert.2 !! k = Some n → neighbors n !! l = Some ids →
     length ids ≤ M sample_insert.2) ∧
  (∀ k n, nodes sample_insert.2 !! k = Some n →
     ∃ e ne, entryPointId sample_insert.2 = Some e ∧ nodes sample_insert.2 !! e = Some ne ∧ level n ≤ level ne).
Proof.
  apply (addPoint_spec_invariants sample_graph "d" [1;2]%Z (λ _, false) {["c"; "b"; "d"]});
    [apply wf_check_sound; vm_compute; reflexivity|vm_compute; reflexivity|].
  exact sample_insert_run.
Defined.
