(* ===== verification/HnswSpec.v ===== *)
(** * The HNSW index against its abstract specification

    What [HNSWIndex] promises its client (index.ts) is the behaviour of a
    finite map from ids to vectors: [addPoint] adds a point or raises the
    duplicate-id error, and [search] answers with up to [k] stored points
    in descending order of exact similarity.  [spec_add] and
    [spec_search] state this on the abstract state [gmap string V];
    [abs] maps an index to it (the vector of every node); [refines]
    relates a well-formed index to its abstraction.  The theorems show
    that [addPoint] simulates [spec_add] ([exc_sim] of Prelude.v, a
    forward simulation that also matches the errors) and that [search]
    meets [spec_search]. *)

From S2P Require Import Prelude VectorMath HnswCore HnswSearch HnswInsert.

Section Spec.
Context {V Num : Type} `{JsNum Num} `{Similarity V Num} `{Float32Vec V Num}.

Implicit Types (idx : HNSWIndex V Num) (A : gmap string V).

(** The abstract state: the stored points. *)
Definition abs idx : gmap string V := vector <$> nodes idx.

Definition refines idx A : Prop := wf idx ∧ abs idx = A.

(** Adding a point: the duplicate-id error, or the map with the point. *)
Definition spec_add (id : string) (q : V) : exc (gmap string V) unit :=
  A ← exc_get;
  match A !! id with
  | Some _ => lift! (Throw (DuplicateId id))
  | None => exc_put (<[id := q]> A)
  end.

(** What an answer to a top-[k] query [q] on the points [A] is. *)
Record spec_search A (q : V) (k : nat) (W : list (Scored Num)) : Prop := {
  ss_length : length W ≤ k;
  ss_nodup : NoDup (cid <$> W);
  ss_sorted : Sorted desc W;
  ss_exact : ∀ w, w ∈ W → ∃ v, A !! cid w = Some v ∧ score w = sim q v;
  ss_nonempty : A ≠ ∅ → 1 ≤ k → W ≠ []
}.
End Spec.

Section Refinement.
Context {V Num : Type} `{JsNum Num} `{Similarity V Num} `{Float32Vec V Num}.
Context `{!NumStrictOrder Num}.

Implicit Types (idx : HNSWIndex V Num) (A : gmap string V).

Lemma abs_lookup idx id : abs idx !! id = vector <$> nodes idx !! id.
Proof. apply lookup_fmap. Qed.

Lemma abs_empty idx : abs idx = ∅ ↔ nodes idx = ∅.
Proof. apply fmap_empty_iff. Qed.

(** [addPoint] simulates [spec_add]. *)
Lemma addPoint_sim id vec coin :
  exc_sim refines (λ _ _, True) (addPoint id vec coin) (spec_add id (f32_of_array vec)).
Proof.
  intros idx A [Hwf <-]. unfold spec_add. exc_unfold. rewrite abs_lookup.
  destruct (nodes idx !! id) as [n|] eqn:Hn; cbn.
  - unfold addPoint. exc_unfold. rewrite Hn. done.
  - destruct (addPoint_fresh_post idx id vec coin Hwf Hn) as (t & idx' & Hr & Hp).
    rewrite Hr. cbn. split; [|done]. split; [apply Hp|apply (ip_vectors _ _ _ _ _ _ Hp)].
Qed.

(** C25: [addPoint] refines [spec_add].  On a well-formed index whose
    points are [A], it raises the duplicate-id error, leaving the index
    as it was, exactly when [A] has the id; otherwise it returns normally
    with a well-formed index whose points are [A] plus the new point (as
    a [Float32Array]). *)
Theorem addPoint_refines idx A id vec coin :
  refines idx A →
  (is_Some (A !! id) → addPoint id vec coin idx = (Throw (DuplicateId id), idx)) ∧
  (A !! id = None → ∃ t idx', addPoint id vec coin idx = (Ok t, idx') ∧
                              refines idx' (<[id := f32_of_array vec]> A)).
Proof.
  intros Hr. split.
  - intros Hid. destruct Hr as [_ <-]. rewrite abs_lookup in Hid.
    destruct (nodes idx !! id) eqn:Hn; [|by destruct Hid]. unfold addPoint. exc_unfold. by rewrite Hn.
  - intros Hid. destruct (addPoint_sim id vec coin idx A Hr) as [Hr' Hres].
    unfold spec_add in *. exc_unfold_in Hres. exc_unfold_in Hr'. rewrite Hid in Hr', Hres. cbn in *.
    destruct (addPoint id vec coin idx) as [[t|e] idx']; cbn in *; [by eauto|done].
Qed.

(** C26: [search] meets [spec_search] on the abstraction: on a
    well-formed index it returns normally, with at most [k] distinct
    stored points, best first, each scored with its exact similarity to
    the query, and at least one when there are points and [k >= 1]. *)
Theorem search_refines idx A query k :
  refines idx A → ∃ W, search idx query k = Ok W ∧ spec_search A (f32_of_array query) k W.
Proof.
  intros [Hwf <-]. destruct (search_spec idx query k Hwf) as (W & HW & Hk & Hnd & Hs & Hsc & Hne).
  exists W. split; [done|]. split; [done|done|done| |].
  - intros w Hw. destruct (Hsc w Hw) as (n & Hn & _ & Hscore). exists (vector n).
    by rewrite abs_lookup, Hn.
  - intros HA. apply Hne. by rewrite <- abs_empty.
Qed.
End Refinement.

(** ** Witnesses, on [sample_graph] *)

Lemma sample_refines : refines sample_graph (abs sample_graph).
Proof. split; [apply wf_check_sound; vm_compute; reflexivity|reflexivity]. Qed.

Lemma addPoint_refines_witness :
  refines sample_graph (abs sample_graph) ∧
  (is_Some (abs sample_graph !! "d") →
     addPoint "d" [1;2]%Z (λ _, false) sample_graph = (Throw (DuplicateId "d"), sample_graph)) ∧
  (abs sample_graph !! "d" = None → ∃ t idx', addPoint "d" [1;2]%Z (λ _, false) sample_graph = (Ok t, idx') ∧
     refines idx' (<[("d" : string) := f32_of_array [1;2]%Z]> (abs sample_graph))).
Proof.
  split; [exact sample_refines|]. apply addPoint_refines. exact sample_refines.
Defined.

Lemma search_refines_witness :
  refines sample_graph (abs sample_graph) ∧
  ∃ W, search sample_graph [0;1]%Z 2 = Ok W ∧ spec_search (abs sample_graph) (f32_of_array [0;1]%Z) 2 W.
Proof.
  split; [exact sample_refines|]. apply search_refines. exact sample_refines.
Defined.
