(* ===== verification/HnswJson.v ===== *)
(** * HNSW serialization: [toJSON] and [fromJSON]

    hnsw.ts's [toJSON()] and [static fromJSON(json)].  The JSON object is
    a record whose [nodes] field is a list of node records; the metadata
    part is a record of its own because index.ts stores it apart from the
    nodes ([const { nodes, ...meta } = json]).  A vector is written as the
    plain array [Array.from(node.vector)] and read back with
    [new Float32Array(nodeData.vector)].

    The [Map]'s iteration order is the order of the [gmap]'s keys in
    [map_to_list]: a JavaScript [Map] iterates in insertion order, and
    [fromJSON] inserts in array order, so in both the order of
    [toJSON (fromJSON j)] is the order of [j] when its ids are distinct.

    The theorems show that [fromJSON] inverts [toJSON] on a well-formed
    index whose parameters survive the constructor's [||] defaults, hence
    the specification's law [toJSON ∘ fromJSON ∘ toJSON = toJSON] and the
    equality of every search on the reloaded index. *)

From S2P Require Import Prelude VectorMath HnswCore HnswSearch.

Record NodeJSON (S : Type) := mkNodeJSON {
  nj_id : string;
  nj_vector : list S;
  nj_level : nat;
  nj_neighbors : list (list string)
}.
Arguments mkNodeJSON {S}.
Arguments nj_id {S}.
Arguments nj_vector {S}.
Arguments nj_level {S}.
Arguments nj_neighbors {S}.

(** The top-level fields of [toJSON()] other than [nodes]. *)
Record IndexMeta (S : Type) := mkIndexMeta {
  im_M : nat;
  im_efConstruction : nat;
  im_efSearch : nat;
  im_levelMultiplier : LevelMultiplier S;
  im_maxLevel : nat;
  im_entryPointId : option string
}.
Arguments mkIndexMeta {S}.
Arguments im_M {S}.
Arguments im_efConstruction {S}.
Arguments im_efSearch {S}.
Arguments im_levelMultiplier {S}.
Arguments im_maxLevel {S}.
Arguments im_entryPointId {S}.

Record IndexJSON (S : Type) := mkIndexJSON {
  ij_meta : IndexMeta S;
  ij_nodes : list (NodeJSON S)
}.
Arguments mkIndexJSON {S}.
Arguments ij_meta {S}.
Arguments ij_nodes {S}.

Section Json.
Context {V Num : Type} `{JsNum Num} `{Float32Vec V Num}.

Implicit Types (idx : HNSWIndex V Num).

(** [{ id, vector: Array.from(node.vector), level: node.level,
       neighbors: node.neighbors }] for the entry [[id, node]]. *)
Definition node_toJSON (id : string) (n : Node V) : NodeJSON Num :=
  mkNodeJSON id (f32_to_array (vector n)) (level n) (neighbors n).

Definition meta_of idx : IndexMeta Num :=
  mkIndexMeta (M idx) (efConstruction idx) (efSearch idx) (levelMultiplier idx)
    (maxLevel idx) (entryPointId idx).

(** [toJSON()]. *)
Definition toJSON idx : IndexJSON Num :=
  mkIndexJSON (meta_of idx) ((λ p : string * Node V, node_toJSON p.1 p.2) <$> map_to_list (nodes idx)).

(** The node object [fromJSON] stores for [nodeData]. *)
Definition node_fromJSON (nd : NodeJSON Num) : Node V :=
  mkNode (nj_id nd) (f32_of_array (nj_vector nd)) (nj_level nd) (nj_neighbors nd).

(** [index.nodes.set(nodeData.id, {...})]. *)
Definition load_node idx (nd : NodeJSON Num) : HNSWIndex V Num :=
  set_nodes (<[nj_id nd := node_fromJSON nd]> (nodes idx)) idx.

(** [fromJSON(json)]: the constructor on the stored parameters, then
    [maxLevel] and [entryPointId] as stored, then every node in order. *)
Definition fromJSON (j : IndexJSON Num) : HNSWIndex V Num :=
  let m := ij_meta j in
  let index : HNSWIndex V Num :=
    HNSWIndex_new (mkConfig (Some (im_M m)) (Some (im_efConstruction m)) (Some (im_efSearch m))
                            (Some (im_levelMultiplier m))) in
  foldl load_node (set_entry (im_entryPointId m) (im_maxLevel m) index) (ij_nodes j).

(** The parameters the constructor keeps as given: [M] and the level
    multiplier are truthy.  [efConstruction] and [efSearch] are positive
    in every well-formed index. *)
Definition params_ok idx : Prop := 1 ≤ M idx ∧ lm_truthy (levelMultiplier idx) = true.
End Json.

Section JsonLemmas.
Context {V Num : Type} `{JsNum Num} `{Float32Vec V Num} `{!Float32VecLaws V Num}.

Implicit Types (idx : HNSWIndex V Num).

Lemma foldl_load_node idx l :
  foldl load_node idx l =
    set_nodes (list_to_map ((λ nd, (nj_id nd, node_fromJSON nd)) <$> reverse l) ∪ nodes idx) idx.
Proof.
  revert idx. induction l as [|nd l IH]; intros idx; simpl.
  - by rewrite map_empty_union, set_nodes_id.
  - rewrite IH. unfold load_node. cbn [nodes set_nodes].
    rewrite reverse_cons, fmap_app, list_to_map_app. simpl.
    rewrite insert_union_singleton_l, map_union_assoc. by rewrite insert_empty.
Qed.

Lemma fmap_id_on {A} (f : A → A) (l : list A) : (∀ x, x ∈ l → f x = x) → f <$> l = l.
Proof.
  induction l as [|x l IH]; intros Hf; [done|]. simpl.
  rewrite Hf by left. f_equal. apply IH. intros y Hy. apply Hf. by right.
Qed.

(** [fromJSON] inverts [toJSON] on a well-formed index. *)
Lemma fromJSON_toJSON_eq idx : wf idx → params_ok idx → fromJSON (toJSON idx) = idx.
Proof.
  intros Hwf [HM Hlm]. unfold fromJSON, toJSON. cbn [ij_meta ij_nodes meta_of].
  rewrite foldl_load_node. cbn [nodes set_nodes set_entry HNSWIndex_new].
  rewrite map_union_empty, <- fmap_reverse, <- list_fmap_compose.
  rewrite (fmap_id_on (_ ∘ _)).
  - rewrite (list_to_map_proper (reverse (map_to_list (nodes idx))) (map_to_list (nodes idx))).
    + rewrite list_to_map_to_list. destruct idx as [ns ep m efc efs lm ml].
      cbn in *. unfold js_or_nat. destruct Hwf as [_ _ Hc Hs]. cbn in *.
      destruct m, efc, efs; try lia. unfold set_nodes, set_entry, HNSWIndex_new. simpl. by rewrite Hlm.
    + rewrite fmap_reverse, reverse_Permutation. apply NoDup_fst_map_to_list.
    + apply reverse_Permutation.
  - intros [k n] Hkn%elem_of_reverse%elem_of_map_to_list. cbn.
    unfold node_fromJSON, node_toJSON. cbn. rewrite f32_of_to_array.
    rewrite <- (wf_node_id idx k n Hwf Hkn). by destruct n.
Qed.
End JsonLemmas.

Section JsonTheorems.
Context {V Num : Type} `{JsNum Num} `{Similarity V Num} `{Float32Vec V Num} `{!Float32VecLaws V Num}.

(** C10: saving a well-formed index with [toJSON] and loading it back
    with [fromJSON] gives the same index: the specification's law
    [toJSON ∘ fromJSON ∘ toJSON = toJSON] holds, and every search on the
    reloaded index returns what it returns on the saved one. *)
Theorem toJSON_roundtrip (idx : HNSWIndex V Num) :
  wf idx → params_ok idx →
  fromJSON (toJSON idx) = idx ∧ toJSON (fromJSON (toJSON idx)) = toJSON idx ∧
  ∀ query k, search (fromJSON (toJSON idx)) query k = search idx query k.
Proof. intros Hwf Hp. rewrite fromJSON_toJSON_eq by done. done. Qed.
End JsonTheorems.

Lemma toJSON_roundtrip_witness :
  fromJSON (toJSON sample_graph) = sample_graph ∧
  toJSON (fromJSON (toJSON sample_graph)) = toJSON sample_graph ∧
  ∀ query k, search (fromJSON (toJSON sample_graph)) query k = search sample_graph query k.
Proof.
  apply toJSON_roundtrip; [apply wf_check_sound; vm_compute; reflexivity|split; [simpl; lia|reflexivity]].
Defined.
