(* ===== verification/Store.v ===== *)
(** * The IndexedDB store: [VectorStore]

    db.ts's [VectorStore] over the database of three object stores:
    [documents] (key path [id]), [meta] (one record under the key
    ['hnsw-meta']) and [hnsw_nodes] (key path [id]).  An object store is a
    [gmap] from its keys to its records; [put] is an insert, [clear]
    empties it, [getAll] lists its records in key order.  Each method is
    an atomic update of the database (the writes of one transaction,
    [addMany] and [saveNodes], are applied together), except [clear] and
    [clearIndex], which await one [db.clear] per store in turn.  Writes do not fail
    in the model (quota and I/O errors are not modelled).

    [openDB]'s upgrade callback creates missing stores; a fresh database
    is [db_empty]. *)

From S2P Require Import Prelude VectorMath HnswCore HnswJson.

(** [VectorDocument]; [metadata] is a [Record<string, any>] the library
    stores and returns without reading it, of an abstract type [Md]. *)
Record VectorDocument (Md S : Type) := mkDoc {
  doc_id : string;
  text : string;
  metadata : Md;
  embedding : option (list S);
  createdAt : Z
}.
Arguments mkDoc {Md S}.
Arguments doc_id {Md S}.
Arguments text {Md S}.
Arguments metadata {Md S}.
Arguments embedding {Md S}.
Arguments createdAt {Md S}.

Record DB (Md S : Type) := mkDB {
  documents : gmap string (VectorDocument Md S);
  meta : option (IndexMeta S);
  hnsw_nodes : gmap string (NodeJSON S)
}.
Arguments mkDB {Md S}.
Arguments documents {Md S}.
Arguments meta {Md S}.
Arguments hnsw_nodes {Md S}.

Section Store.
Context {Md S : Type}.

Implicit Types (db : DB Md S) (doc : VectorDocument Md S).

Definition db_empty : DB Md S := mkDB ∅ None ∅.

Definition set_documents (ds : gmap string (VectorDocument Md S)) db : DB Md S :=
  mkDB ds (meta db) (hnsw_nodes db).

Definition set_meta (m : option (IndexMeta S)) db : DB Md S :=
  mkDB (documents db) m (hnsw_nodes db).

Definition set_hnsw_nodes (ns : gmap string (NodeJSON S)) db : DB Md S :=
  mkDB (documents db) (meta db) ns.

(** [add(doc)]: [db.put('documents', doc)]. *)
Definition add doc db : DB Md S := set_documents (<[doc_id doc := doc]> (documents db)) db.

(** [addMany(docs)]: one transaction putting every document in order. *)
Definition addMany (docs : list (VectorDocument Md S)) db : DB Md S :=
  foldl (λ db doc, add doc db) db docs.

(** [saveNodes(nodes)]: one transaction putting every node record; the
    chunks of 500 only pace the requests. *)
Definition saveNodes (nds : list (NodeJSON S)) db : DB Md S :=
  set_hnsw_nodes (foldl (λ m nd, <[nj_id nd := nd]> m) (hnsw_nodes db) nds) db.

(** [getAllNodes()]: the node records in key order. *)
Definition getAllNodes db : list (NodeJSON S) := (map_to_list (hnsw_nodes db)).*2.

(** [get(id)], [getMany(ids)], [getAll()]. *)
Definition get db (id : string) : option (VectorDocument Md S) := documents db !! id.

Definition getMany db (ids : list string) : list (option (VectorDocument Md S)) := get db <$> ids.

Definition getAll db : list (VectorDocument Md S) := (map_to_list (documents db)).*2.

(** [delete(id)]. *)
Definition delete db (id : string) : DB Md S := set_documents (base.delete id (documents db)) db.

(** [db.clear(store)] on each store, and [clear()] and [clearIndex()]
    as the sequences of them the source awaits one after the other. *)
Definition clear_documents db : DB Md S := set_documents ∅ db.
Definition clear_meta db : DB Md S := set_meta None db.
Definition clear_nodes db : DB Md S := set_hnsw_nodes ∅ db.

Definition clear db : DB Md S := clear_nodes (clear_meta (clear_documents db)).

Definition clearIndex db : DB Md S := clear_nodes (clear_meta db).

(** [saveIndexMeta(data)] and [loadIndexMeta()]. *)
Definition saveIndexMeta (m : IndexMeta S) db : DB Md S := set_meta (Some m) db.

Definition loadIndexMeta db : option (IndexMeta S) := meta db.
End Store.
