(* ===== verification/Embedders.v ===== *)
(** * The embedders

    openai-embedder.ts: [OpenAIEmbedder] builds one [POST
    {endpoint}/embeddings] request per batch and reads the answer's
    [data.data.map(item => item.embedding)].  [fetch] (the network) and
    [JSON.stringify] are library calls, parameters here; a response is
    its [ok] flag, its [status] and the outcome of [response.json()].
    JSON values are the inductive [JSON]; a property read [x.k] is
    [js_get], which raises the [TypeError] of a read on [null] and gives
    [undefined] ([None]) for a missing key.

    lib/transformers-embedder.ts: [TransformersEmbedder] loads its
    pipeline lazily in [init()] ([if (!this.pipe) this.pipe = await
    pipeline(...)]).  Overlapping calls of [embed]/[embedBatch] run
    their [init] concurrently, so [init] is a small state machine: each
    call is a thread that checks [this.pipe] and, if it is [null], starts
    a load and awaits it ([te_step]).  The pipeline itself (model
    inference) is not modelled: [pipeline] is a parameter and [loads]
    counts its calls. *)

From S2P Require Import Prelude.
From stdpp Require Import pretty.

(** ** OpenAIEmbedder *)

Inductive JSON (N : Type) :=
  | JNull
  | JBool (b : bool)
  | JNum (n : N)
  | JStr (s : string)
  | JArr (items : list (JSON N))
  | JObj (fields : list (string * JSON N)).
Arguments JNull {N}.
Arguments JBool {N}.
Arguments JNum {N}.
Arguments JStr {N}.
Arguments JArr {N}.
Arguments JObj {N}.

(** The value of field [k] of a parsed object: [JSON.parse] keeps the
    last of duplicate keys. *)
Definition js_field {N} (kvs : list (string * JSON N)) (k : string) : option (JSON N) :=
  (λ p, p.2.2) <$> list_find (λ kv, kv.1 = k) (reverse kvs).

(** The TypeScript types of JSON data: an object type lists the fields
    it requires (structural typing: more fields are allowed). *)
Inductive JType :=
  | TNumber
  | TString
  | TBoolean
  | TNull
  | TArray (t : JType)
  | TObject (fields : list (string * JType)).

(** [j : t], executable. *)
Fixpoint has_type {N} (j : JSON N) (t : JType) {struct t} : bool :=
  match t, j with
  | TNumber, JNum _ => true
  | TString, JStr _ => true
  | TBoolean, JBool _ => true
  | TNull, JNull => true
  | TArray t', JArr items => forallb (λ x, has_type x t') items
  | TObject fs, JObj kvs =>
      forallb (λ kt, match js_field kvs kt.1 with Some v => has_type v kt.2 | None => false end) fs
  | _, _ => false
  end.

(** The documented answer of the embeddings endpoint,
    [{ data: { embedding: number[] }[] }], and the declared result of
    [embed], [number[]]. *)
Definition response_type : JType := TObject [("data", TArray (TObject [("embedding", TArray TNumber)]))].
Definition vector_type : JType := TArray TNumber.

(** [OpenAIConfig]: [endpoint] and [modelName] are optional. *)
Record OpenAIConfig := mkOpenAIConfig {
  cfg_apiKey : string;
  cfg_endpoint : option string;
  cfg_modelName : option string
}.

Record OpenAIEmbedder := mkOpenAIEmbedder {
  apiKey : string;
  endpoint : string;
  modelName : string
}.

(** The [fetch] request: url, method, headers and the JSON body. *)
Record Request (N : Type) := mkRequest {
  req_url : string;
  req_method : string;
  req_headers : list (string * string);
  req_body : JSON N
}.
Arguments mkRequest {N}.
Arguments req_url {N}.
Arguments req_method {N}.
Arguments req_headers {N}.
Arguments req_body {N}.

(** A [Response]: [ok], [status], and what [response.json()] gives. *)
Record Response (N : Type) := mkResponse {
  resp_ok : bool;
  resp_status : Z;
  resp_json : res (JSON N)
}.
Arguments mkResponse {N}.
Arguments resp_ok {N}.
Arguments resp_status {N}.
Arguments resp_json {N}.

(** [config.x || default]: an absent or empty string takes the default. *)
Definition or_default (o : option string) (d : string) : string :=
  match o with Some s => if bool_decide (s = "") then d else s | None => d end.

Definition OpenAIEmbedder_new (c : OpenAIConfig) : OpenAIEmbedder :=
  mkOpenAIEmbedder (cfg_apiKey c) (or_default (cfg_endpoint c) "https://api.openai.com/v1")
    (or_default (cfg_modelName c) "text-embedding-3-small").

Section OpenAI.
Context {N : Type}.
Context (fetch : Request N → res (Response N)) (stringify : JSON N → string).

(** The request of [embedBatch(texts)]. *)
Definition request (e : OpenAIEmbedder) (texts : list string) : Request N :=
  mkRequest (endpoint e ++ "/embeddings")%string "POST"
    [("Content-Type", "application/json"); ("Authorization", ("Bearer " ++ apiKey e)%string)]
    (JObj [("input", JArr (JStr <$> texts)); ("model", JStr (modelName e))]).

(** [x[k]] on a parsed JSON value. *)
Definition js_get (j : JSON N) (k : string) : res (option (JSON N)) :=
  match j with
  | JNull => Throw (TypeError ("Cannot read properties of null (reading '" ++ k ++ "')")%string)
  | JObj kvs => Ok (js_field kvs k)
  | _ => Ok None
  end.

(** [embedBatch(texts)]: each result is [item.embedding], [undefined]
    ([None]) when the item has none. *)
Definition embedBatch (e : OpenAIEmbedder) (texts : list string) : res (list (option (JSON N))) :=
  response ← fetch (request e texts);
  if resp_ok response then
    data ← resp_json response;
    d ← js_get data "data";
    match d with
    | Some (JArr items) => mapM_res (λ item, js_get item "embedding") items
    | _ => Throw (TypeError "data.data.map is not a function")
    end
  else
    error ← resp_json response;
    Throw (JsError ("OpenAI API Error: " ++ pretty (resp_status response) ++ " - " ++ stringify error)%string).

(** [embed(text)]: [embeddings[0]] of the batch [[text]]. *)
Definition embed (e : OpenAIEmbedder) (text : string) : res (option (JSON N)) :=
  embeddings ← embedBatch e [text];
  Ok (mjoin (embeddings !! 0)).
End OpenAI.

(** ** TransformersEmbedder *)

Record TransformersEmbedder (P : Type) := mkTE {
  te_pipe : option P;
  te_modelName : string;
  te_device : string;
  te_wasmPaths : option string
}.
Arguments mkTE {P}.
Arguments te_pipe {P}.
Arguments te_modelName {P}.
Arguments te_device {P}.
Arguments te_wasmPaths {P}.

(** The constructor's default parameters replace [undefined] only. *)
Definition TransformersEmbedder_new {P} (modelName device wasmPaths : option string) : TransformersEmbedder P :=
  mkTE None (default "Xenova/paraphrase-multilingual-MiniLM-L12-v2" modelName) (default "wasm" device) wasmPaths.

(** Where a call of [init()] is: before [if (!this.pipe)], suspended on
    [await pipeline(...)], or returned. *)
Inductive InitPC := IP_Check | IP_Loading | IP_Done.

#[export] Instance InitPC_eq_dec : EqDecision InitPC.
Proof. solve_decision. Defined.

(** The embedder, the global [env.backends.onnx] wasm paths, the number
    of [pipeline(...)] calls made, and the calls of [init] in flight. *)
Record TEWorld (P : Type) := mkTEWorld {
  tw_te : TransformersEmbedder P;
  tw_onnx : option string;
  tw_loads : nat;
  tw_calls : list InitPC
}.
Arguments mkTEWorld {P}.
Arguments tw_te {P}.
Arguments tw_onnx {P}.
Arguments tw_loads {P}.
Arguments tw_calls {P}.

Section Transformers.
Context {P : Type} (pipeline : string → string → P).
Implicit Types (w : TEWorld P).

Definition set_call (i : nat) (pc : InitPC) w : TEWorld P :=
  mkTEWorld (tw_te w) (tw_onnx w) (tw_loads w) (<[i := pc]> (tw_calls w)).

(** A call of [embed] or [embedBatch] starts its [await this.init()]. *)
Definition init_call w : TEWorld P :=
  mkTEWorld (tw_te w) (tw_onnx w) (tw_loads w) (tw_calls w ++ [IP_Check]).

(** Call [i] runs [init] up to its [await]: nothing to do when the
    pipeline is there; otherwise set the wasm paths and start a load. *)
Definition init_check (i : nat) w : TEWorld P :=
  match te_pipe (tw_te w) with
  | Some _ => set_call i IP_Done w
  | None =>
      let onnx := match te_wasmPaths (tw_te w) with Some p => Some p | None => tw_onnx w end in
      mkTEWorld (tw_te w) onnx (S (tw_loads w)) (<[i := IP_Loading]> (tw_calls w))
  end.

(** The load of call [i] completes: [this.pipe = ...]. *)
Definition init_resume (i : nat) w : TEWorld P :=
  let te := tw_te w in
  let te' := mkTE (Some (pipeline (te_modelName te) (te_device te))) (te_modelName te) (te_device te) (te_wasmPaths te) in
  mkTEWorld te' (tw_onnx w) (tw_loads w) (<[i := IP_Done]> (tw_calls w)).

Inductive te_step : TEWorld P → TEWorld P → Prop :=
  | te_call w : te_step w (init_call w)
  | te_check w i : tw_calls w !! i = Some IP_Check → te_step w (init_check i w)
  | te_resume w i : tw_calls w !! i = Some IP_Loading → te_step w (init_resume i w).

(** Calls made one after the other: a call starts only when every
    earlier one has returned. *)
Inductive te_serial_step : TEWorld P → TEWorld P → Prop :=
  | ts_call w : Forall (λ pc, pc = IP_Done) (tw_calls w) → te_serial_step w (init_call w)
  | ts_check w i : tw_calls w !! i = Some IP_Check → te_serial_step w (init_check i w)
  | ts_resume w i : tw_calls w !! i = Some IP_Loading → te_serial_step w (init_resume i w).

Definition te_fresh (te : TransformersEmbedder P) : TEWorld P := mkTEWorld te None 0 [].
End Transformers.

(** [embed] and [embedBatch] after their [await this.init()]: the
    pipeline call ([this.pipe(text, { pooling: 'mean', normalize: true })])
    and the conversion of its tensor ([Array.from(output.data)],
    [output.tolist()]) are library code, parameters here. *)
Section TransformersRun.
Context {P T N : Type}.
Context (pipe_text : P → string → res T) (pipe_texts : P → list string → res T).
Context (tensor_data : T → list N) (tensor_tolist : T → list (list N)).

Definition te_embed (te : TransformersEmbedder P) (text : string) : res (list N) :=
  match te_pipe te with
  | None => Throw (TypeError "this.pipe is not a function")
  | Some p => output ← pipe_text p text; Ok (tensor_data output)
  end.

Definition te_embedBatch (te : TransformersEmbedder P) (texts : list string) : res (list (list N)) :=
  match te_pipe te with
  | None => Throw (TypeError "this.pipe is not a function")
  | Some p => output ← pipe_texts p texts; Ok (tensor_tolist output)
  end.
End TransformersRun.

(** ** Properties of the OpenAI embedder *)

Section OpenAIProps.
Context {N : Type}.
Implicit Types (fetch : Request N → res (Response N)) (stringify : JSON N → string).

Lemma js_get_single (k : string) (v : JSON N) : js_get (JObj [(k, v)]) k = Ok (Some v).
Proof. unfold js_get, js_field. simpl. by case_decide. Qed.

Lemma mapM_embeddings (vs : list (JSON N)) :
  mapM_res (λ item, js_get item "embedding") ((λ v, JObj [("embedding", v)]) <$> vs) = Ok (Some <$> vs).
Proof.
  induction vs as [|v vs IH]; [done|].
  rewrite !fmap_cons. cbn [mapM_res]. by rewrite js_get_single, IH.
Qed.

(** C28: when the endpoint answers the request of [embedBatch(texts)]
    (a [POST] of [{input: texts, model}] to [{endpoint}/embeddings])
    with [200] and [{data: [{embedding: v1}, ..., {embedding: vn}]}],
    [embedBatch] returns [v1, ..., vn] in that order. *)
Theorem embedBatch_ok fetch stringify e texts st (vs : list (JSON N)) :
  fetch (request e texts) =
    Ok (mkResponse true st (Ok (JObj [("data", JArr ((λ v, JObj [("embedding", v)]) <$> vs))]))) →
  embedBatch fetch stringify e texts = Ok (Some <$> vs).
Proof.
  intros Hf. unfold embedBatch. rewrite Hf. cbn [mbind res_bind resp_ok resp_json].
  rewrite js_get_single. cbn [mbind res_bind]. apply mapM_embeddings.
Qed.

(** C29: a failed request raises: a response that is not [ok] raises
    ["OpenAI API Error: <status> - <JSON.stringify(body)>"], and a
    [fetch] that rejects (network error) raises its own error, rethrown
    by the [catch]. *)
Theorem embedBatch_errors fetch stringify e texts :
  (∀ st err, fetch (request e texts) = Ok (mkResponse false st (Ok err)) →
     embedBatch fetch stringify e texts =
       Throw (JsError ("OpenAI API Error: " ++ pretty st ++ " - " ++ stringify err)%string)) ∧
  (∀ x, fetch (request e texts) = Throw x → embedBatch fetch stringify e texts = Throw x).
Proof. split; intros *; intros Hf; unfold embedBatch; by rewrite Hf. Qed.

(** An [ok] answer with fewer items than texts is not an error:
    [embed(text)] on [{data: []}] returns [undefined] ([None]) as the
    embedding. *)
Theorem embed_short_response fetch stringify e text st :
  fetch (request e [text]) = Ok (mkResponse true st (Ok (JObj [("data", JArr [])]))) →
  embed fetch stringify e text = Ok None.
Proof.
  intros Hf. unfold embed, embedBatch. rewrite Hf. cbn [mbind res_bind resp_ok resp_json].
  by rewrite js_get_single.
Qed.

Lemma has_type_object_field (j : JSON N) fs k t :
  has_type j (TObject fs) = true → (k, t) ∈ fs →
  ∃ kvs v, j = JObj kvs ∧ js_field kvs k = Some v ∧ has_type v t = true.
Proof.
  destruct j as [| | | | |kvs]; try done. cbn [has_type]. intros Hf Hk.
  rewrite forallb_forall in Hf. apply list_elem_of_In, Hf in Hk. cbn in Hk.
  destruct (js_field kvs k) as [v|] eqn:Hv; [|done]. exists kvs, v. by split_and!.
Qed.

Lemma has_type_array (j : JSON N) t :
  has_type j (TArray t) = true → ∃ items, j = JArr items ∧ Forall (λ x, has_type x t = true) items.
Proof.
  destruct j as [| | | |items|]; try done. cbn [has_type]. intros Hf.
  exists items. split; [done|]. apply Forall_forall. intros x Hx%list_elem_of_In. by apply (proj1 (forallb_forall _ _) Hf).
Qed.

Lemma mapM_typed (items : list (JSON N)) :
  Forall (λ x, has_type x (TObject [("embedding", vector_type)]) = true) items →
  ∃ embs, mapM_res (λ item, js_get item "embedding") items = Ok embs ∧
    Forall (λ o, ∃ v, o = Some v ∧ has_type v vector_type = true) embs.
Proof.
  induction 1 as [|item items Hitem _ IH]; [by eexists|].
  destruct (has_type_object_field item _ "embedding" vector_type Hitem) as (kvs & v & -> & Hv & Htv); [by left|].
  destruct IH as (embs & Hembs & Hall). simpl. rewrite Hv, Hembs. simpl.
  eexists. split; [done|]. constructor; [by exists v|done].
Qed.

(** C34: [embedBatch] has its declared type when the answer has the
    documented type.  When the endpoint answers [ok] with a body of type
    [{ data: { embedding: number[] }[] }], [embedBatch] returns normally
    and every element of its result is a [number[]], as its signature
    [Promise<number[][]>] says; the code checks nothing, so this is all
    the signature rests on (compare [embed_short_response]). *)
Theorem embedBatch_typed fetch stringify e texts st (j : JSON N) :
  fetch (request e texts) = Ok (mkResponse true st (Ok j)) → has_type j response_type = true →
  ∃ embs, embedBatch fetch stringify e texts = Ok embs ∧
    Forall (λ o, ∃ v, o = Some v ∧ has_type v vector_type = true) embs.
Proof.
  intros Hf Hj.
  destruct (has_type_object_field j _ "data" (TArray (TObject [("embedding", vector_type)])) Hj)
    as (kvs & d & -> & Hd & Htd); [by left|].
  destruct (has_type_array d _ Htd) as (items & -> & Hitems).
  unfold embedBatch. rewrite Hf. cbn [mbind res_bind resp_ok resp_json js_get]. rewrite Hd.
  by apply mapM_typed.
Qed.
End OpenAIProps.

(** ** Properties of the lazy [init] *)

(** The calls of [init] that are past the [if (!this.pipe)] check. *)
Fixpoint past_check (l : list InitPC) : nat :=
  match l with
  | [] => 0
  | pc :: l' => (if decide (pc = IP_Check) then 0 else 1) + past_check l'
  end.

Section TransformersProps.
Context {P : Type} (pipeline : string → string → P).
Implicit Types (w : TEWorld P).

(** What every reachable state satisfies: [init] returns only once the
    pipeline of the configured model is loaded, the configuration does
    not change, and each load was started by its own call. *)
Record te_inv (te0 : TransformersEmbedder P) w : Prop := {
  ti_config : te_modelName (tw_te w) = te_modelName te0 ∧ te_device (tw_te w) = te_device te0 ∧
              te_wasmPaths (tw_te w) = te_wasmPaths te0;
  ti_pipe : te_pipe (tw_te w) = None ∨ te_pipe (tw_te w) = Some (pipeline (te_modelName te0) (te_device te0));
  ti_done : ∀ i, tw_calls w !! i = Some IP_Done → is_Some (te_pipe (tw_te w));
  ti_loads : tw_loads w ≤ past_check (tw_calls w)
}.

Lemma past_check_app l x : past_check (l ++ [x]) = past_check l + (if decide (x = IP_Check) then 0 else 1).
Proof. induction l as [|y l IH]; simpl; [lia|]. rewrite IH. lia. Qed.

Lemma past_check_insert l i x :
  l !! i = Some IP_Check → x ≠ IP_Check → past_check (<[i := x]> l) = S (past_check l).
Proof.
  revert i. induction l as [|y l IH]; intros [|i] Hi Hx; simpl in *; try done.
  - injection Hi as ->. do 2 case_decide; simplify_eq; lia.
  - rewrite (IH i Hi Hx). lia.
Qed.

Lemma past_check_insert_same l i x y :
  l !! i = Some y → y ≠ IP_Check → x ≠ IP_Check → past_check (<[i := x]> l) = past_check l.
Proof.
  revert i. induction l as [|z l IH]; intros [|i] Hi Hy Hx; simpl in *; try done.
  - injection Hi as ->. do 2 case_decide; simplify_eq; lia.
  - by rewrite (IH i Hi Hy Hx).
Qed.

Lemma te_step_inv te0 w w' : te_step pipeline w w' → te_inv te0 w → te_inv te0 w'.
Proof.
  intros Hs [Hc Hp Hd Hl]. destruct Hs as [w|w i Hi|w i Hi].
  - split; cbn; [done|done| |rewrite past_check_app; lia].
    intros i Hi. apply (Hd i). by destruct (lookup_app_snoc _ _ _ _ Hi) as [?|[_ ?]].
  - unfold init_check. destruct (te_pipe (tw_te w)) as [p|] eqn:Hpipe.
    + unfold set_call. split; cbn; [done|by rewrite Hpipe| |rewrite (past_check_insert _ i IP_Done Hi); [lia|done]].
      intros j _. by rewrite Hpipe.
    + split; cbn; [done|by rewrite Hpipe| |rewrite (past_check_insert _ i IP_Loading Hi); [lia|done]].
      intros j Hj. apply list_lookup_insert_Some in Hj as [(_ & ? & _)|[_ Hj]]; [done|]. by destruct (Hd j Hj).
  - destruct Hc as (Hm & Hdv & Hwp). split; cbn.
    + done.
    + right. by rewrite Hm, Hdv.
    + by eexists.
    + rewrite (past_check_insert_same _ _ _ _ Hi); [lia|done|done].
Qed.

Lemma te_steps_inv te0 w w' : rtc (te_step pipeline) w w' → te_inv te0 w → te_inv te0 w'.
Proof. induction 1 as [|w1 w2 w3 Hs _ IH]; [done|]. intros H1. by apply IH, (te_step_inv te0 w1 w2). Qed.

Lemma te_inv_fresh te : te_pipe te = None → te_inv te (te_fresh te).
Proof. intros Hp. split; cbn; [done|by left|by intros []|lia]. Qed.

(** [embed] and [embedBatch] whose [init] has returned, in any
    interleaving, run the pipeline of the configured model and device:
    the [TypeError] of a null [this.pipe] cannot happen. *)
Lemma te_embed_after_init {T N} (pipe_text : P → string → res T) (pipe_texts : P → list string → res T) (tensor_data : T → list N)
    (tensor_tolist : T → list (list N)) te w i text texts :
  te_pipe te = None → rtc (te_step pipeline) (te_fresh te) w → tw_calls w !! i = Some IP_Done →
  te_embed pipe_text tensor_data (tw_te w) text =
    (output ← pipe_text (pipeline (te_modelName te) (te_device te)) text; Ok (tensor_data output)) ∧
  te_embedBatch pipe_texts tensor_tolist (tw_te w) texts =
    (output ← pipe_texts (pipeline (te_modelName te) (te_device te)) texts; Ok (tensor_tolist output)).
Proof.
  intros Hp Hr Hi. destruct (te_steps_inv te _ _ Hr (te_inv_fresh te Hp)) as [_ Hpipe Hd _].
  destruct (Hd i Hi) as [p Hsome]. destruct Hpipe as [Hn|Hs]; [congruence|].
  unfold te_embed, te_embedBatch. by rewrite Hs.
Qed.

(** C30: for every interleaving of [init] calls on a fresh embedder, a
    call that has returned finds [this.pipe] set to the pipeline of the
    configured model and device, the configuration never changes, and
    the number of [pipeline(...)] loads is at most the number of calls
    that got past the [if (!this.pipe)] check. *)
Theorem te_reachable_inv te w :
  te_pipe te = None → rtc (te_step pipeline) (te_fresh te) w → te_inv te w.
Proof. intros Hp Hr. apply (te_steps_inv te _ _ Hr). by apply te_inv_fresh. Qed.

(** The states of calls made one after the other: no pipeline and at
    most one call before its check; one call loading; or the pipeline
    loaded, with returned calls and at most one call before its check. *)
Definition te_serial_ok w : Prop :=
  (te_pipe (tw_te w) = None ∧ tw_loads w = 0 ∧ (tw_calls w = [] ∨ tw_calls w = [IP_Check])) ∨
  (te_pipe (tw_te w) = None ∧ tw_loads w = 1 ∧ tw_calls w = [IP_Loading]) ∨
  (is_Some (te_pipe (tw_te w)) ∧ tw_loads w = 1 ∧
     ∃ n, tw_calls w = replicate n IP_Done ∨ tw_calls w = replicate n IP_Done ++ [IP_Check]).

Lemma lookup_replicate_pc n (x y : InitPC) i : replicate n x !! i = Some y → y = x.
Proof. by intros [-> _]%lookup_replicate. Qed.

Lemma te_serial_step_ok w w' : te_serial_step pipeline w w' → te_serial_ok w → te_serial_ok w'.
Proof.
  intros Hs Hw. destruct Hs as [w Hall|w i Hi|w i Hi];
    destruct Hw as [(Hp & Hl & [Hc|Hc])|[(Hp & Hl & Hc)|(Hp & Hl & n & [Hc|Hc])]].
  (* a new call *)
  - left. unfold init_call. cbn. rewrite Hc. split_and!; [done|done|by right].
  - rewrite Hc in Hall. by inversion Hall.
  - rewrite Hc in Hall. by inversion Hall.
  - right; right. unfold init_call. cbn. rewrite Hc. split_and!; [done|done|by exists n; right].
  - rewrite Hc in Hall. apply Forall_app in Hall as [_ Hx]. by inversion Hx.
  (* a check *)
  - rewrite Hc in Hi. by destruct i.
  - rewrite Hc in Hi. destruct i as [|[]]; simplify_eq/=.
    right; left. unfold init_check. rewrite Hp. cbn. by rewrite Hc, Hl.
  - rewrite Hc in Hi. destruct i as [|[]]; simplify_eq/=.
  - rewrite Hc in Hi. by apply lookup_replicate_pc in Hi.
  - rewrite Hc in Hi. destruct (lookup_app_snoc _ _ _ _ Hi) as [Hr%lookup_replicate_pc|[-> _]]; [done|].
    right; right. destruct Hp as [p Hp]. unfold init_check. rewrite Hp. unfold set_call. cbn.
    rewrite Hc, insert_app_r_alt, Nat.sub_diag by lia. cbn.
    split_and!; [rewrite Hp; by eexists|done|]. exists (S n). left. by rewrite replicate_S_end.
  (* a load completes *)
  - rewrite Hc in Hi. by destruct i.
  - rewrite Hc in Hi. destruct i as [|[]]; simplify_eq/=.
  - rewrite Hc in Hi. destruct i as [|[]]; simplify_eq/=.
    right; right. unfold init_resume. cbn. rewrite Hc. split_and!; [by eexists|done|]. exists 1. by left.
  - rewrite Hc in Hi. by apply lookup_replicate_pc in Hi.
  - rewrite Hc in Hi. by destruct (lookup_app_snoc _ _ _ _ Hi) as [Hr%lookup_replicate_pc|[_ ?]].
Qed.

(** C31: calls of [embed]/[embedBatch] made one after the other load
    the pipeline at most once. *)
Theorem te_serial_loads_once te w :
  te_pipe te = None → rtc (te_serial_step pipeline) (te_fresh te) w → tw_loads w ≤ 1.
Proof.
  intros Hp Hr. assert (Hw : te_serial_ok (te_fresh te)) by (left; cbn; split_and!; [done|done|by left]).
  revert Hw. induction Hr as [|w1 w2 w3 Hs _ IH]; intros Hw.
  - destruct Hw as [(_ & -> & _)|[(_ & -> & _)|(_ & -> & _)]]; lia.
  - by apply IH, (te_serial_step_ok w1 w2).
Qed.
End TransformersProps.

Section TransformersOverlap.
Context {P : Type} (pipeline : string → string → P).
Implicit Types (w : TEWorld P).

(** A check that finds no pipeline starts a load. *)
Lemma init_check_null i w :
  te_pipe (tw_te w) = None →
  tw_te (init_check i w) = tw_te w ∧ tw_loads (init_check i w) = S (tw_loads w) ∧
  tw_calls (init_check i w) = <[i := IP_Loading]> (tw_calls w).
Proof. intros Hp. unfold init_check. by rewrite Hp. Qed.

(** C32: the lazy [init] is not guarded against overlapping calls.  In
    any world where the pipeline is not loaded and two calls of [init]
    (from [embed] or [embedBatch], for instance a [SEARCH] arriving
    during an [ADD_DOC]) are before their [if (!this.pipe)] check, the
    interleaving in which both check before either load completes is a
    run of [te_step]: both find [this.pipe] null, both call
    [pipeline(...)], so the model is loaded twice, and both return. *)
Theorem te_concurrent_double_load w i j :
  te_pipe (tw_te w) = None → i ≠ j →
  tw_calls w !! i = Some IP_Check → tw_calls w !! j = Some IP_Check →
  let w2 := init_check j (init_check i w) in
  let w4 := init_resume pipeline j (init_resume pipeline i w2) in
  rtc (te_step pipeline) w w4 ∧ tw_loads w2 = tw_loads w + 2 ∧ tw_loads w4 = tw_loads w + 2 ∧
  tw_calls w4 !! i = Some IP_Done ∧ tw_calls w4 !! j = Some IP_Done.
Proof.
  intros Hp Hij Hi Hj. cbv zeta. assert (Hji : j ≠ i) by congruence.
  assert (Hli : i < length (tw_calls w)) by (by apply lookup_lt_Some in Hi).
  assert (Hlj : j < length (tw_calls w)) by (by apply lookup_lt_Some in Hj).
  destruct (init_check_null i w Hp) as (Ht1 & Hl1 & Hc1).
  destruct (init_check_null j (init_check i w)) as (Ht2 & Hl2 & Hc2); [by rewrite Ht1|].
  split; [|split_and!].
  - eapply rtc_l; [by apply (te_check _ _ i)|].
    eapply rtc_l; [apply (te_check _ _ j); rewrite Hc1; by rewrite list_lookup_insert_ne|].
    eapply rtc_l; [apply (te_resume _ _ i); rewrite Hc2, Hc1, list_lookup_insert_ne by done; by rewrite list_lookup_insert_eq|].
    eapply rtc_l; [apply (te_resume _ _ j); cbn; rewrite Hc2, list_lookup_insert_ne by done|apply rtc_refl].
    rewrite list_lookup_insert_eq; [done|]. by rewrite Hc1, length_insert.
  - rewrite Hl2, Hl1. lia.
  - cbn. rewrite Hl2, Hl1. lia.
  - cbn. rewrite Hc2, Hc1, list_lookup_insert_ne by done. rewrite list_lookup_insert_eq; [done|].
    by rewrite !length_insert.
  - cbn. rewrite Hc2, Hc1. rewrite list_lookup_insert_eq; [done|]. by rewrite !length_insert.
Qed.
End TransformersOverlap.

(** ** Witnesses *)

Definition demo_openai : OpenAIEmbedder := OpenAIEmbedder_new (mkOpenAIConfig "sk-test" None (Some "")).

Definition demo_vec : JSON Z := JArr [JNum 1%Z; JNum 2%Z].

Definition demo_fetch_ok (_ : Request Z) : res (Response Z) :=
  Ok (mkResponse true 200 (Ok (JObj [("data", JArr [JObj [("embedding", demo_vec)]])]))).

Definition demo_fetch_err (_ : Request Z) : res (Response Z) :=
  Ok (mkResponse false 401 (Ok (JObj [("error", JStr "invalid key")]))).

Definition demo_fetch_empty (_ : Request Z) : res (Response Z) :=
  Ok (mkResponse true 200 (Ok (JObj [("data", JArr [])]))).

Definition demo_stringify (_ : JSON Z) : string := "{...}".

Lemma embedBatch_ok_witness :
  demo_fetch_ok (request demo_openai ["hello"]) =
    Ok (mkResponse true 200 (Ok (JObj [("data", JArr ((λ v, JObj [("embedding", v)]) <$> [demo_vec]))]))) ∧
  embedBatch demo_fetch_ok demo_stringify demo_openai ["hello"] = Ok (Some <$> [demo_vec]).
Proof.
  assert (Hf : demo_fetch_ok (request demo_openai ["hello"]) =
    Ok (mkResponse true 200 (Ok (JObj [("data", JArr ((λ v, JObj [("embedding", v)]) <$> [demo_vec]))]))))
    by reflexivity.
  split; [exact Hf|]. exact (embedBatch_ok demo_fetch_ok demo_stringify demo_openai ["hello"] 200 [demo_vec] Hf).
Defined.

Lemma embedBatch_errors_witness :
  demo_fetch_err (request demo_openai ["hello"]) = Ok (mkResponse false 401 (Ok (JObj [("error", JStr "invalid key")]))) ∧
  embedBatch demo_fetch_err demo_stringify demo_openai ["hello"] =
    Throw (JsError ("OpenAI API Error: " ++ pretty 401%Z ++ " - " ++ demo_stringify (JObj [("error", JStr "invalid key")]))%string).
Proof.
  split; [reflexivity|]. apply (proj1 (embedBatch_errors demo_fetch_err demo_stringify demo_openai ["hello"])). reflexivity.
Defined.

Lemma embed_short_response_witness :
  demo_fetch_empty (request demo_openai ["hello"]) = Ok (mkResponse true 200 (Ok (JObj [("data", JArr [])]))) ∧
  embed demo_fetch_empty demo_stringify demo_openai "hello" = Ok None.
Proof.
  split; [reflexivity|]. apply (embed_short_response demo_fetch_empty demo_stringify demo_openai "hello" 200). reflexivity.
Defined.

Lemma te_reachable_inv_witness :
  te_pipe (TransformersEmbedder_new (P := nat) None None None) = None ∧
  te_inv (λ _ _, 0) (TransformersEmbedder_new None None None)
    (init_check 0 (init_call (te_fresh (TransformersEmbedder_new None None None)))).
Proof.
  split; [reflexivity|]. apply te_reachable_inv; [reflexivity|].
  eapply rtc_l; [apply te_call|]. eapply rtc_l; [apply (te_check _ _ 0); reflexivity|]. apply rtc_refl.
Defined.

Lemma te_serial_loads_once_witness :
  te_pipe (TransformersEmbedder_new (P := nat) None None None) = None ∧
  tw_loads (init_resume (λ _ _, 0) 0 (init_check 0 (init_call (te_fresh (TransformersEmbedder_new None None None))))) ≤ 1.
Proof.
  split; [reflexivity|]. apply (te_serial_loads_once (λ _ _, 0) (TransformersEmbedder_new None None None)); [reflexivity|].
  eapply rtc_l; [apply ts_call; constructor|]. eapply rtc_l; [apply (ts_check _ _ 0); reflexivity|].
  eapply rtc_l; [apply (ts_resume _ _ 0); reflexivity|]. apply rtc_refl.
Defined.

Lemma embedBatch_typed_witness :
  demo_fetch_ok (request demo_openai ["hello"]) =
    Ok (mkResponse true 200 (Ok (JObj [("data", JArr [JObj [("embedding", demo_vec)]])]))) ∧
  has_type (JObj [("data", JArr [JObj [("embedding", demo_vec)]])]) response_type = true ∧
  ∃ embs, embedBatch demo_fetch_ok demo_stringify demo_openai ["hello"] = Ok embs ∧
    Forall (λ o, ∃ v, o = Some v ∧ has_type v vector_type = true) embs.
Proof.
  assert (Hf : demo_fetch_ok (request demo_openai ["hello"]) =
    Ok (mkResponse true 200 (Ok (JObj [("data", JArr [JObj [("embedding", demo_vec)]])])))) by reflexivity.
  assert (Ht : has_type (JObj [("data", JArr [JObj [("embedding", demo_vec)]])]) response_type = true)
    by (vm_compute; reflexivity).
  split; [exact Hf|]. split; [exact Ht|].
  exact (embedBatch_typed demo_fetch_ok demo_stringify demo_openai ["hello"] 200 _ Hf Ht).
Defined.

(** Two calls made before the model has loaded. *)
Definition te_two_calls : TEWorld nat := init_call (init_call (te_fresh (TransformersEmbedder_new None None None))).

Lemma te_concurrent_double_load_witness :
  te_pipe (tw_te te_two_calls) = None ∧ 0 ≠ 1 ∧
  tw_calls te_two_calls !! 0 = Some IP_Check ∧ tw_calls te_two_calls !! 1 = Some IP_Check ∧
  let w2 := init_check 1 (init_check 0 te_two_calls) in
  let w4 := init_resume (λ _ _, 0) 1 (init_resume (λ _ _, 0) 0 w2) in
  rtc (te_step (λ _ _, 0)) te_two_calls w4 ∧ tw_loads w2 = tw_loads te_two_calls + 2 ∧
  tw_loads w4 = tw_loads te_two_calls + 2 ∧
  tw_calls w4 !! 0 = Some IP_Done ∧ tw_calls w4 !! 1 = Some IP_Done.
Proof.
  assert (Hp : te_pipe (tw_te te_two_calls) = None) by reflexivity.
  assert (H0 : tw_calls te_two_calls !! 0 = Some IP_Check) by reflexivity.
  assert (H1 : tw_calls te_two_calls !! 1 = Some IP_Check) by reflexivity.
  split; [exact Hp|]. split; [lia|]. split; [exact H0|]. split; [exact H1|].
  exact (te_concurrent_double_load (λ _ _, 0) te_two_calls 0 1 Hp ltac:(lia) H0 H1).
Defined.
