(* ===== verification/Indexer.v ===== *)
(** * The indexer: class [Vectoria]

    index.ts's [Vectoria] as methods of the state-exception monad [exc]
    over its fields [db] (the database of Store.v), [index] (the HNSW
    graph) and [initialized], plus the embedder it was built with.  The
    inputs the source draws from the environment are arguments: the
    [uuidv4()] ids, the [Date.now()] times and the [Math.random()]
    outcomes of each [addPoint].  An [await] of the store is one step of
    the state; the methods run each to completion (interleavings are the
    subject of Dispatch.v).

    [EmbeddingModel] (types.ts) is a record of two operations that may
    throw; [cosineSimilarity] of vector.ts, which the brute-force search
    uses, is a parameter of the section, instantiated on floats by
    VectorMath.v's spec model. *)

From S2P Require Import Prelude VectorMath HnswCore HnswSearch HnswInsert HnswJson Store.

(** [interface EmbeddingModel]. *)
Record EmbeddingModel (S : Type) := mkEmbedder {
  embed : string → res (list S);
  embedBatch : list string → res (list (list S))
}.
Arguments mkEmbedder {S}.
Arguments embed {S}.
Arguments embedBatch {S}.

(** The fields of [IndexerConfig] the constructor reads. *)
Record IndexerConfig (S : Type) := mkIndexerConfig {
  useLocalModel : option bool;
  customEmbedder : option (EmbeddingModel S);
  hnswConfig : option (HNSWConfig S)
}.
Arguments mkIndexerConfig {S}.
Arguments useLocalModel {S}.
Arguments customEmbedder {S}.
Arguments hnswConfig {S}.

Record Vectoria (Md V S : Type) := mkVectoria {
  db : DB Md S;
  embedder : EmbeddingModel S;
  index : HNSWIndex V S;
  initialized : bool
}.
Arguments mkVectoria {Md V S}.
Arguments db {Md V S}.
Arguments embedder {Md V S}.
Arguments index {Md V S}.
Arguments initialized {Md V S}.

(** A [SearchResult]: the document spread with its score. *)
Definition SearchResult (Md S : Type) : Type := VectorDocument Md S * S.

Section Indexer.
Context {Md V Num : Type} `{JsNum Num} `{Similarity V Num} `{Float32Vec V Num}.
(** [cosineSimilarity] of vector.ts and the default metadata [{}]. *)
Context (cosineSimilarity : list Num → list Num → Num) (md_empty : Md).

Abbreviation St := (Vectoria Md V Num).
Implicit Types (s : St) (db : DB Md Num).

Definition set_db db s : St := mkVectoria db (embedder s) (index s) (initialized s).
Definition set_index (i : HNSWIndex V Num) s : St := mkVectoria (db s) (embedder s) i (initialized s).
Definition set_initialized s : St := mkVectoria (db s) (embedder s) (index s) true.

(** [await this.db.m(..)] for a write [m] and for a read [m]. *)
Definition db_do (f : DB Md Num → DB Md Num) : exc St unit := exc_modify (λ s, set_db (f (db s)) s).
Definition db_read {A} (f : DB Md Num → A) : exc St A := s ← exc_get; mret (f (db s)).

(** A method of [this.index]: its mutations stay when it throws. *)
Definition on_index {A} (m : exc (HNSWIndex V Num) A) : exc St A :=
  λ s, let '(r, i) := m (index s) in (r, set_index i s).

(** [new HNSWIndex()]: the default configuration. *)
Definition new_index : HNSWIndex V Num := HNSWIndex_new default_config.

(** [constructor(config)]: [hnswConfig] is not read; [localEmbedder]
    stands for [new TransformersEmbedder(..)]. *)
Definition Vectoria_new (localEmbedder : EmbeddingModel Num) (config : IndexerConfig Num) : res St :=
  match customEmbedder config with
  | Some e => Ok (mkVectoria db_empty e new_index false)
  | None =>
      if negb (bool_decide (useLocalModel config = Some false))
      then Ok (mkVectoria db_empty localEmbedder new_index false)
      else Throw (JsError "No embedder configured. Provide a customEmbedder or enable useLocalModel.")
  end.

(** [init()]. *)
Definition init : exc St unit :=
  s ← exc_get;
  if initialized s then mret () else
  meta ← db_read loadIndexMeta;
  (match meta with
   | Some m =>
       nodes ← db_read getAllNodes;
       exc_modify (set_index (fromJSON (mkIndexJSON m nodes)))
   | None => mret ()
   end);;
  exc_modify set_initialized.

(** [{ ...node, vector: Array.from(node.vector) }]. *)
Definition node_record (n : Node V) : NodeJSON Num := node_toJSON (node_id n) n.

(** [saveIndex(touchedIds?)]: the metadata of [toJSON()], then the
    touched nodes still present (in the set's order), or, without a
    touched set, every node of the [toJSON()] taken before the first
    await. *)
Definition saveIndex (touched : option (gset string)) : exc St unit :=
  s ← exc_get;
  let json := toJSON (index s) in
  db_do (saveIndexMeta (ij_meta json));;
  match touched with
  | Some t =>
      s' ← exc_get;
      let nodesToSave := omap (λ id, node_record <$> getNode (index s') id) (elements t) in
      if 0 <? length nodesToSave then db_do (saveNodes nodesToSave) else mret ()
  | None => db_do (saveNodes (ij_nodes json))
  end.

(** [addDocument(text, metadata)] with [uuidv4() = id] and
    [Date.now() = now]. *)
Definition addDocument (text : string) (metadata : Md) (id : string) (now : Z) (coin : nat → bool)
    : exc St (VectorDocument Md Num) :=
  init;;
  s ← exc_get;
  embedding ← lift! (embed (embedder s) text);
  let doc := mkDoc id text metadata (Some embedding) now in
  touched ← on_index (addPoint id embedding coin);
  db_do (add doc);;
  saveIndex (Some touched);;
  mret doc.

(** The body of [for (const doc of docs) { if (doc.embedding) { const
    touched = this.index.addPoint(doc.id, doc.embedding);
    touched.forEach(id => allTouchedIds.add(id)); } }] for the [i]-th
    document, with the [Math.random()] outcomes [coins i]. *)
Definition index_step (coins : nat → nat → bool) (acc : gset string) (p : nat * VectorDocument Md Num)
    : exc St (gset string) :=
  match embedding p.2 with
  | Some e => touched ← on_index (addPoint (doc_id p.2) e (coins p.1)); mret (touched ∪ acc)
  | None => mret acc
  end.

Definition index_loop (docs : list (VectorDocument Md Num)) (coins : nat → nat → bool)
    : exc St (gset string) :=
  foldM (index_step coins) ∅ (zip (seq 0 (length docs)) docs).

(** [addDocuments(items)] with [uuidv4()] and [Date.now()] of the
    [i]-th item [ids i] and [nows i]; [embeddings[i]] is [undefined]
    past the end of the batch. *)
Definition addDocuments (items : list (string * option Md)) (ids : nat → string) (nows : nat → Z)
    (coins : nat → nat → bool) : exc St (list (VectorDocument Md Num)) :=
  init;;
  s ← exc_get;
  embeddings ← lift! (embedBatch (embedder s) (fst <$> items));
  let docs := imap (λ i item, mkDoc (ids i) item.1 (default md_empty item.2) (embeddings !! i) (nows i)) items in
  allTouched ← index_loop docs coins;
  db_do (addMany docs);;
  saveIndex (Some allTouched);;
  mret docs.

(** [indexDocuments(docs)]. *)
Definition indexDocuments (docs : list (VectorDocument Md Num)) (coins : nat → nat → bool) : exc St unit :=
  init;;
  allTouched ← index_loop docs coins;
  db_do (addMany docs);;
  saveIndex (Some allTouched).

(** [resetIndex()] and [clear()]. *)
Definition resetIndex : exc St unit :=
  exc_modify (set_index new_index);;
  db_do clear_meta;; db_do clear_nodes.

Definition clear_all : exc St unit :=
  exc_modify (set_index new_index);;
  db_do clear_documents;; db_do clear_meta;; db_do clear_nodes.

(** [getAllDocuments()]. *)
Definition getAllDocuments : exc St (list (VectorDocument Md Num)) := db_read getAll.

(** The brute-force ranking: documents with a non-empty embedding,
    scored by [cosineSimilarity], sorted, cut to [topK]. *)
Definition brute_force (qe : list Num) (topK : nat) (allDocs : list (VectorDocument Md Num))
    : list (Scored Num) :=
  take topK (sort_desc (omap (λ d, match embedding d with
                                   | Some e => if 0 <? length e then Some (mkScored (doc_id d) (cosineSimilarity qe e))
                                               else None
                                   | None => None
                                   end) allDocs)).

(** [results.map((r, i) => docs[i] ? {...docs[i], score} : null).filter(Boolean)]. *)
Definition join_results (results : list (Scored Num)) (docs : list (option (VectorDocument Md Num)))
    : list (SearchResult Md Num) :=
  omap (λ p : Scored Num * option (VectorDocument Md Num), (λ d, (d, score p.1)) <$> p.2) (zip results docs).

(** [search(query, topK, useBruteForce)]. *)
Definition vsearch (query : string) (topK : nat) (useBruteForce : bool)
    : exc St (list (SearchResult Md Num)) :=
  init;;
  s ← exc_get;
  qe ← lift! (embed (embedder s) query);
  results ← (if useBruteForce then allDocs ← db_read getAll; mret (brute_force qe topK allDocs)
             else s' ← exc_get; lift! (search (index s') qe topK));
  docs ← db_read (λ db, getMany db (cid <$> results));
  mret (join_results results docs).
End Indexer.
