(* ===== verification/IndexerProofs.v ===== *)
(** * The indexer's persistence invariant

    [consistent s]: the database of the indexer holds exactly what is
    needed to rebuild its in-memory graph.  The [meta] record is the
    metadata of [toJSON()] (or absent while the graph is the empty
    default one), the [hnsw_nodes] store holds one record per node, and
    the graph's nodes are exactly the stored documents that carry an
    embedding.

    The theorems show that a reopened indexer ([init] on the same
    database) rebuilds the same graph, hence answers every search as the
    one that wrote the database, and that [addDocument] keeps the
    invariant: the touched set of [addPoint] is enough for the granular
    save of [saveIndex]. *)

From S2P Require Import Prelude VectorMath HnswCore HnswSearch HnswInsert HnswJson Store Indexer.
From stdpp Require Import pretty.

Section Consistency.
Context {Md V Num : Type} `{JsNum Num} `{Similarity V Num} `{Float32Vec V Num}.

Abbreviation St := (Vectoria Md V Num).
Implicit Types (s : St) (db : DB Md Num).

Definition has_embedding (kd : string * VectorDocument Md Num) : Prop := is_Some (embedding kd.2).

Record consistent s : Prop := {
  cs_init : initialized s = true;
  cs_wf : wf (index s);
  cs_params : params_ok (index s);
  cs_nodes : hnsw_nodes (db s) = node_record <$> nodes (index s);
  cs_meta : meta (db s) = Some (meta_of (index s)) ∨ (meta (db s) = None ∧ index s = new_index);
  cs_docs : dom (nodes (index s)) = dom (filter has_embedding (documents (db s)));
  cs_doc_ids : map_Forall (λ k d, doc_id d = k) (documents (db s))
}.

(** The part of [consistent] that holds while [MigrationManager]
    rebuilds the graph of documents already stored: the database
    rebuilds the in-memory graph. *)
Record persisted s : Prop := {
  ps_init : initialized s = true;
  ps_wf : wf (index s);
  ps_params : params_ok (index s);
  ps_nodes : hnsw_nodes (db s) = node_record <$> nodes (index s);
  ps_meta : meta (db s) = Some (meta_of (index s)) ∨ (meta (db s) = None ∧ index s = new_index);
  ps_doc_ids : map_Forall (λ k d, doc_id d = k) (documents (db s))
}.

(** The ids [index_loop] inserts: those of the documents with an
    embedding, in order. *)
Definition doc_emb_ids (docs : list (VectorDocument Md Num)) : list string :=
  omap (λ d : VectorDocument Md Num, match embedding d with Some _ => Some (doc_id d) | None => None end) docs.

Definition emb_ids (l : list (nat * VectorDocument Md Num)) : list string :=
  omap (λ p : nat * VectorDocument Md Num, match embedding p.2 with Some _ => Some (doc_id p.2) | None => None end) l.
End Consistency.

(** ** The embedder of an indexer

    No method of [Vectoria] changes the embedder it was built with: they
    write [db], [index] and [initialized] only. *)

Section Embedder.
Context {Md V Num : Type} `{JsNum Num} `{Similarity V Num} `{Float32Vec V Num}.
Context (cosineSimilarity : list Num → list Num → Num) (md_empty : Md).

Abbreviation St := (Vectoria Md V Num).
Abbreviation keeps := (preserves (@embedder Md V Num)).

Lemma on_index_embedder {A} (m : exc (HNSWIndex V Num) A) : keeps (on_index m).
Proof. intros s. unfold on_index. by destruct (m (index s)). Qed.

Lemma db_do_embedder f : keeps (db_do (V := V) f).
Proof. by apply preserves_modify. Qed.

Lemma db_read_embedder {A} (f : DB Md Num → A) : keeps (db_read (V := V) f).
Proof. done. Qed.
#[local] Hint Resolve on_index_embedder db_do_embedder db_read_embedder : preserves.

Lemma init_embedder : keeps init.
Proof. unfold init. preserves_tac. Qed.
#[local] Hint Resolve init_embedder : preserves.

Lemma saveIndex_embedder t : keeps (saveIndex t).
Proof. unfold saveIndex. preserves_tac. Qed.
#[local] Hint Resolve saveIndex_embedder : preserves.

Lemma addDocument_embedder text md id now coin : keeps (addDocument text md id now coin).
Proof. unfold addDocument. preserves_tac. Qed.

Lemma index_loop_embedder docs coins : keeps (index_loop docs coins).
Proof. unfold index_loop. apply preserves_foldM. intros acc p. unfold index_step. preserves_tac. Qed.
#[local] Hint Resolve index_loop_embedder : preserves.

Lemma addDocuments_embedder items ids nows coins : keeps (addDocuments md_empty items ids nows coins).
Proof. unfold addDocuments. preserves_tac. Qed.

Lemma indexDocuments_embedder docs coins : keeps (indexDocuments docs coins).
Proof. unfold indexDocuments. preserves_tac. Qed.

Lemma resetIndex_embedder : keeps resetIndex.
Proof. unfold resetIndex. preserves_tac. Qed.

Lemma clear_all_embedder : keeps clear_all.
Proof. unfold clear_all. preserves_tac. Qed.

Lemma getAllDocuments_embedder : keeps getAllDocuments.
Proof. done. Qed.

Lemma vsearch_embedder q topK bf : keeps (vsearch cosineSimilarity q topK bf).
Proof. unfold vsearch. preserves_tac. Qed.
End Embedder.

#[export] Hint Resolve on_index_embedder db_do_embedder db_read_embedder init_embedder saveIndex_embedder
  addDocument_embedder index_loop_embedder addDocuments_embedder indexDocuments_embedder resetIndex_embedder
  clear_all_embedder getAllDocuments_embedder vsearch_embedder : preserves.

(** ** Client scenarios and the states the witnesses run on *)

(** A client inserting documents one after the other: [addDocument] on
    each [(text, metadata, id, now, coin)] in turn, as the service worker
    does for successive [ADD_DOC] messages answered one at a time. *)
Fixpoint addDocument_all {Md V Num} `{JsNum Num} `{Similarity V Num} `{Float32Vec V Num}
    (xs : list (string * Md * string * Z * (nat → bool)))
    : exc (Vectoria Md V Num) (list (VectorDocument Md Num)) :=
  match xs with
  | [] => mret []
  | (t, m, i, n, c) :: xs' => d ← addDocument t m i n c; ds ← addDocument_all xs'; mret (d :: ds)
  end.

Section Scenarios.
Context {Md V Num : Type} `{JsNum Num} `{Similarity V Num} `{Float32Vec V Num}.

Abbreviation St := (Vectoria Md V Num).
Implicit Types (s : St).

(** An indexer reopened on the database of [s]: a new [Vectoria] with
    the same embedder, before its [init()]. *)
Definition reopen s : St := mkVectoria (db s) (embedder s) new_index false.

Definition xs_id (x : string * Md * string * Z * (nat → bool)) : string := x.1.1.2.
Definition xs_text (x : string * Md * string * Z * (nat → bool)) : string := x.1.1.1.1.
End Scenarios.

(** ** Witnesses: an indexer over the integer instance

    The embedder maps a text to [(length, 1)]; two documents are
    inserted into a fresh database. *)

Definition zembed (t : string) : list Z := [Z.of_nat (String.length t); 1%Z].

Definition zembedder : EmbeddingModel Z := mkEmbedder (λ t, Ok (zembed t)) (λ ts, Ok (zembed <$> ts)).

Definition fresh_state : Vectoria unit (list Z) Z := mkVectoria db_empty zembedder new_index true.

Definition demo_inserts : list (string * unit * string * Z * (nat → bool)) :=
  [("hello", tt, "a", 0%Z, λ _, false); ("hi", tt, "b", 1%Z, λ _, false)].

Definition demo_state : Vectoria unit (list Z) Z := (addDocument_all demo_inserts fresh_state).2.

Definition zcos (a b : list Z) : Z := zdot a b.

(** ** The persistence invariant preserved *)

Section ConsistencyLemmas.
Context {Md V Num : Type} `{JsNum Num} `{Similarity V Num} `{Float32Vec V Num} `{!Float32VecLaws V Num}.
Context `{!NumStrictOrder Num}.

Abbreviation St := (Vectoria Md V Num).
Implicit Types (s : St) (db : DB Md Num) (idx : HNSWIndex V Num).

(** The node records of a well-formed graph, read back in key order, are
    the [nodes] array of its [toJSON()]. *)
Lemma getAllNodes_records idx (d : DB Md Num) :
  wf idx → hnsw_nodes d = node_record <$> nodes idx → getAllNodes d = ij_nodes (toJSON idx).
Proof.
  intros Hwf Hn. unfold getAllNodes, toJSON. cbn [ij_nodes]. rewrite Hn, map_to_list_fmap.
  rewrite <- list_fmap_compose. apply list_fmap_ext. intros i [k n] Hi. cbn.
  apply list_elem_of_lookup_2, elem_of_map_to_list in Hi.
  unfold node_record. by rewrite (wf_node_id idx k n Hwf Hi).
Qed.

Lemma new_index_ok : wf (new_index : HNSWIndex V Num) ∧ params_ok (new_index : HNSWIndex V Num).
Proof. destruct (HNSWIndex_new_ok (V:=V) default_config) as (? & ? & ?). by split; [|split]. Qed.

(** [init()] on a consistent database rebuilds the graph that wrote it. *)
Lemma init_reload s (e : EmbeddingModel Num) :
  consistent s →
  init (mkVectoria (db s) e new_index false) = (Ok (), mkVectoria (db s) e (index s) true).
Proof.
  intros Hc. unfold init. exc_unfold. cbn [initialized db]. unfold db_read, loadIndexMeta.
  exc_unfold. cbn [db].
  destruct (cs_meta _ Hc) as [-> | [-> Hnew]].
  - rewrite (getAllNodes_records (index s)); [|apply Hc|apply Hc].
    change (mkIndexJSON (meta_of (index s)) (ij_nodes (toJSON (index s)))) with (toJSON (index s)).
    rewrite fromJSON_toJSON_eq; [done|apply Hc|apply Hc].
  - by rewrite Hnew.
Qed.

(** Putting the records of the ids [L] of [ns'] over [m]. *)
Lemma foldl_save_lookup (ns' : gmap string (Node V)) (L : list string) (m : gmap string (NodeJSON Num)) k :
  (∀ id n, ns' !! id = Some n → node_id n = id) → (∀ id, id ∈ L → is_Some (ns' !! id)) →
  foldl (λ m nd, <[nj_id nd := nd]> m) m (omap (λ id, node_record <$> ns' !! id) L) !! k =
    if decide (k ∈ L) then node_record <$> ns' !! k else m !! k.
Proof.
  intros Hid. revert m. induction L as [|j L IH]; intros m HL; simpl.
  - done.
  - destruct (HL j (list_elem_of_here _ _)) as [n Hn]. rewrite Hn. simpl.
    rewrite IH by (intros; apply HL; by right). unfold node_record, node_toJSON. cbn [nj_id].
    rewrite (Hid j n Hn). destruct (decide (k = j)) as [->|Hne].
    + rewrite (decide_True _ _ (list_elem_of_here _ _)), lookup_insert_eq, Hn.
      destruct (decide (j ∈ L)); simpl; unfold node_record, node_toJSON; by rewrite (Hid j n Hn).
    + rewrite lookup_insert_ne by done. destruct (decide (k ∈ L)) as [Hk|Hk].
      * by rewrite decide_True by (by right).
      * rewrite decide_False; [done|]. by intros [->|]%elem_of_cons.
Qed.

(** [saveIndex(touched)] with a set of ids of the graph: the metadata and
    exactly the records of the touched ids are written. *)
Lemma saveIndex_touched s (t : gset string) :
  wf (index s) → (∀ id, id ∈ t → is_Some (nodes (index s) !! id)) →
  ∃ d', saveIndex (Some t) s = (Ok (), set_db d' s) ∧ meta d' = Some (meta_of (index s))
    ∧ documents d' = documents (db s)
    ∧ ∀ k, hnsw_nodes d' !! k = if decide (k ∈ t) then node_record <$> nodes (index s) !! k
                                else hnsw_nodes (db s) !! k.
Proof.
  intros Hwf Ht. unfold saveIndex, db_do. exc_unfold. cbn [db index set_db].
  set (L := omap _ (elements t)).
  assert (Hsave : ∀ k, foldl (λ m nd, <[nj_id nd := nd]> m) (hnsw_nodes (db s)) L !! k =
                    if decide (k ∈ t) then node_record <$> nodes (index s) !! k else hnsw_nodes (db s) !! k).
  { intros k. unfold L, getNode. rewrite foldl_save_lookup.
    - apply decide_ext. apply elem_of_elements.
    - intros id n Hn. by apply (wf_node_id _ _ _ Hwf).
    - intros id Hid%elem_of_elements. by apply Ht. }
  destruct (Nat.ltb_spec 0 (length L)) as [HL|HL].
  - eexists. split; [reflexivity|]. split; [done|]. split; [done|]. exact Hsave.
  - destruct L as [|x L'] eqn:HLe; [|simpl in HL; lia].
    eexists. split; [reflexivity|]. split; [done|]. split; [done|]. intros k. rewrite <- Hsave. done.
Qed.

Lemma init_initialized s : initialized s = true → init s = (Ok (), s).
Proof. intros Hi. unfold init. exc_unfold. by rewrite Hi. Qed.

Lemma consistent_fresh s id : consistent s → id ∉ dom (documents (db s)) → nodes (index s) !! id = None.
Proof.
  intros Hc Hid. apply not_elem_of_dom. rewrite (cs_docs _ Hc). intros [d Hd]%elem_of_dom.
  apply map_lookup_filter_Some in Hd as [Hd _]. apply Hid. by eapply elem_of_dom_2.
Qed.

(** [addDocument] of a fresh id whose text embeds: the document is
    stored, and the database again holds exactly the new graph. *)
Lemma addDocument_step s text md id now coin e :
  consistent s → id ∉ dom (documents (db s)) → embed (embedder s) text = Ok e →
  ∃ s', addDocument text md id now coin s = (Ok (mkDoc id text md (Some e) now), s') ∧ consistent s'
    ∧ documents (db s') = <[id := mkDoc id text md (Some e) now]> (documents (db s))
    ∧ dom (nodes (index s')) = {[id]} ∪ dom (nodes (index s))
    ∧ embedder s' = embedder s.
Proof.
  intros Hc Hid He. set (doc := mkDoc id text md (Some e) now).
  destruct (addPoint_fresh_post (index s) id e coin) as (t & idx' & Hr & Hp);
    [apply Hc|by apply consistent_fresh|].
  destruct Hp as [Hwf' Hdom Hnew Htid Htdom Hunt _ (HM & _ & _ & Hlm)].
  set (s1 := set_db (add doc (db s)) (set_index idx' s)).
  destruct (saveIndex_touched s1 t) as (d' & Hs & Hmeta & Hdocs & Hnodes); [done| |].
  { intros k Hk. apply elem_of_dom. by apply Htdom. }
  unfold addDocument. exc_unfold. rewrite init_initialized by apply Hc. rewrite He.
  unfold on_index. rewrite Hr. unfold db_do. exc_unfold. change (db (set_index idx' s)) with (db s). fold doc s1. rewrite Hs. unfold s1 in *.
  eexists. split; [reflexivity|]. cbn [db set_db embedder index set_index] in *.
  split; [|split; [by rewrite Hdocs|split; [done|done]]].
  destruct Hc as [Hi Hwf [HM0 Hlm0] Hn Hm Hd Hids]. split; cbn [db set_db index set_index initialized].
  - done.
  - done.
  - split; [by rewrite HM|by rewrite Hlm].
  - apply map_eq. intros k. rewrite Hnodes, lookup_fmap. cbn [hnsw_nodes add set_documents].
    case_decide; [done|]. by rewrite Hn, lookup_fmap, Hunt.
  - by left.
  - rewrite Hdocs, Hdom, Hd. cbn [add set_documents documents].
    rewrite map_filter_insert_True by (by eexists). by rewrite dom_insert_L.
  - rewrite Hdocs. cbn [add set_documents documents]. by apply map_Forall_insert_2.
Qed.

Lemma emb_ids_cons i (d : VectorDocument Md Num) l :
  emb_ids ((i, d) :: l) = match embedding d with Some _ => doc_id d :: emb_ids l | None => emb_ids l end.
Proof. unfold emb_ids. simpl. by destruct (embedding d). Qed.

Lemma set_index_id s : set_index (index s) s = s.
Proof. by destruct s. Qed.

Lemma set_index_set_index s i i' : set_index i' (set_index i s) = set_index i' s.
Proof. done. Qed.

(** The insertion loop of [addDocuments] and [indexDocuments] over
    documents whose embedded ids are distinct and fresh: it succeeds,
    keeps the graph well formed, inserts exactly those ids, and its
    touched set covers every node it changed. *)
Lemma index_steps_ok coins l acc s :
  wf (index s) → params_ok (index s) → NoDup (emb_ids l) →
  (∀ i, i ∈ emb_ids l → nodes (index s) !! i = None) →
  ∃ t idx', foldM (index_step coins) acc l s = (Ok t, set_index idx' s) ∧ wf idx' ∧ params_ok idx' ∧
    dom (nodes idx') = list_to_set (emb_ids l) ∪ dom (nodes (index s)) ∧
    acc ∪ list_to_set (emb_ids l) ⊆ t ∧ t ⊆ acc ∪ dom (nodes idx') ∧
    (∀ k, k ∉ t → nodes idx' !! k = nodes (index s) !! k).
Proof.
  revert acc s. induction l as [|[i d] l IH]; intros acc s Hwf Hp Hnd Hfr.
  - exists acc, (index s). rewrite set_index_id. split_and!; try done; set_solver.
  - cbn [foldM]. rewrite exc_bind_run. unfold index_step at 1. cbn [fst snd].
    rewrite emb_ids_cons in *. destruct (embedding d) as [e|] eqn:He.
    + apply NoDup_cons in Hnd as [Hid Hnd].
      destruct (addPoint_fresh_post (index s) (doc_id d) e (coins i)) as (t1 & i1 & Hr & Hpost);
        [done|apply Hfr; by left|].
      destruct Hpost as [Hwf1 Hdom1 _ Htid1 Htdom1 Hunt1 _ (HM1 & _ & _ & Hlm1)].
      unfold on_index. exc_unfold. rewrite Hr.
      destruct (IH (t1 ∪ acc) (set_index i1 s)) as (t & idx' & Hf & Hwf' & Hp' & Hdom' & Ht1 & Ht2 & Hunt');
        cbn [index set_index]; [done|split; [rewrite HM1; apply Hp|rewrite Hlm1; apply Hp]|done| |].
      { intros j Hj. apply not_elem_of_dom. rewrite Hdom1. apply not_elem_of_union. split.
        - intros ->%elem_of_singleton. by apply Hid.
        - apply not_elem_of_dom, Hfr. by right. }
      exists t, idx'. exc_unfold_in Hf. rewrite Hf, set_index_set_index. cbn [index set_index] in *. split_and!; try done.
      * rewrite Hdom', Hdom1. set_solver.
      * set_solver.
      * rewrite Hdom' in *. set_solver.
      * intros k Hk. rewrite Hunt', Hunt1; [done|set_solver|set_solver].
    + destruct (IH acc s) as (t & idx' & Hf & Hrest); [done..|].
      exists t, idx'. cbn. rewrite Hf. done.
Qed.

Lemma emb_ids_zip k (docs : list (VectorDocument Md Num)) : emb_ids (zip (seq k (length docs)) docs) = doc_emb_ids docs.
Proof.
  revert k. induction docs as [|d docs IH]; intros k; [done|]. cbn [length seq zip].
  rewrite emb_ids_cons, IH. unfold doc_emb_ids. simpl. by destruct (embedding d).
Qed.

Lemma documents_addMany docs (d : DB Md Num) :
  documents (addMany docs d) = foldl (λ m doc, <[doc_id doc := doc]> m) (documents d) docs.
Proof. revert d. induction docs as [|doc docs IH]; intros d; [done|]. simpl. by rewrite IH. Qed.

Lemma hnsw_nodes_addMany docs (d : DB Md Num) : hnsw_nodes (addMany docs d) = hnsw_nodes d.
Proof. revert d. induction docs as [|doc docs IH]; intros d; [done|]. simpl. by rewrite IH. Qed.

Lemma addMany_doc_ids docs (d : DB Md Num) :
  map_Forall (λ k doc, doc_id doc = k) (documents d) →
  map_Forall (λ k doc, doc_id doc = k) (documents (addMany docs d)).
Proof.
  rewrite documents_addMany. generalize (documents d) as m.
  induction docs as [|doc docs IH]; intros m Hm; [done|]. simpl.
  apply IH. by apply map_Forall_insert_2.
Qed.

(** The graph part of the invariant after the touched nodes are saved. *)
Lemma persisted_save s idx' t d' :
  persisted s → wf idx' → params_ok idx' → t ⊆ dom (nodes idx') →
  (∀ k, k ∉ t → nodes idx' !! k = nodes (index s) !! k) →
  meta d' = Some (meta_of idx') →
  (∀ k, hnsw_nodes d' !! k = if decide (k ∈ t) then node_record <$> nodes idx' !! k else hnsw_nodes (db s) !! k) →
  map_Forall (λ k doc, doc_id doc = k) (documents d') →
  persisted (set_db d' (set_index idx' s)).
Proof.
  intros [Hi _ _ Hn _ _] Hwf Hp Ht Hunt Hm Hnodes Hids. split; cbn [db index set_db set_index initialized]; try done.
  - apply map_eq. intros k. rewrite Hnodes, lookup_fmap. case_decide; [done|]. by rewrite Hn, lookup_fmap, Hunt.
  - by left.
Qed.

(** [indexDocuments(docs)] of documents whose embedded ids are distinct
    and not in the graph: it succeeds, stores the documents, inserts
    exactly those ids and keeps the database rebuilding the graph. *)
Lemma indexDocuments_step s docs coins :
  persisted s → NoDup (doc_emb_ids docs) → (∀ i, i ∈ doc_emb_ids docs → nodes (index s) !! i = None) →
  ∃ s', indexDocuments docs coins s = (Ok (), s') ∧ persisted s'
    ∧ documents (db s') = documents (addMany docs (db s))
    ∧ dom (nodes (index s')) = list_to_set (doc_emb_ids docs) ∪ dom (nodes (index s))
    ∧ embedder s' = embedder s.
Proof.
  intros Hps Hnd Hfr.
  destruct (index_steps_ok coins (zip (seq 0 (length docs)) docs) ∅ s)
    as (t & idx' & Hf & Hwf' & Hp' & Hdom' & Ht1 & Ht2 & Hunt); rewrite ?emb_ids_zip; try apply Hps; try done.
  set (s1 := set_db (addMany docs (db s)) (set_index idx' s)).
  destruct (saveIndex_touched s1 t) as (d' & Hs & Hmeta & Hdocs & Hnodes); [done| |].
  { intros k Hk. apply elem_of_dom. set_solver. }
  unfold indexDocuments, index_loop, db_do. exc_unfold. rewrite init_initialized by apply Hps.
  exc_unfold_in Hf. rewrite Hf. change (db (set_index idx' s)) with (db s). fold s1. rewrite Hs.
  eexists. split; [reflexivity|]. unfold s1 in *. cbn [db set_db index set_index embedder] in *.
  split; [|split; [done|split; [by rewrite emb_ids_zip in Hdom'|done]]].
  apply (persisted_save s idx' t d'); [done|done|done|set_solver|done|done| |].
  - intros k. by rewrite Hnodes, hnsw_nodes_addMany.
  - rewrite Hdocs. apply addMany_doc_ids, Hps.
Qed.
End ConsistencyLemmas.

(** ** Reopening, inserting and searching *)


Section IndexerTheorems.
Context {Md V Num : Type} `{JsNum Num} `{Similarity V Num} `{Float32Vec V Num} `{!Float32VecLaws V Num}.
Context `{!NumStrictOrder Num}.
Context (cosineSimilarity : list Num → list Num → Num).

Abbreviation St := (Vectoria Md V Num).
Implicit Types (s : St).


Lemma init_reopen s : consistent s → init (reopen s) = (Ok (), s).
Proof.
  intros Hc. unfold reopen. rewrite init_reload by done. pose proof (cs_init _ Hc) as Hi.
  destruct s as [d e i b]; cbn in *. by subst b.
Qed.

(** C11: closing and reopening the indexer preserves search: on a
    consistent database, the reopened indexer answers every [search]
    exactly as the indexer that wrote it, brute force or not, and ends in
    the same state. *)
Theorem reopen_preserves_search s query topK useBruteForce :
  consistent s →
  vsearch cosineSimilarity query topK useBruteForce (reopen s) =
  vsearch cosineSimilarity query topK useBruteForce s.
Proof.
  intros Hc. unfold vsearch. rewrite !exc_bind_run, init_reopen, init_initialized by (apply Hc || done).
  done.
Qed.
End IndexerTheorems.

Section InsertTheorems.
Context {Md V Num : Type} `{JsNum Num} `{Similarity V Num} `{Float32Vec V Num} `{!Float32VecLaws V Num}.
Context `{!NumStrictOrder Num}.

Abbreviation St := (Vectoria Md V Num).
Implicit Types (s : St).


Lemma length_getAll (d : DB Md Num) : length (getAll d) = size (documents d).
Proof. unfold getAll. by rewrite length_fmap, length_map_to_list. Qed.

Lemma size_nodes_store s : consistent s → size (hnsw_nodes (db s)) = size (nodes (index s)).
Proof. intros Hc. by rewrite (cs_nodes _ Hc), map_size_fmap. Qed.

(** C12: inserting [N] documents of distinct fresh ids whose texts all
    embed succeeds and keeps the indexer consistent; [getAllDocuments()]
    grows by exactly [N] and so does the nodes store. *)
Theorem addDocument_all_counts s xs :
  consistent s → NoDup (xs_id <$> xs) → (∀ x, x ∈ xs → xs_id x ∉ dom (documents (db s))) →
  (∀ x, x ∈ xs → ∃ e, embed (embedder s) (xs_text x) = Ok e) →
  ∃ ds s', addDocument_all xs s = (Ok ds, s') ∧ consistent s' ∧ length ds = length xs ∧
    length (getAll (db s')) = length (getAll (db s)) + length xs ∧
    size (hnsw_nodes (db s')) = size (hnsw_nodes (db s)) + length xs.
Proof.
  revert s. induction xs as [|[[[[t m] i] n] c] xs IH]; intros s Hc Hnd Hfresh Hemb.
  - exists [], s. simpl. split_and!; [done|done|done|lia|lia].
  - apply NoDup_cons in Hnd as [Hi Hnd]. destruct (Hemb _ (list_elem_of_here _ _)) as [e He].
    destruct (addDocument_step s t m i n c e) as (s1 & Hr & Hc1 & Hd1 & Hn1 & He1);
      [done|apply (Hfresh _ (list_elem_of_here _ _))|done|].
    destruct (IH s1) as (ds & s' & Hr' & Hc' & Hl & Hg & Hs); [done|done| | |].
    { intros x Hx. rewrite Hd1, dom_insert_L. cbn in Hi. intros [Heq%elem_of_singleton|]%elem_of_union.
      - apply Hi. rewrite <- Heq. by apply list_elem_of_fmap_2.
      - by apply (Hfresh x); [right|]. }
    { intros x Hx. rewrite He1. by apply Hemb; right. }
    eexists _, s'. cbn [addDocument_all]. rewrite exc_bind_run, Hr, exc_bind_run, Hr'.
    split; [done|]. split; [done|]. split; [simpl; lia|]. rewrite Hg, Hs, !length_getAll, Hd1.
    rewrite !(size_nodes_store s1), !(size_nodes_store s), <- !size_dom, Hn1 by done.
    pose proof (Hfresh _ (list_elem_of_here _ _)) as Hid. cbn in Hid.
    pose proof (consistent_fresh s i Hc Hid) as Hnid%not_elem_of_dom.
    rewrite dom_insert_L, !size_union, !size_singleton by set_solver. simpl. lia.
Qed.
End InsertTheorems.

Section SearchTheorems.
Context {Md V Num : Type} `{JsNum Num} `{Similarity V Num} `{Float32Vec V Num}.
Context `{!NumStrictOrder Num}.
Context (cosineSimilarity : list Num → list Num → Num).

Abbreviation St := (Vectoria Md V Num).
Implicit Types (s : St) (d : DB Md Num).

Lemma join_results_all d W :
  (∀ w, w ∈ W → ∃ doc, documents d !! cid w = Some doc ∧ doc_id doc = cid w) →
  (λ r : SearchResult Md Num, (doc_id r.1, r.2)) <$> join_results W (getMany d (cid <$> W))
    = (λ w, (cid w, score w)) <$> W ∧
  ∀ r, r ∈ join_results W (getMany d (cid <$> W)) → documents d !! doc_id r.1 = Some r.1.
Proof.
  induction W as [|w W IH]; intros Hall; [split; [done|intros r Hr; inversion Hr]|].
  destruct (Hall w (list_elem_of_here _ _)) as (doc & Hdoc & Hid).
  destruct IH as [IH1 IH2]; [intros; apply Hall; by right|].
  unfold join_results, getMany, get in *. cbn. rewrite Hdoc. cbn. split.
  - f_equal; [f_equal; exact Hid|exact IH1].
  - intros r [->|Hr]%elem_of_cons; [simpl; by rewrite Hid|by apply IH2].
Qed.

(** C13: on a consistent indexer, an HNSW [search] never drops a result
    as a ghost: every id the graph returns is a stored document, and the
    results are exactly the graph's, in its order, with its scores. *)
Theorem vsearch_no_ghosts s query topK qe :
  consistent s → embed (embedder s) query = Ok qe →
  ∃ W rs, search (index s) qe topK = Ok W ∧
    vsearch cosineSimilarity query topK false s = (Ok rs, s) ∧
    (λ r : SearchResult Md Num, (doc_id r.1, r.2)) <$> rs = (λ w, (cid w, score w)) <$> W ∧
    ∀ r, r ∈ rs → documents (db s) !! doc_id r.1 = Some r.1.
Proof.
  intros Hc He. destruct (search_spec (index s) qe topK) as (W & HW & _ & _ & _ & Hsc & _); [apply Hc|].
  assert (Hall : ∀ w, w ∈ W → ∃ doc, documents (db s) !! cid w = Some doc ∧ doc_id doc = cid w).
  { intros w Hw. destruct (Hsc w Hw) as (n & Hn & _). apply elem_of_dom_2 in Hn.
    rewrite (cs_docs _ Hc) in Hn. apply elem_of_dom in Hn as [doc Hdoc].
    apply map_lookup_filter_Some in Hdoc as [Hdoc _]. exists doc. split; [done|].
    exact (map_Forall_lookup_1 _ _ _ _ (cs_doc_ids _ Hc) Hdoc). }
  destruct (join_results_all (db s) W Hall) as [Hj1 Hj2].
  exists W, (join_results W (getMany (db s) (cid <$> W))). split; [done|].
  unfold vsearch, db_read. exc_unfold. rewrite init_initialized by apply Hc. rewrite He, HW. done.
Qed.
End SearchTheorems.

(** ** Witnesses *)

Section ErrorTheorems.
Context {Md V Num : Type} `{JsNum Num} `{Similarity V Num} `{Float32Vec V Num}.

Abbreviation St := (Vectoria Md V Num).
Implicit Types (s : St).

(** [addPoint] of an id already in the graph throws before any change. *)
Lemma addPoint_dup_unchanged (idx : HNSWIndex V Num) id v coin :
  id ∈ dom (nodes idx) → addPoint id v coin idx = (Throw (DuplicateId id), idx).
Proof. intros [n Hn]%elem_of_dom. unfold addPoint. exc_unfold. by rewrite Hn. Qed.

(** C14: [addDocument] fails without a partial write.  On an initialized
    indexer, when the embedder throws [e] on the text, or when the new
    id is already a node of the graph (a repeated [uuidv4()]), the call
    throws ([e], or the duplicate-id error of [addPoint]) and leaves the
    indexer exactly as it was: no document is stored and neither the
    graph nor the persisted nodes change. *)
Theorem addDocument_error_atomic s text (md : Md) id now coin :
  initialized s = true →
  (∀ e, embed (embedder s) text = Throw e → addDocument text md id now coin s = (Throw e, s)) ∧
  (∀ v, embed (embedder s) text = Ok v → id ∈ dom (nodes (index s)) →
     addDocument text md id now coin s = (Throw (DuplicateId id), s)).
Proof.
  intros Hi. split.
  - intros e He. unfold addDocument. exc_unfold. rewrite init_initialized by done. by rewrite He.
  - intros v Hv Hid. unfold addDocument. exc_unfold. rewrite init_initialized by done. rewrite Hv.
    unfold on_index. rewrite addPoint_dup_unchanged by done. by rewrite set_index_id.
Qed.
End ErrorTheorems.

(** [consistent] of a concrete state, field by field, by evaluation. *)
Ltac consistent_by_eval :=
  split;
  [ vm_compute; reflexivity
  | apply wf_check_sound; vm_compute; reflexivity
  | split; vm_compute; [lia|reflexivity]
  | vm_compute; reflexivity
  | first [left; vm_compute; reflexivity | right; split; vm_compute; reflexivity]
  | vm_compute; reflexivity
  | apply (bool_decide_eq_true_1 _); vm_compute; reflexivity ].

Lemma reopen_preserves_search_witness :
  vsearch zcos "hey" 2 false (reopen demo_state) = vsearch zcos "hey" 2 false demo_state.
Proof. apply reopen_preserves_search. consistent_by_eval. Defined.

Lemma addDocument_all_counts_witness :
  ∃ ds s', addDocument_all demo_inserts fresh_state = (Ok ds, s') ∧ consistent s' ∧
    length ds = length demo_inserts ∧
    length (getAll (db s')) = length (getAll (db fresh_state)) + length demo_inserts ∧
    size (hnsw_nodes (db s')) = size (hnsw_nodes (db fresh_state)) + length demo_inserts.
Proof.
  apply addDocument_all_counts.
  - consistent_by_eval.
  - apply (bool_decide_eq_true_1 _). vm_compute. reflexivity.
  - apply Forall_forall. repeat constructor; vm_compute; set_solver.
  - apply Forall_forall. repeat constructor; eexists; reflexivity.
Defined.

Lemma vsearch_no_ghosts_witness :
  ∃ W rs, search (index demo_state) (zembed "hey") 2 = Ok W ∧
    vsearch zcos "hey" 2 false demo_state = (Ok rs, demo_state) ∧
    (λ r : SearchResult unit Z, (doc_id r.1, r.2)) <$> rs = (λ w, (cid w, score w)) <$> W ∧
    ∀ r, r ∈ rs → documents (db demo_state) !! doc_id r.1 = Some r.1.
Proof. apply vsearch_no_ghosts; [consistent_by_eval|reflexivity]. Defined.


Lemma addDocument_error_atomic_witness :
  initialized demo_state = true ∧
  (∀ e, embed (embedder demo_state) "hey" = Throw e →
     addDocument "hey" tt "a" 0 (λ _, false) demo_state = (Throw e, demo_state)) ∧
  (∀ v, embed (embedder demo_state) "hey" = Ok v → "a" ∈ dom (nodes (index demo_state)) →
     addDocument "hey" tt "a" 0 (λ _, false) demo_state = (Throw (DuplicateId "a"), demo_state)).
Proof.
  assert (Hi : initialized demo_state = true) by (vm_compute; reflexivity).
  split; [exact Hi|]. exact (addDocument_error_atomic demo_state "hey" tt "a" 0 (λ _, false) Hi).
Defined.
