(* ===== verification/IndexerSpec.v ===== *)
(** * The indexing loop against the abstract index

    [index_loop] (the [for (const doc of docs)] loop of [addDocuments]
    and [indexDocuments] in index.ts) runs [addPoint] on every document
    that has an embedding.  Against the abstract index of HnswSpec.v it
    is the fold of [spec_add] over the documents: the theorem lifts the
    one-step simulation of [addPoint] through [on_index] (the method
    call on the indexer's [index] field) and the fold
    ([foldM_exc_sim]), so a duplicate id anywhere in a batch raises the
    error with the points before it already added, exactly as in the
    abstract fold. *)

From S2P Require Import Prelude VectorMath HnswCore HnswSearch HnswInsert HnswSpec HnswJson Store Indexer.

Section IndexSpec.
Context {Md V Num : Type} `{JsNum Num} `{Similarity V Num} `{Float32Vec V Num}.

Abbreviation St := (Vectoria Md V Num).

(** One document of the abstract loop: add its point if it has one. *)
Definition spec_index_step (_ : unit) (d : VectorDocument Md Num) : exc (gmap string V) unit :=
  match embedding d with
  | Some e => _ ← spec_add (doc_id d) (f32_of_array e); mret ()
  | None => mret ()
  end.

Definition spec_index (docs : list (VectorDocument Md Num)) : exc (gmap string V) unit :=
  foldM spec_index_step () docs.

(** The indexer's graph refines the abstract points. *)
Definition index_refines (s : St) (A : gmap string V) : Prop := refines (index s) A.
End IndexSpec.

Section IndexSpecLemmas.
Context {Md V Num : Type} `{JsNum Num} `{Similarity V Num} `{Float32Vec V Num}.
Context `{!NumStrictOrder Num}.

Abbreviation St := (Vectoria Md V Num).

Lemma on_index_sim {A B} (Rv : A → B → Prop) (m1 : exc (HNSWIndex V Num) A) m2 :
  exc_sim refines Rv m1 m2 → exc_sim (index_refines (Md := Md)) Rv (on_index m1) m2.
Proof.
  intros Hm s A' Hs. unfold on_index. specialize (Hm (index s) A' Hs).
  destruct (m1 (index s)) as [r i]. exact Hm.
Qed.

Lemma Forall2_zip_seq {X} i (l : list X) : Forall2 (λ p x, p.2 = x) (zip (seq i (length l)) l) l.
Proof.
  revert i. induction l as [|x l IH]; intros i; simpl; constructor; [done|apply IH].
Qed.

(** C27: the indexing loop refines the abstract fold.  From an indexer
    whose graph is well formed, [index_loop docs coins] and [spec_index
    docs] on the graph's points end with a well-formed graph whose points
    are the abstract result, and both succeed or both raise the same
    duplicate-id error, whatever the random levels. *)
Theorem index_loop_refines (docs : list (VectorDocument Md Num)) coins :
  exc_sim (index_refines (Md := Md)) (λ _ _, True) (index_loop docs coins) (spec_index docs).
Proof.
  unfold index_loop, spec_index.
  apply (foldM_exc_sim _ (λ p d, p.2 = d)); [apply Forall2_zip_seq| |done].
  intros acc [] [i d] d' _ <-. unfold index_step, spec_index_step. cbn [fst snd].
  destruct (embedding d) as [e|]; [|by apply exc_sim_ret].
  apply (exc_sim_bind _ (λ _ _, True)); [apply on_index_sim, addPoint_sim|].
  intros. by apply exc_sim_ret.
Qed.
End IndexSpecLemmas.

(** ** Witness: a batch of two documents on [sample_graph], the second
    one a duplicate of a point of the graph. *)

Definition sample_indexer : Vectoria unit (list Z) Z :=
  mkVectoria db_empty (mkEmbedder (λ _, Ok [1;0]%Z) (λ ts, Ok ((λ _, [1;0]%Z) <$> ts))) sample_graph true.

Definition sample_docs : list (VectorDocument unit Z) :=
  [mkDoc "d" "t" tt (Some [1;2]%Z) 0; mkDoc "a" "u" tt (Some [0;1]%Z) 1].

Lemma index_loop_refines_witness :
  index_refines sample_indexer (abs sample_graph) ∧
  index_refines (index_loop sample_docs (λ _ _, false) sample_indexer).2 (spec_index sample_docs (abs sample_graph)).2 ∧
  res_rel (λ _ _, True) (index_loop sample_docs (λ _ _, false) sample_indexer).1 (spec_index sample_docs (abs sample_graph)).1.
Proof.
  assert (Hr : index_refines sample_indexer (abs sample_graph)) by exact sample_refines.
  split; [exact Hr|]. exact (index_loop_refines sample_docs (λ _ _, false) sample_indexer (abs sample_graph) Hr).
Defined.
