(* ===== verification/Persistence.v ===== *)
(** * Granular persistence against the full save

    [saveIndex(touchedIds)] (index.ts) writes the metadata and only the
    records of the touched nodes; [saveIndex()] writes the metadata and
    the record of every node of [toJSON()].  The granular save is the
    optimisation, the full save the reference: when the store holds the
    records of the graph before a change, no node was removed, and the
    touched set names every node the change altered, both leave the same
    database. *)

From S2P Require Import Prelude VectorMath HnswCore HnswSearch HnswInsert HnswJson Store Indexer IndexerProofs.

Section Persistence.
Context {Md V Num : Type} `{JsNum Num} `{Similarity V Num} `{Float32Vec V Num}.
Context `{!NumStrictOrder Num}.

Abbreviation St := (Vectoria Md V Num).
Implicit Types (s : St).

(** The precondition of a granular save: the store holds the records of
    the graph [old], the touched set [t] names nodes of the current graph,
    and outside [t] the current graph is [old]. *)
Record touched_covers (old : HNSWIndex V Num) (t : gset string) s : Prop := {
  tc_store : hnsw_nodes (db s) = node_record <$> nodes old;
  tc_dom : t ⊆ dom (nodes (index s));
  tc_rest : filter (λ kv, kv.1 ∉ t) (nodes (index s)) = filter (λ kv, kv.1 ∉ t) (nodes old)
}.

(** The records of [toJSON()] are those of the keys of the node map. *)
Lemma toJSON_nodes_omap idx :
  wf idx → ij_nodes (toJSON idx) = omap (λ id, node_record <$> nodes idx !! id) (map_to_list (nodes idx)).*1.
Proof.
  intros Hwf. unfold toJSON. cbn [ij_nodes].
  assert (Hl : ∀ p, p ∈ map_to_list (nodes idx) → nodes idx !! p.1 = Some p.2)
    by (intros [k n] Hp; by apply elem_of_map_to_list in Hp).
  revert Hl. generalize (map_to_list (nodes idx)). intros l Hl.
  induction l as [|[k n] l IH]; [done|].
  assert (Hk : nodes idx !! k = Some n) by (apply (Hl (k, n)); by left).
  rewrite fmap_cons. simpl. rewrite Hk. simpl.
  unfold node_record. rewrite (wf_node_id idx k n Hwf Hk).
  f_equal. apply IH. intros p Hp. apply Hl. by right.
Qed.

(** [saveIndex()]: the metadata and every record, over the old ones. *)
Lemma saveIndex_full s :
  wf (index s) →
  ∃ d', saveIndex None s = (Ok (), set_db d' s) ∧ meta d' = Some (meta_of (index s))
    ∧ documents d' = documents (db s)
    ∧ ∀ k, hnsw_nodes d' !! k = if decide (k ∈ dom (nodes (index s))) then node_record <$> nodes (index s) !! k
                                else hnsw_nodes (db s) !! k.
Proof.
  intros Hwf. unfold saveIndex, db_do. exc_unfold. cbn [db index set_db]. eexists. split; [reflexivity|].
  split; [done|]. split; [done|]. intros k. cbn [hnsw_nodes saveNodes set_hnsw_nodes saveIndexMeta set_meta].
  rewrite (toJSON_nodes_omap _ Hwf), foldl_save_lookup.
  - apply decide_ext. rewrite elem_of_dom. split.
    + intros ([? n] & -> & Hp)%list_elem_of_fmap. apply elem_of_map_to_list in Hp. by eexists.
    + intros [n Hn]. apply list_elem_of_fmap. exists (k, n). split; [done|]. by apply elem_of_map_to_list.
  - intros id n Hn. by apply (wf_node_id _ _ _ Hwf).
  - intros id ([? n] & -> & Hp)%list_elem_of_fmap. apply elem_of_map_to_list in Hp. by eexists.
Qed.

Lemma filter_out_lookup (t : gset string) (m1 m2 : gmap string (Node V)) k :
  filter (λ kv, kv.1 ∉ t) m1 = filter (λ kv, kv.1 ∉ t) m2 → k ∉ t → m1 !! k = m2 !! k.
Proof.
  intros Hf Hk. apply (f_equal (lookup k)) in Hf. rewrite !map_lookup_filter in Hf.
  destruct (m1 !! k), (m2 !! k); simpl in Hf; rewrite ?option_guard_True in Hf by done; simplify_eq/=; done.
Qed.

(** C33: the granular save is equivalent to the full save.  When the
    [hnsw_nodes] store holds the records of a graph [old], the touched
    set names nodes of the current graph, and outside it the current
    graph equals [old], [saveIndex(touched)] and [saveIndex()] leave the
    same database (metadata, documents and node records). *)
Theorem saveIndex_granular_eq_full s (old : HNSWIndex V Num) (t : gset string) :
  wf (index s) → touched_covers old t s → saveIndex (Some t) s = saveIndex None s.
Proof.
  intros Hwf [Hold Ht Hout].
  destruct (saveIndex_touched s t Hwf) as (d1 & -> & Hm1 & Hd1 & Hn1).
  { intros id Hid. apply elem_of_dom. set_solver. }
  destruct (saveIndex_full s Hwf) as (d2 & -> & Hm2 & Hd2 & Hn2).
  do 2 f_equal. destruct d1 as [docs1 meta1 ns1], d2 as [docs2 meta2 ns2]; cbn in *; subst.
  f_equal. apply map_eq. intros k. rewrite Hn1, Hn2.
  destruct (decide (k ∈ t)) as [Hkt|Hkt]; destruct (decide (k ∈ dom (nodes (index s)))) as [Hkd|Hkd];
    [done|set_solver|..|done].
  rewrite Hold, !lookup_fmap, (filter_out_lookup t _ _ k Hout Hkt). done.
Qed.
End Persistence.

(** ** Witness: one insertion into the two-document indexer of
    IndexerProofs.v, before its nodes are saved. *)

Definition demo_step : res (gset string) * HNSWIndex (list Z) Z :=
  addPoint "zz" [3;1]%Z (λ _, false) (index demo_state).

Definition demo_touched : gset string := match demo_step.1 with Ok t => t | Throw _ => ∅ end.

Definition demo_after : Vectoria unit (list Z) Z := set_index demo_step.2 demo_state.

Lemma saveIndex_granular_eq_full_witness :
  wf (index demo_after) ∧ touched_covers (index demo_state) demo_touched demo_after ∧
  saveIndex (Some demo_touched) demo_after = saveIndex None demo_after.
Proof.
  assert (Hwf : wf (index demo_after)) by (apply wf_check_sound; vm_compute; reflexivity).
  assert (Hc : touched_covers (index demo_state) demo_touched demo_after).
  { split; [vm_compute; reflexivity|apply (bool_decide_eq_true_1 _); vm_compute; reflexivity|vm_compute; reflexivity]. }
  split; [exact Hwf|]. split; [exact Hc|].
  exact (saveIndex_granular_eq_full demo_after (index demo_state) demo_touched Hwf Hc).
Defined.
