(* ===== verification/Migration.v ===== *)
(** * The migration controller: [MigrationManager]

    migration.ts's [MigrationManager] as a state machine.  Its state is
    the manager's fields ([indexer], [targetEmbedder], [status],
    [isRunning], [shouldStop]) and the program point at which a running
    [start()] is suspended on an [await] ([MigPC]); a step of [start] runs
    the code from one [await] to the next.  [stop()] and [getStatus()]
    are synchronous: [stop] is a step that may happen between any two
    steps of [start], [getStatus] a read.  The indexer calls
    ([getAllDocuments], [resetIndex], [indexDocuments]) are the atomic
    methods of Indexer.v; the [Math.random()] outcomes of an
    [indexDocuments] are the input of its step.

    [mig_step] is the step relation; [mig_steps] its reflexive-transitive
    closure.  The theorems (MigrationProofs.v) show the flag invariant,
    that a run that is not stopped re-embeds and re-indexes every
    document and completes, and what the code does at the edges: a stop
    after the last batch, a batch size of 0, and a second [start] after a
    completed run. *)

From S2P Require Import Prelude VectorMath HnswCore HnswSearch HnswInsert HnswJson Store Indexer.

(** [MigrationStatus]; [error] holds the thrown exception ([e.message]). *)
Record MigrationStatus := mkMigrationStatus {
  total : nat;
  processed : nat;
  lastProcessedId : option string;
  isComplete : bool;
  error : option exn
}.

Definition status_init : MigrationStatus := mkMigrationStatus 0 0 None false None.

Record MigrationManager (Md V S : Type) := mkMigrationManager {
  indexer : Vectoria Md V S;
  targetEmbedder : EmbeddingModel S;
  status : MigrationStatus;
  isRunning : bool;
  shouldStop : bool
}.
Arguments mkMigrationManager {Md V S}.
Arguments indexer {Md V S}.
Arguments targetEmbedder {Md V S}.
Arguments status {Md V S}.
Arguments isRunning {Md V S}.
Arguments shouldStop {Md V S}.

(** The [await]s of a running [start(batchSize)]: on [getAllDocuments()],
    on [resetIndex()], on [embedBatch] of the batch at [i], on
    [indexDocuments] of it, and on the [setTimeout] yield.  [pcount] is
    the local [processedCount]. *)
Inductive MigPC (Md S : Type) :=
  | PC_GetAll (bs : nat)
  | PC_Reset (bs : nat) (allDocs : list (VectorDocument Md S))
  | PC_Embed (bs : nat) (allDocs : list (VectorDocument Md S)) (i pcount : nat)
  | PC_Index (bs : nat) (allDocs : list (VectorDocument Md S)) (i pcount : nat)
  | PC_Yield (bs : nat) (allDocs : list (VectorDocument Md S)) (i pcount : nat).
Arguments PC_GetAll {Md S}.
Arguments PC_Reset {Md S}.
Arguments PC_Embed {Md S}.
Arguments PC_Index {Md S}.
Arguments PC_Yield {Md S}.

Record MigState (Md V S : Type) := mkMigState {
  mgr : MigrationManager Md V S;
  pc : option (MigPC Md S)
}.
Arguments mkMigState {Md V S}.
Arguments mgr {Md V S}.
Arguments pc {Md V S}.

Section Migration.
Context {Md V Num : Type} `{JsNum Num} `{Similarity V Num} `{Float32Vec V Num}.

Abbreviation Mgr := (MigrationManager Md V Num).
Abbreviation W := (MigState Md V Num).
Abbreviation Doc := (VectorDocument Md Num).
Implicit Types (m : Mgr) (w : W).

Definition MigrationManager_new (ix : Vectoria Md V Num) (e : EmbeddingModel Num) : Mgr :=
  mkMigrationManager ix e status_init false false.

Definition set_indexer (ix : Vectoria Md V Num) m : Mgr :=
  mkMigrationManager ix (targetEmbedder m) (status m) (isRunning m) (shouldStop m).
Definition set_status (st : MigrationStatus) m : Mgr :=
  mkMigrationManager (indexer m) (targetEmbedder m) st (isRunning m) (shouldStop m).
Definition set_running (b : bool) m : Mgr :=
  mkMigrationManager (indexer m) (targetEmbedder m) (status m) b (shouldStop m).
Definition set_stop (b : bool) m : Mgr :=
  mkMigrationManager (indexer m) (targetEmbedder m) (status m) (isRunning m) b.

Definition st_total (n : nat) (st : MigrationStatus) : MigrationStatus :=
  mkMigrationStatus n (processed st) (lastProcessedId st) (isComplete st) (error st).
Definition st_processed (n : nat) (st : MigrationStatus) : MigrationStatus :=
  mkMigrationStatus (total st) n (lastProcessedId st) (isComplete st) (error st).
Definition st_last (id : string) (st : MigrationStatus) : MigrationStatus :=
  mkMigrationStatus (total st) (processed st) (Some id) (isComplete st) (error st).
Definition st_complete (st : MigrationStatus) : MigrationStatus :=
  mkMigrationStatus (total st) (processed st) (lastProcessedId st) true (error st).
Definition st_error (e : exn) (st : MigrationStatus) : MigrationStatus :=
  mkMigrationStatus (total st) (processed st) (lastProcessedId st) (isComplete st) (Some e).

(** [allDocs.slice(i, i + batchSize)]. *)
Definition batch_at (bs i : nat) (allDocs : list Doc) : list Doc := take bs (drop i allDocs).

(** [{ ...doc, embedding: newEmbeddings[idx] }]. *)
Definition with_embedding (doc : Doc) (e : option (list Num)) : Doc :=
  mkDoc (doc_id doc) (text doc) (metadata doc) e (createdAt doc).

Definition updated_docs (batch : list Doc) (embs : list (list Num)) : list Doc :=
  imap (λ idx doc, with_embedding doc (embs !! idx)) batch.

(** The end of the [try]: [if (!this.shouldStop) isComplete = true], then
    the [finally]. *)
Definition finish m : W :=
  let st := if shouldStop m then status m else st_complete (status m) in
  mkMigState (set_running false (set_status st m)) None.

(** The [catch]/[finally] of an exception [e]. *)
Definition fail (e : exn) m : W :=
  mkMigState (set_running false (set_status (st_error e (status m)) m)) None.

(** [for (...; i < allDocs.length; ...) { if (this.shouldStop) break;
    ... embedBatch(texts) }]: the loop head at [i]. *)
Definition loop_head (bs : nat) (allDocs : list Doc) (i pcount : nat) m : W :=
  if i <? length allDocs then
    if shouldStop m then finish m else mkMigState m (Some (PC_Embed bs allDocs i pcount))
  else finish m.

(** [start(batchSize)] up to its first [await]. *)
Definition start (bs : nat) m : res W :=
  if isRunning m then Throw MigrationRunning
  else Ok (mkMigState (set_stop false (set_running true m)) (Some (PC_GetAll bs))).

(** [stop()] and [getStatus()]. *)
Definition stop m : Mgr := set_stop true m.
Definition getStatus m : MigrationStatus := status m.

(** The code of [start] from the [await] at [p] to the next one. *)
Definition resume (coins : nat → nat → bool) (p : MigPC Md Num) m : W :=
  match p with
  | PC_GetAll bs =>
      let allDocs := getAll (db (indexer m)) in
      let m1 := set_status (st_total (length allDocs) (status m)) m in
      let ix := (resetIndex (indexer m1)).2 in
      mkMigState (set_indexer ix m1) (Some (PC_Reset bs allDocs))
  | PC_Reset bs allDocs => loop_head bs allDocs 0 0 m
  | PC_Embed bs allDocs i pcount =>
      let batch := batch_at bs i allDocs in
      match embedBatch (targetEmbedder m) (text <$> batch) with
      | Throw e => fail e m
      | Ok embs =>
          let '(r, ix) := indexDocuments (updated_docs batch embs) coins (indexer m) in
          let m1 := set_indexer ix m in
          match r with
          | Throw e => fail e m1
          | Ok _ => mkMigState m1 (Some (PC_Index bs allDocs i pcount))
          end
      end
  | PC_Index bs allDocs i pcount =>
      let batch := batch_at bs i allDocs in
      let pcount' := pcount + length batch in
      let m1 := set_status (st_processed pcount' (status m)) m in
      match last batch with
      | Some d => mkMigState (set_status (st_last (doc_id d) (status m1)) m1)
                    (Some (PC_Yield bs allDocs i pcount'))
      | None => fail (TypeError "batch[batch.length - 1].id") m1
      end
  | PC_Yield bs allDocs i pcount => loop_head bs allDocs (i + bs) pcount m
  end.

(** The steps of the manager: a call of [start], the resumption of a
    suspended [start], or a call of [stop]. *)
Inductive mig_step : W → W → Prop :=
  | ms_start bs w w' : pc w = None → start bs (mgr w) = Ok w' → mig_step w w'
  | ms_resume coins p w : pc w = Some p → mig_step w (resume coins p (mgr w))
  | ms_stop w : mig_step w (mkMigState (stop (mgr w)) (pc w)).

Definition mig_steps : W → W → Prop := rtc mig_step.

(** The resumptions alone: a run that nobody stops or restarts. *)
Inductive mig_run_step : W → W → Prop :=
  | mr_resume coins p w : pc w = Some p → mig_run_step w (resume coins p (mgr w)).
End Migration.
