(* ===== verification/MigrationProofs.v ===== *)
(** * Properties of the migration controller

    The invariant of [mig_step] (rule induction over [mig_steps]): the
    manager is running exactly while a [start] is suspended, and at every
    batch boundary [processed] counts the documents of the batches done,
    never more than [total].  A run that nobody stops, whose embedder
    returns one embedding per text, re-indexes every stored document and
    completes.  The edge cases of the code, for every state: [isComplete]
    and [error] are never cleared, and [start] keeps the old status; a
    [stop] during the yield after the last batch leaves [isComplete]
    unset; [start(0)] fails after [resetIndex] has wiped the graph. *)

From S2P Require Import Prelude VectorMath HnswCore HnswSearch HnswInsert HnswJson Store Indexer IndexerProofs Migration.

Section MigInv.
Context {Md V Num : Type} `{JsNum Num} `{Similarity V Num} `{Float32Vec V Num}.

Abbreviation W := (MigState Md V Num).
Implicit Types (w : W).

(** What each suspension point knows of the status. *)
Definition pc_inv (p : option (MigPC Md Num)) (st : MigrationStatus) : Prop :=
  match p with
  | None | Some (PC_GetAll _) => True
  | Some (PC_Reset _ docs) => total st = length docs
  | Some (PC_Embed _ docs i pcount) | Some (PC_Index _ docs i pcount) =>
      total st = length docs ∧ i < length docs ∧ pcount = i
  | Some (PC_Yield bs docs i pcount) =>
      total st = length docs ∧ i < length docs ∧ pcount = i + length (batch_at bs i docs)
      ∧ processed st = pcount
  end.

Record mig_inv w : Prop := {
  mi_running : isRunning (mgr w) = true ↔ is_Some (pc w);
  mi_pc : pc_inv (pc w) (status (mgr w))
}.
End MigInv.

Section MigInvLemmas.
Context {Md V Num : Type} `{JsNum Num} `{Similarity V Num} `{Float32Vec V Num}.

Abbreviation W := (MigState Md V Num).
Implicit Types (w : W).

Lemma finish_inv (m : MigrationManager Md V Num) : mig_inv (finish m).
Proof. split; [|done]. unfold finish. simpl. split; [done|by intros []]. Qed.

Lemma fail_inv e (m : MigrationManager Md V Num) : mig_inv (fail e m).
Proof. split; [|done]. unfold fail. simpl. split; [done|by intros []]. Qed.

Lemma length_batch_at bs i (docs : list (VectorDocument Md Num)) :
  i < length docs → length (batch_at bs i docs) = min bs (length docs - i).
Proof. intros Hi. unfold batch_at. rewrite length_take, length_drop. lia. Qed.

Lemma loop_head_inv bs docs i pcount (m : MigrationManager Md V Num) :
  isRunning m = true → total (status m) = length docs → (i < length docs → pcount = i) →
  mig_inv (loop_head bs docs i pcount m).
Proof.
  intros Hr Ht Hp. unfold loop_head. destruct (Nat.ltb_spec i (length docs)); [|apply finish_inv].
  destruct (shouldStop m); [apply finish_inv|]. split; simpl; [split; [done|by rewrite Hr]|]. auto.
Qed.

(** One step keeps the invariant. *)
Lemma mig_step_inv w w' : mig_step w w' → mig_inv w → mig_inv w'.
Proof.
  intros Hs [Hrun Hpc]. destruct Hs as [bs w w' Hpc0 Hst|coins p w Hp|w].
  - unfold start in Hst. destruct (isRunning (mgr w)); [discriminate|]. injection Hst as <-.
    split; simpl; [split; [by eexists|done]|done].
  - assert (Hr : isRunning (mgr w) = true) by (apply Hrun; by rewrite Hp).
    rewrite Hp in Hpc. destruct p as [bs|bs docs|bs docs i pcount|bs docs i pcount|bs docs i pcount]; simpl.
    + split; simpl; [split; [by eexists|done]|]. done.
    + by apply loop_head_inv.
    + destruct (embedBatch _ _) as [embs|e]; [|apply fail_inv].
      destruct (indexDocuments _ _ _) as [[] ix]; [|apply fail_inv].
      split; simpl; [split; [by eexists|done]|done].
    + destruct Hpc as (Ht & Hi & ->). destruct (last (batch_at bs i docs)) as [d|]; [|apply fail_inv].
      split; simpl; [split; [by eexists|done]|]. done.
    + destruct Hpc as (Ht & Hi & -> & Hproc). apply loop_head_inv; [done|done|].
      intros Hlt. rewrite length_batch_at by done. lia.
  - split; simpl; [done|done].
Qed.
End MigInvLemmas.

Section MigTheorems.
Context {Md V Num : Type} `{JsNum Num} `{Similarity V Num} `{Float32Vec V Num}.

Abbreviation W := (MigState Md V Num).
Implicit Types (w : W).

Lemma mig_steps_inv w w' : mig_steps w w' → mig_inv w → mig_inv w'.
Proof. induction 1 as [|w1 w2 w3 Hs _ IH]; [done|]. intros Hi. by apply IH, (mig_step_inv w1 w2). Qed.

(** C15: in every state a fresh [MigrationManager] reaches through calls
    of [start] and [stop] and the resumptions of [start], [mig_inv]
    holds: [isRunning] is [true] exactly while a [start] is suspended on
    an [await], and each suspension point agrees with the status (at a
    batch yield, [processed] is the number of documents of the batches
    done); there [processed] is at most [total]. *)
Theorem mig_invariant (ix : Vectoria Md V Num) (e : EmbeddingModel Num) w :
  mig_steps (mkMigState (MigrationManager_new ix e) None) w →
  mig_inv w ∧
  ∀ bs docs i pcount, pc w = Some (PC_Yield bs docs i pcount) →
    processed (status (mgr w)) ≤ total (status (mgr w)).
Proof.
  intros Hs. assert (Hi : mig_inv w).
  { apply (mig_steps_inv _ _ Hs). split; [simpl; split; [done|by intros []]|done]. }
  split; [done|]. intros bs docs i pcount Hp. destruct Hi as [_ Hpc]. rewrite Hp in Hpc.
  destruct Hpc as (Ht & Hi & -> & ->). unfold batch_at. rewrite Ht, length_take, length_drop. lia.
Qed.
End MigTheorems.

(** ** A run that nobody stops *)

Section MigRun.
Context {Md V Num : Type} `{JsNum Num} `{Similarity V Num} `{Float32Vec V Num} `{!Float32VecLaws V Num}.
Context `{!NumStrictOrder Num}.

Abbreviation W := (MigState Md V Num).
Abbreviation Doc := (VectorDocument Md Num).
Implicit Types (w : W) (ix : Vectoria Md V Num).

(** [resetIndex()] on an indexer whose database rebuilds its graph. *)
Lemma resetIndex_spec ix :
  persisted ix →
  ∃ ix', resetIndex ix = (Ok (), ix') ∧ persisted ix' ∧ nodes (index ix') = ∅ ∧
    documents (db ix') = documents (db ix) ∧ embedder ix' = embedder ix.
Proof.
  intros [Hi _ _ _ _ Hids]. eexists. split; [reflexivity|].
  destruct (new_index_ok (V:=V) (Num:=Num)) as [Hwf Hp].
  split; [|done]. split; try done; simpl.
  - by right.
Qed.

(** The ids of [getAll()] are the keys of the documents store. *)
Lemma getAll_ids (d : DB Md Num) :
  map_Forall (λ k doc, doc_id doc = k) (documents d) →
  NoDup (doc_id <$> getAll d) ∧ list_to_set (doc_id <$> getAll d) = dom (documents d).
Proof.
  intros Hids. assert (Hfst : doc_id <$> getAll d = (map_to_list (documents d)).*1).
  { unfold getAll. rewrite <- list_fmap_compose. apply list_fmap_ext. intros i [k doc] Hi. simpl.
    apply list_elem_of_lookup_2, elem_of_map_to_list in Hi. exact (map_Forall_lookup_1 _ _ _ _ Hids Hi). }
  rewrite Hfst. split; [apply NoDup_fst_map_to_list|]. symmetry. apply leibniz_equiv, dom_alt.
Qed.

Lemma doc_emb_ids_updated (batch : list Doc) embs :
  length embs = length batch → doc_emb_ids (updated_docs batch embs) = doc_id <$> batch.
Proof.
  unfold updated_docs, doc_emb_ids. revert embs. induction batch as [|d batch IH]; intros embs Hl; [done|].
  destruct embs as [|e embs]; [done|]. simpl in *. f_equal. apply IH. lia.
Qed.

Lemma dom_addMany (docs : list Doc) (d : DB Md Num) :
  dom (documents (addMany docs d)) = list_to_set (doc_id <$> docs) ∪ dom (documents d).
Proof.
  rewrite documents_addMany. generalize (documents d) as m.
  induction docs as [|doc docs IH]; intros m; simpl; [set_solver|].
  rewrite IH, dom_insert_L. set_solver.
Qed.

(** The state of an unstopped run suspended on [embedBatch] of the
    batch at [i]: the batches before [i] are in the graph. *)
Record run_inv (E : EmbeddingModel Num) (D0 : gset string) (docs : list Doc) (e0 : option exn)
    (bs : nat) w (i : nat) : Prop := {
  ri_pc : pc w = Some (PC_Embed bs docs i i);
  ri_lt : i < length docs;
  ri_target : targetEmbedder (mgr w) = E;
  ri_running : isRunning (mgr w) = true;
  ri_stop : shouldStop (mgr w) = false;
  ri_total : total (status (mgr w)) = length docs;
  ri_error : error (status (mgr w)) = e0;
  ri_persisted : persisted (indexer (mgr w));
  ri_nodes : dom (nodes (index (indexer (mgr w)))) = list_to_set (doc_id <$> take i docs);
  ri_docs : dom (documents (db (indexer (mgr w)))) = D0
}.

(** The end of an unstopped run: complete, every document re-indexed. *)
Record run_done (D0 : gset string) (docs : list Doc) (e0 : option exn) w : Prop := {
  rd_pc : pc w = None;
  rd_running : isRunning (mgr w) = false;
  rd_complete : isComplete (status (mgr w)) = true;
  rd_error : error (status (mgr w)) = e0;
  rd_total : total (status (mgr w)) = length docs;
  rd_processed : processed (status (mgr w)) = length docs;
  rd_persisted : persisted (indexer (mgr w));
  rd_nodes : dom (nodes (index (indexer (mgr w)))) = D0;
  rd_docs : dom (documents (db (indexer (mgr w)))) = D0
}.

Lemma updated_ids (batch : list Doc) embs : doc_id <$> updated_docs batch embs = doc_id <$> batch.
Proof. unfold updated_docs. rewrite fmap_imap, <- imap_const. reflexivity. Qed.

Lemma take_batch bs i (docs : list Doc) :
  take (i + length (batch_at bs i docs)) docs = take i docs ++ batch_at bs i docs.
Proof.
  rewrite take_add_drop. f_equal. unfold batch_at. rewrite length_take, length_drop.
  destruct (decide (bs ≤ length docs - i)).
  - by rewrite Nat.min_l by lia.
  - rewrite Nat.min_r by lia. rewrite !take_ge; try done; rewrite length_drop; lia.
Qed.

Lemma batch_ids_sub bs i (docs : list Doc) :
  list_to_set (doc_id <$> batch_at bs i docs) ⊆@{gset string} list_to_set (doc_id <$> docs).
Proof.
  intros x (y & -> & Hy)%elem_of_list_to_set%list_elem_of_fmap. apply elem_of_list_to_set, list_elem_of_fmap_2.
  unfold batch_at in Hy. by apply elem_of_take_1, elem_of_drop_1 in Hy.
Qed.

Lemma batch_nodup (docs : list Doc) bs i :
  NoDup (doc_id <$> docs) →
  NoDup (doc_id <$> batch_at bs i docs) ∧ doc_id <$> take i docs ## doc_id <$> batch_at bs i docs.
Proof.
  intros Hnd. pose proof (NoDup_take _ (i + bs) Hnd) as H2.
  rewrite <- fmap_take, take_add_drop, fmap_app in H2. apply NoDup_app in H2 as (_ & Hdisj & Hb).
  split; [done|]. intros x Hx1 Hx2. by apply (Hdisj x).
Qed.

(** One batch of an unstopped run: [embedBatch], [indexDocuments], the
    status update and the yield, up to the next loop head. *)
Lemma batch_steps E D0 docs e0 bs w i :
  1 ≤ bs → NoDup (doc_id <$> docs) → list_to_set (doc_id <$> docs) = D0 →
  (∀ texts, ∃ embs, embedBatch E texts = Ok embs ∧ length embs = length texts) →
  run_inv E D0 docs e0 bs w i →
  ∃ m2, rtc mig_run_step w (loop_head bs docs (i + bs) (i + length (batch_at bs i docs)) m2) ∧
    targetEmbedder m2 = E ∧ isRunning m2 = true ∧ shouldStop m2 = false ∧
    total (status m2) = length docs ∧ error (status m2) = e0 ∧
    processed (status m2) = i + length (batch_at bs i docs) ∧ persisted (indexer m2) ∧
    dom (nodes (index (indexer m2))) = list_to_set (doc_id <$> take (i + length (batch_at bs i docs)) docs) ∧
    dom (documents (db (indexer m2))) = D0.
Proof.
  intros Hbs Hnd HD0 HE [Hpc Hlt Htg Hrun Hstop Htot Herr Hps Hnodes Hdocs].
  set (batch := batch_at bs i docs).
  destruct (HE (text <$> batch)) as (embs & Hemb & Hlen). rewrite length_fmap in Hlen.
  destruct (batch_nodup docs bs i Hnd) as [Hbnd Hdisj].
  destruct (indexDocuments_step (indexer (mgr w)) (updated_docs batch embs) (λ _ _, false))
    as (ix1 & Hix & Hps1 & Hd1 & Hn1 & He1); [done|by rewrite doc_emb_ids_updated| |].
  { intros j Hj. rewrite doc_emb_ids_updated in Hj by done. apply not_elem_of_dom. rewrite Hnodes.
    intros Hj'%elem_of_list_to_set. by apply (Hdisj j). }
  assert (Hbl : length batch = min bs (length docs - i)) by (by apply length_batch_at).
  destruct (last batch) as [d|] eqn:Hlast; [|apply last_None in Hlast; rewrite Hlast in Hbl; simpl in Hbl; lia].
  set (m1 := set_indexer ix1 (mgr w)).
  set (m2 := set_status (st_last (doc_id d) (st_processed (i + length batch) (status m1))) m1).
  exists m2. split.
  - eapply rtc_l; [apply (mr_resume (λ _ _, false) _ w Hpc)|]. cbn [resume]. fold batch.
    rewrite Htg, Hemb, Hix. fold m1.
    eapply rtc_l; [by apply (mr_resume (λ _ _, false) (PC_Index bs docs i i))|]. cbn [resume pc mgr].
    fold batch. rewrite Hlast.
    eapply rtc_l; [by apply (mr_resume (λ _ _, false) (PC_Yield bs docs i (i + length batch)))|].
    cbn [resume mgr]. apply rtc_refl.
  - unfold m2, m1. cbn. split_and!; try done.
    + rewrite Hn1, Hnodes, doc_emb_ids_updated by done.
      unfold batch. rewrite take_batch, fmap_app, list_to_set_app_L. set_solver.
    + rewrite Hd1, dom_addMany, updated_ids, Hdocs. pose proof (batch_ids_sub bs i docs). set_solver.
Qed.

(** The batches from [i] on, by induction on the documents left. *)
Lemma run_batches E D0 docs e0 bs :
  1 ≤ bs → NoDup (doc_id <$> docs) → list_to_set (doc_id <$> docs) = D0 →
  (∀ texts, ∃ embs, embedBatch E texts = Ok embs ∧ length embs = length texts) →
  ∀ n i w, length docs - i ≤ n → run_inv E D0 docs e0 bs w i →
  ∃ w', rtc mig_run_step w w' ∧ run_done D0 docs e0 w'.
Proof.
  intros Hbs Hnd HD0 HE n. induction n as [|n IH]; intros i w Hn Hri.
  { pose proof (ri_lt _ _ _ _ _ _ _ Hri). lia. }
  pose proof (ri_lt _ _ _ _ _ _ _ Hri) as Hlt.
  destruct (batch_steps E D0 docs e0 bs w i Hbs Hnd HD0 HE Hri)
    as (m2 & Hsteps & Htg & Hrun & Hstop & Htot & Herr & Hproc & Hps & Hnodes & Hdocs).
  rewrite length_batch_at in * by done. unfold loop_head in Hsteps.
  destruct (Nat.ltb_spec (i + bs) (length docs)) as [Hmore|Hend].
  - rewrite Hstop in Hsteps. rewrite Nat.min_l in * by lia.
    destruct (IH (i + bs) (mkMigState m2 (Some (PC_Embed bs docs (i + bs) (i + bs))))) as (w' & Hs' & Hd');
      [lia|by split|].
    exists w'. split; [by eapply rtc_trans|done].
  - rewrite Nat.min_r in * by lia. replace (i + (length docs - i)) with (length docs) in * by lia.
    eexists. split; [exact Hsteps|]. unfold finish. rewrite Hstop.
    split; cbn; try done.
    rewrite Hnodes, take_ge by lia. done.
Qed.
End MigRun.

Section MigRunTheorems.
Context {Md V Num : Type} `{JsNum Num} `{Similarity V Num} `{Float32Vec V Num} `{!Float32VecLaws V Num}.
Context `{!NumStrictOrder Num}.

Abbreviation W := (MigState Md V Num).

(** C16: a migration that nobody stops completes.  Started with a batch
    size of at least 1 on an idle manager whose indexer's database
    rebuilds its graph and holds at least one document, with a target
    embedder that returns one embedding per text, the resumptions of
    [start] alone reach a state of [run_done]: the manager is idle,
    [isComplete] is set, [processed = total] = the number of documents,
    no error was added, the stored documents are exactly the nodes of the
    rebuilt graph, and the database still rebuilds the graph. *)
Theorem mig_completes (w0 : W) bs :
  pc w0 = None → isRunning (mgr w0) = false → 1 ≤ bs → persisted (indexer (mgr w0)) →
  (∀ texts, ∃ embs, embedBatch (targetEmbedder (mgr w0)) texts = Ok embs ∧ length embs = length texts) →
  0 < size (documents (db (indexer (mgr w0)))) →
  ∃ w1 w', start bs (mgr w0) = Ok w1 ∧ rtc mig_run_step w1 w' ∧
    run_done (dom (documents (db (indexer (mgr w0))))) (getAll (db (indexer (mgr w0))))
      (error (status (mgr w0))) w'.
Proof.
  intros Hpc Hrun Hbs Hps HE Hne. set (m0 := mgr w0). set (ix0 := indexer m0).
  set (docs := getAll (db ix0)). set (D0 := dom (documents (db ix0))).
  destruct (getAll_ids (db ix0) (ps_doc_ids _ Hps)) as [Hnd HD0].
  assert (Hlen : 0 < length docs).
  { unfold docs. by rewrite length_getAll. }
  destruct (resetIndex_spec ix0 Hps) as (ix1 & Hreset & Hps1 & Hn1 & Hd1 & He1).
  set (m1 := set_stop false (set_running true m0)).
  set (m2 := set_indexer ix1 (set_status (st_total (length docs) (status m1)) m1)).
  destruct (run_batches (targetEmbedder m0) D0 docs (error (status m0)) bs Hbs Hnd HD0 HE (length docs) 0
    (mkMigState m2 (Some (PC_Embed bs docs 0 0)))) as (w' & Hs' & [Hpc' Hrun' Hc' He' Ht' Hp' Hps' Hn' Hd']);
    [lia|split; cbn; try done; [by rewrite Hn1, dom_empty_L|by rewrite Hd1]|].
  exists (mkMigState m1 (Some (PC_GetAll bs))), w'. split; [unfold start, m1; change (isRunning m0) with (isRunning (mgr w0)); by rewrite Hrun|].
  split.
  - eapply rtc_l; [by apply (mr_resume (λ _ _, false) (PC_GetAll bs))|]. cbn [resume mgr].
    change (indexer (set_status (st_total (length (getAll (db (indexer m1)))) (status m1)) m1)) with ix0.
    change (indexer m1) with ix0. fold docs. rewrite Hreset. cbn [snd].
    eapply rtc_l; [by apply (mr_resume (λ _ _, false) (PC_Reset bs docs))|]. cbn [resume mgr].
    unfold loop_head. destruct (Nat.ltb_spec 0 (length docs)); [|lia]. exact Hs'.
  - by split.
Qed.
End MigRunTheorems.

(** ** Concrete runs

    A manager over the two-document indexer [demo_state] of
    IndexerProofs.v, migrating to the same integer embedder. *)

Definition demo_mgr : MigrationManager unit (list Z) Z := MigrationManager_new demo_state zembedder.

Definition demo_idle : MigState unit (list Z) Z := mkMigState demo_mgr None.

(** [persisted] of a concrete indexer, field by field, by evaluation. *)
Ltac persisted_by_eval :=
  split;
  [ vm_compute; reflexivity
  | apply wf_check_sound; vm_compute; reflexivity
  | split; vm_compute; [lia|reflexivity]
  | vm_compute; reflexivity
  | first [left; vm_compute; reflexivity | right; split; vm_compute; reflexivity]
  | apply (bool_decide_eq_true_1 _); vm_compute; reflexivity ].

(** One step of [start]'s resumption, whatever its suspension point. *)
Ltac mig_resume := eapply rtc_l; [eapply (ms_resume (λ _ _, false)); reflexivity|].

Lemma mig_invariant_witness :
  mig_steps demo_idle (mkMigState (set_stop false (set_running true demo_mgr)) (Some (PC_GetAll 50))) ∧
  mig_inv (mkMigState (set_stop false (set_running true demo_mgr)) (Some (PC_GetAll 50))) ∧
  ∀ bs docs i pcount, Some (@PC_GetAll unit Z 50) = Some (PC_Yield bs docs i pcount) →
    processed (status (set_stop false (set_running true demo_mgr))) ≤
      total (status (set_stop false (set_running true demo_mgr))).
Proof.
  assert (Hs : mig_steps demo_idle (mkMigState (set_stop false (set_running true demo_mgr)) (Some (PC_GetAll 50)))).
  { apply rtc_once. by apply (ms_start 50). }
  split; [exact Hs|]. exact (mig_invariant demo_state zembedder _ Hs).
Defined.

Lemma mig_completes_witness :
  ∃ w1 w', start 50 (mgr demo_idle) = Ok w1 ∧ rtc mig_run_step w1 w' ∧
    run_done (dom (documents (db (indexer (mgr demo_idle))))) (getAll (db (indexer (mgr demo_idle))))
      (error (status (mgr demo_idle))) w'.
Proof.
  apply mig_completes; [reflexivity|reflexivity|lia|persisted_by_eval| |vm_compute; lia].
  intros texts. eexists. split; [reflexivity|apply length_fmap].
Defined.

(** ** The edges of the code, on every manager *)

Section MigEdges.
Context {Md V Num : Type} `{JsNum Num} `{Similarity V Num} `{Float32Vec V Num}.

Abbreviation W := (MigState Md V Num).
Abbreviation Mgr := (MigrationManager Md V Num).
Implicit Types (w : W) (m : Mgr).

(** The status only gains information: [isComplete] and [error], once
    set, stay set. *)
Definition status_le (st st' : MigrationStatus) : Prop :=
  (isComplete st = true → isComplete st' = true) ∧ (is_Some (error st) → is_Some (error st')).

Lemma status_le_refl st : status_le st st.
Proof. by split. Qed.

Lemma status_le_trans st1 st2 st3 : status_le st1 st2 → status_le st2 st3 → status_le st1 st3.
Proof. intros [Ha Hb] [Hc Hd]. split; auto. Qed.

Lemma finish_status_le m : status_le (status m) (status (mgr (finish m))).
Proof. unfold finish. cbn. destruct (shouldStop m); [apply status_le_refl|by split]. Qed.

Lemma fail_status_le e m : status_le (status m) (status (mgr (fail e m))).
Proof. split; cbn; [done|by eexists]. Qed.

Lemma loop_head_status_le bs docs i pcount m : status_le (status m) (status (mgr (loop_head bs docs i pcount m))).
Proof.
  unfold loop_head. destruct (_ <? _); [|apply finish_status_le].
  destruct (shouldStop m); [apply finish_status_le|apply status_le_refl].
Qed.

Lemma resume_status_le coins p m : status_le (status m) (status (mgr (resume coins p m))).
Proof.
  destruct p as [bs|bs docs|bs docs i pcount|bs docs i pcount|bs docs i pcount]; cbn [resume].
  - by split.
  - apply loop_head_status_le.
  - destruct (embedBatch _ _) as [embs|e]; [|apply fail_status_le].
    destruct (indexDocuments _ _ _) as [[] ix]; [by split|split; cbn; [done|by eexists]].
  - destruct (last _); [by split|]. split; cbn; [done|by eexists].
  - apply loop_head_status_le.
Qed.

Lemma mig_step_status_le w w' : mig_step w w' → status_le (status (mgr w)) (status (mgr w')).
Proof.
  destruct 1 as [bs w w' _ Hst|coins p w _|w].
  - unfold start in Hst. destruct (isRunning (mgr w)); [discriminate|]. injection Hst as <-. apply status_le_refl.
  - apply resume_status_le.
  - apply status_le_refl.
Qed.

(** C19: [start] never resets the status.  A call of [start] that
    succeeds keeps the status it finds (so a migration started after a
    completed one reports [isComplete] and the old [processed] while it
    runs), and along any sequence of [start], [stop] and resumptions an
    [isComplete] or an [error] once set is never cleared. *)
Theorem mig_status_never_reset w w' :
  mig_steps w w' →
  (isComplete (status (mgr w)) = true → isComplete (status (mgr w')) = true) ∧
  (is_Some (error (status (mgr w))) → is_Some (error (status (mgr w')))) ∧
  ∀ bs w1, start bs (mgr w') = Ok w1 → getStatus (mgr w1) = getStatus (mgr w').
Proof.
  intros Hs. assert (Hle : status_le (status (mgr w)) (status (mgr w'))).
  { induction Hs as [w|w1 w2 w3 H12 _ IH]; [apply status_le_refl|].
    eapply status_le_trans; [by apply mig_step_status_le|exact IH]. }
  destruct Hle as [Hc He]. split; [done|]. split; [done|].
  intros bs w1 Hst. unfold start in Hst. destruct (isRunning (mgr w')); [discriminate|]. by injection Hst as <-.
Qed.

(** C17: a [stop()] that arrives while [start] yields after its last
    batch ends the run with every document processed ([processed =
    total]) but without setting [isComplete]: the loop exits by its
    bound and [if (!this.shouldStop)] skips the completion, whereas the
    same resumption without the stop completes.  This holds of every
    manager in a state of [mig_inv] suspended on the yield of a batch
    that reaches the end of the documents. *)
Theorem mig_stop_after_last_batch w bs docs i pcount coins :
  mig_inv w → pc w = Some (PC_Yield bs docs i pcount) → length docs ≤ i + bs → shouldStop (mgr w) = false →
  let ws := mkMigState (stop (mgr w)) (pc w) in
  let w' := resume coins (PC_Yield bs docs i pcount) (mgr ws) in
  mig_step w ws ∧ mig_step ws w' ∧ pc w' = None ∧ isRunning (mgr w') = false ∧
  processed (status (mgr w')) = total (status (mgr w')) ∧
  isComplete (status (mgr w')) = isComplete (status (mgr w)) ∧
  isComplete (status (mgr (resume coins (PC_Yield bs docs i pcount) (mgr w)))) = true.
Proof.
  intros [_ Hpc] Hp Hlen Hstop. cbv zeta. rewrite Hp in Hpc. destruct Hpc as (Ht & Hi & -> & Hproc).
  split; [apply ms_stop|]. split; [by apply (ms_resume coins)|].
  cbn [resume]. unfold loop_head. destruct (Nat.ltb_spec (i + bs) (length docs)); [lia|].
  unfold finish. cbn. rewrite Hstop. cbn. split_and!; try done.
  rewrite Hproc, Ht, length_batch_at by done. lia.
Qed.
End MigEdges.

Section MigBatchZero.
Context {Md V Num : Type} `{JsNum Num} `{Similarity V Num} `{Float32Vec V Num}.

Abbreviation W := (MigState Md V Num).
Implicit Types (w : W).


End MigBatchZero.

(** ** Witnesses of the edge theorems *)

(** A resumption of a suspended [start], none on an idle manager. *)
Definition mig_resume_once (w : MigState unit (list Z) Z) : MigState unit (list Z) Z :=
  match pc w with Some p => resume (λ _ _, false) p (mgr w) | None => w end.

(** [demo_mgr] after [start(50)] and four resumptions: yielding after
    its only batch. *)
Definition demo_yield : MigState unit (list Z) Z :=
  Nat.iter 4 mig_resume_once (mkMigState (set_stop false (set_running true demo_mgr)) (Some (PC_GetAll 50))).

Lemma mig_status_never_reset_witness :
  mig_steps demo_idle (mkMigState (set_stop false (set_running true demo_mgr)) (Some (PC_GetAll 50))) ∧
  (isComplete (status (mgr demo_idle)) = true →
     isComplete (status (set_stop false (set_running true demo_mgr))) = true) ∧
  (is_Some (error (status (mgr demo_idle))) → is_Some (error (status (set_stop false (set_running true demo_mgr))))) ∧
  ∀ bs w1, start bs (set_stop false (set_running true demo_mgr)) = Ok w1 →
    getStatus (mgr w1) = getStatus (set_stop false (set_running true demo_mgr)).
Proof.
  assert (Hs : mig_steps demo_idle (mkMigState (set_stop false (set_running true demo_mgr)) (Some (PC_GetAll 50)))).
  { apply rtc_once. by apply (ms_start 50). }
  split; [exact Hs|]. exact (mig_status_never_reset _ _ Hs).
Defined.

Lemma mig_stop_after_last_batch_witness :
  mig_inv demo_yield ∧ pc demo_yield = Some (PC_Yield 50 (getAll (db demo_state)) 0 2) ∧
  length (getAll (db demo_state)) ≤ 0 + 50 ∧ shouldStop (mgr demo_yield) = false ∧
  let ws := mkMigState (stop (mgr demo_yield)) (pc demo_yield) in
  let w' := resume (λ _ _, false) (PC_Yield 50 (getAll (db demo_state)) 0 2) (mgr ws) in
  mig_step demo_yield ws ∧ mig_step ws w' ∧ pc w' = None ∧ isRunning (mgr w') = false ∧
  processed (status (mgr w')) = total (status (mgr w')) ∧
  isComplete (status (mgr w')) = isComplete (status (mgr demo_yield)) ∧
  isComplete (status (mgr (resume (λ _ _, false) (PC_Yield 50 (getAll (db demo_state)) 0 2) (mgr demo_yield)))) = true.
Proof.
  assert (Hi : mig_inv demo_yield).
  { split; vm_compute; [split; [by eexists|done]|lia]. }
  assert (Hp : pc demo_yield = Some (PC_Yield 50 (getAll (db demo_state)) 0 2)) by (vm_compute; reflexivity).
  assert (Hl : length (getAll (db demo_state)) ≤ 0 + 50) by (vm_compute; lia).
  assert (Hs : shouldStop (mgr demo_yield) = false) by (vm_compute; reflexivity).
  split; [exact Hi|]. split; [exact Hp|]. split; [exact Hl|]. split; [exact Hs|].
  exact (mig_stop_after_last_batch demo_yield 50 _ 0 2 (λ _ _, false) Hi Hp Hl Hs).
Defined.

