(* ===== verification/Dispatch.v ===== *)
(** * The service worker's request dispatch

    sw.ts's global state and its [message] handler.  The global state is
    the variable [indexer], the variable [migrationManager], and the
    objects they reach: the [Vectoria] objects created so far (the first
    at start-up, one more per [CONFIGURE]) and the [MigrationManager]s
    created so far (one per [MIGRATE_START]).  A manager keeps a
    reference to the [Vectoria] object it was created with, so both are
    addressed: [objs] and [mgrs] are heaps indexed by allocation order.
    All [Vectoria] objects open the same IndexedDB database
    ([vectoria-db]), so the database [idb] is a single store that every
    object reads and writes.

    A handler runs in one step: the indexer methods it awaits are the
    atomic methods of Indexer.v.  A started migration runs in the
    background ([start()] is not awaited): each resumption of a manager
    is a step of its own, interleaved with the handlers ([sw_step]).
    [Date.now()], [crypto.randomUUID()] and [Math.random()] are inputs of
    a step ([Env]); the embedders' constructors ([OpenAIEmbedder],
    [TransformersEmbedder]) are parameters.

    The facts that follow from one run of the handler are proved here:
    [MIGRATE_START] never refuses (C21), the client rejects exactly the
    caught exceptions, and [MIGRATE_STOP] without a migration
    posts a result; the properties of runs are in
    DispatchProofs.v. *)

From S2P Require Import Prelude VectorMath HnswCore HnswSearch HnswInsert HnswJson Store Indexer Migration.

(** [payload.target] / a [CONFIGURE] payload: [type === 'openai'] with
    its [openai] fields, or anything else with [local?.modelName]. *)
Inductive EmbedderChoice :=
  | EC_OpenAI (apiKey endpoint modelName : string)
  | EC_Local (modelName : option string).

(** [event.data]: [{type, payload}]; an unrecognised [type] is kept. *)
Inductive Msg (Md : Type) :=
  | ADD_DOC (text : string)
  | BATCH_ADD (items : list (string * option Md))
  | SEARCH (query : string) (useBruteForce : bool)
  | GET_ALL
  | CLEAR
  | CONFIGURE (c : EmbedderChoice)
  | MIGRATE_START (target : EmbedderChoice)
  | MIGRATE_STATUS
  | MIGRATE_STOP
  | UNKNOWN (ty : string).
Arguments ADD_DOC {Md}.
Arguments BATCH_ADD {Md}.
Arguments SEARCH {Md}.
Arguments GET_ALL {Md}.
Arguments CLEAR {Md}.
Arguments CONFIGURE {Md}.
Arguments MIGRATE_START {Md}.
Arguments MIGRATE_STATUS {Md}.
Arguments MIGRATE_STOP {Md}.
Arguments UNKNOWN {Md}.

(** The values [result] takes. *)
Inductive Result (Md S : Type) :=
  | R_Doc (d : VectorDocument Md S)
  | R_Docs (ds : list (VectorDocument Md S))
  | R_Search (rs : list (SearchResult Md S))
  | R_Undefined
  | R_Success                   (** [{ success: true }] *)
  | R_Started                   (** [{ started: true }] *)
  | R_NotStarted                (** [{ status: 'not_started' }] *)
  | R_Status (st : MigrationStatus)
  | R_Stopped                   (** [{ stopped: true }] *)
  | R_ErrorField (msg : string). (** [{ error: 'No migration running' }] *)
Arguments R_Doc {Md S}.
Arguments R_Docs {Md S}.
Arguments R_Search {Md S}.
Arguments R_Undefined {Md S}.
Arguments R_Success {Md S}.
Arguments R_Started {Md S}.
Arguments R_NotStarted {Md S}.
Arguments R_Status {Md S}.
Arguments R_Stopped {Md S}.
Arguments R_ErrorField {Md S}.

(** [port.postMessage({ result })] or [port.postMessage({ error })]. *)
Inductive Reply (Md S : Type) :=
  | PostResult (r : Result Md S)
  | PostError (msg : string).
Arguments PostResult {Md S}.
Arguments PostError {Md S}.

(** [error.message] of the exceptions the handler catches. *)
Definition message (e : exn) : string :=
  match e with
  | DuplicateId id => "Node with id " ++ id ++ " already exists"
  | TypeError what => "Cannot read properties of undefined (" ++ what ++ ")"
  | EmbedderError msg => msg
  | MigrationRunning => "Migration already running"
  | UnknownMessage ty => "Unknown message type: " ++ ty
  | JsError msg => msg
  | OutOfFuel => "out of fuel"
  end.

(** [String(error)] of an exception whose message is empty: its name. *)
Definition error_name (e : exn) : string :=
  match e with TypeError _ => "TypeError" | _ => "Error" end.

(** [error.message || String(error)]. *)
Definition post_error (e : exn) : string :=
  let m := message e in if bool_decide (m = "") then error_name e else m.

(** The inputs of one handler run. *)
Record Env := mkEnv {
  ev_id : string;                   (** [crypto.randomUUID()] of [addDocument] *)
  ev_now : Z;                       (** [Date.now()] of [addDocument] *)
  ev_ids : nat → string;            (** the ids of [addDocuments]' items *)
  ev_nows : nat → Z;                (** their timestamps *)
  ev_coins : nat → nat → bool       (** the [Math.random()] outcomes of the insertions *)
}.

Record SW (Md V S : Type) := mkSW {
  idb : DB Md S;
  objs : list (Vectoria Md V S);
  cur : nat;
  mgrs : list (nat * MigState Md V S);
  current : option nat
}.
Arguments mkSW {Md V S}.
Arguments idb {Md V S}.
Arguments objs {Md V S}.
Arguments cur {Md V S}.
Arguments mgrs {Md V S}.
Arguments current {Md V S}.

(** The client side, [IndexerClient.sendMessage]: the promise settles on
    the reply, [if (event.data.error) reject(event.data.error) else
    resolve(event.data.result)]. *)
Inductive Settled (Md S : Type) :=
  | Resolved (r : Result Md S)
  | Rejected (msg : string).
Arguments Resolved {Md S}.
Arguments Rejected {Md S}.

Definition settle {Md S} (r : Reply Md S) : Settled Md S :=
  match r with
  | PostResult x => Resolved x
  | PostError m => if bool_decide (m = "") then Resolved R_Undefined else Rejected m
  end.

Section Dispatch.
Context {Md V Num : Type} `{JsNum Num} `{Similarity V Num} `{Float32Vec V Num}.
Context (cosineSimilarity : list Num → list Num → Num) (md_empty : Md).
(** [new OpenAIEmbedder({apiKey, endpoint, modelName})] and the local
    [TransformersEmbedder] of a model name. *)
Context (openai : string → string → string → EmbeddingModel Num) (local : string → EmbeddingModel Num).

Abbreviation St := (Vectoria Md V Num).
Abbreviation G := (SW Md V Num).
Abbreviation Res := (Result Md Num).
Implicit Types (s : G) (v : St).

Definition default_model : string := "Xenova/paraphrase-multilingual-MiniLM-L12-v2".

(** [new Vectoria(...)] of the start-up code and of [CONFIGURE]. *)
Definition make_indexer (c : EmbedderChoice) : res St :=
  match c with
  | EC_OpenAI k e n => Vectoria_new (local default_model) (mkIndexerConfig None (Some (openai k e n)) None)
  | EC_Local n =>
      let name := match n with Some x => if bool_decide (x = "") then default_model else x | None => default_model end in
      Vectoria_new (local name) (mkIndexerConfig (Some true) None None)
  end.

(** The state at start-up, over the database as the previous sessions
    left it. *)
Definition sw_init (d : DB Md Num) : res G :=
  v ← make_indexer (EC_Local (Some default_model));
  Ok (mkSW d [v] 0 [] None).

Definition set_objs (os : list St) s : G := mkSW (idb s) os (cur s) (mgrs s) (current s).
Definition set_idb (d : DB Md Num) s : G := mkSW d (objs s) (cur s) (mgrs s) (current s).
Definition set_mgrs (ms : list (nat * MigState Md V Num)) s : G := mkSW (idb s) (objs s) (cur s) ms (current s).

(** The object at address [a], seeing the shared database. *)
Definition load (a : nat) s : res St :=
  match objs s !! a with
  | Some v => Ok (set_db (idb s) v)
  | None => Throw (TypeError "indexer")
  end.

(** Write an object back: its fields at [a], its database to [idb]. *)
Definition store (a : nat) v s : G := set_idb (db v) (set_objs (<[a := v]> (objs s)) s).

(** A method call on the object at [a]. *)
Definition call {A} (a : nat) (f : exc St A) s : res A * G :=
  match load a s with
  | Throw e => (Throw e, s)
  | Ok v => let '(r, v') := f v in (r, store a v' s)
  end.

(** The [switch] of the handler; [Throw] is the exception its [catch]
    receives. *)
Definition dispatch (ev : Env) (msg : Msg Md) s : res Res * G :=
  match msg with
  | ADD_DOC text =>
      let '(r, s') := call (cur s) (addDocument text md_empty (ev_id ev) (ev_now ev) (ev_coins ev 0)) s in
      (R_Doc <$> r, s')
  | BATCH_ADD items =>
      let '(r, s') := call (cur s) (addDocuments md_empty items (ev_ids ev) (ev_nows ev) (ev_coins ev)) s in
      (R_Docs <$> r, s')
  | SEARCH q bf =>
      let '(r, s') := call (cur s) (vsearch cosineSimilarity q 5 bf) s in (R_Search <$> r, s')
  | GET_ALL => let '(r, s') := call (cur s) getAllDocuments s in (R_Docs <$> r, s')
  | CLEAR => let '(r, s') := call (cur s) clear_all s in (const R_Undefined <$> r, s')
  | CONFIGURE c =>
      match make_indexer c with
      | Ok v => (Ok R_Success, mkSW (idb s) (objs s ++ [v]) (length (objs s)) (mgrs s) (current s))
      | Throw e => (Throw e, s)
      end
  | MIGRATE_START (EC_OpenAI k e n) =>
      match load (cur s) s with
      | Throw err => (Throw err, s)
      | Ok v =>
          let m := MigrationManager_new v (openai k e n) in
          (** [start()] runs up to its first [await]; its rejection is
              caught by [.catch] and only logged. *)
          let w := match start 50 m with Ok w => w | Throw _ => mkMigState m None end in
          (Ok R_Started, mkSW (idb s) (objs s) (cur s) (mgrs s ++ [(cur s, w)]) (Some (length (mgrs s))))
      end
  | MIGRATE_START (EC_Local _) =>
      (Throw (JsError "Migration to local model not fully implemented in SW yet"), s)
  | MIGRATE_STATUS =>
      match current s with
      | None => (Ok R_NotStarted, s)
      | Some j =>
          match mgrs s !! j with
          | Some (_, w) => (Ok (R_Status (getStatus (mgr w))), s)
          | None => (Throw (TypeError "migrationManager"), s)
          end
      end
  | MIGRATE_STOP =>
      match current s with
      | None => (Ok (R_ErrorField "No migration running"), s)
      | Some j =>
          match mgrs s !! j with
          | Some (a, w) => (Ok R_Stopped, set_mgrs (<[j := (a, mkMigState (stop (mgr w)) (pc w))]> (mgrs s)) s)
          | None => (Throw (TypeError "migrationManager"), s)
          end
      end
  | UNKNOWN ty => (Throw (UnknownMessage ty), s)
  end.

(** The whole listener: the reply posted on [event.ports[0]]. *)
Definition handle (ev : Env) (msg : Msg Md) s : Reply Md Num * G :=
  let '(r, s') := dispatch ev msg s in
  (match r with Ok x => PostResult x | Throw e => PostError (post_error e) end, s').

(** A resumption of the background [start()] of manager [j], on the
    current state of the [Vectoria] object it references. *)
Definition resume_at (coins : nat → nat → bool) (j : nat) s : option G :=
  match mgrs s !! j with
  | Some (a, w) =>
      match pc w, load a s with
      | Some p, Ok v =>
          let w' := resume coins p (set_indexer v (mgr w)) in
          Some (set_mgrs (<[j := (a, w')]> (mgrs s)) (store a (indexer (mgr w')) s))
      | _, _ => None
      end
  | None => None
  end.

(** The steps of the worker: a message handled, with its reply, or a
    background migration step. *)
Inductive sw_step : G → option (Msg Md * Reply Md Num) → G → Prop :=
  | sw_message ev msg s : sw_step s (Some (msg, (handle ev msg s).1)) (handle ev msg s).2
  | sw_background coins j s s' : resume_at coins j s = Some s' → sw_step s None s'.

(** Runs: the replies posted, in order. *)
Inductive sw_run : G → list (Msg Md * Reply Md Num) → G → Prop :=
  | run_nil s : sw_run s [] s
  | run_msg s l s' tr s'' : sw_step s (Some l) s' → sw_run s' tr s'' → sw_run s (l :: tr) s''
  | run_bg s s' tr s'' : sw_step s None s' → sw_run s' tr s'' → sw_run s tr s''.
End Dispatch.

(** ** Direct facts of the handler *)

Lemma post_error_nonempty e : post_error e ≠ "".
Proof. unfold post_error. case_bool_decide; [by destruct e|done]. Qed.

Section DispatchFacts.
Context {Md V Num : Type} `{JsNum Num} `{Similarity V Num} `{Float32Vec V Num}.
Context (cosineSimilarity : list Num → list Num → Num) (md_empty : Md).
Context (openai : string → string → string → EmbeddingModel Num) (local : string → EmbeddingModel Num).

Abbreviation G := (SW Md V Num).
Implicit Types (s : G).

Lemma load_ok a s : a < length (objs s) → ∃ v, load a s = Ok v.
Proof.
  intros Ha. unfold load. destruct (lookup_lt_is_Some_2 (objs s) a Ha) as [v ->]. by eexists.
Qed.

(** C21: [MIGRATE_START] with an OpenAI target never refuses: whatever
    migrations are running, it creates a new manager over the current
    indexer, starts it up to its first [await], makes it the
    [migrationManager], leaves every earlier manager as it was (a
    running one keeps running, unreachable from the handler), and
    replies [{ started: true }].  The [AlreadyRunning] error of the
    specification is never raised. *)
Theorem migrate_start_never_refuses ev k e n s :
  cur s < length (objs s) →
  ∃ v, load (cur s) s = Ok v ∧
    handle cosineSimilarity md_empty openai local ev (MIGRATE_START (EC_OpenAI k e n)) s =
      (PostResult R_Started,
       mkSW (idb s) (objs s) (cur s)
         (mgrs s ++ [(cur s, mkMigState (set_stop false (set_running true (MigrationManager_new v (openai k e n))))
                                         (Some (PC_GetAll 50)))])
         (Some (length (mgrs s)))).
Proof.
  intros Hc. destruct (load_ok (cur s) s Hc) as [v Hv]. exists v. split; [done|].
  unfold handle, dispatch. by rewrite Hv.
Qed.

(** The client's promise rejects exactly when the handler caught an
    exception: the posted [error] is never empty ([error.message ||
    String(error)]), and every [result], including the
    [{ error: 'No migration running' }] object of [MIGRATE_STOP], resolves
    it. *)
Theorem settle_rejects_iff_throw ev (msg : Msg Md) s :
  (∃ m, settle (handle cosineSimilarity md_empty openai local ev msg s).1 = Rejected m) ↔
  (∃ e, (dispatch cosineSimilarity md_empty openai local ev msg s).1 = Throw e ∧
        settle (handle cosineSimilarity md_empty openai local ev msg s).1 = Rejected (post_error e)).
Proof.
  unfold handle. destruct (dispatch _ _ _ _ _ _ _) as [[x|e] s']; cbn.
  - split; [by intros [? ?]|by intros (? & ? & _)].
  - case_bool_decide as He; [by apply post_error_nonempty in He|]. split; [by eauto|by eauto].
Qed.

(** [MIGRATE_STOP] before any [MIGRATE_START] does not fail: it
    posts the result [{ error: 'No migration running' }], which the
    client resolves, where the protocol has a reply [{ error }]. *)
Theorem migrate_stop_unstarted ev s :
  current s = None →
  handle cosineSimilarity md_empty openai local ev MIGRATE_STOP s = (PostResult (R_ErrorField "No migration running"), s) ∧
  settle (handle cosineSimilarity md_empty openai local ev MIGRATE_STOP s).1 = Resolved (R_ErrorField "No migration running").
Proof. intros Hc. unfold handle, dispatch. by rewrite Hc. Qed.
End DispatchFacts.
