(* ===== verification/DispatchProofs.v ===== *)
(** * Properties of the service worker

    The embedders of the [Vectoria] objects along every run of the
    worker: they are only ever extended, and a run without [CONFIGURE]
    (migrations included) changes none of them, so a migration never
    installs its target embedder.  For every state, two [MIGRATE_START]s
    both leave running managers and [MIGRATE_STOP] reaches only the
    last one.  Concrete runs then show the consequences: the two
    migrations' interleaving makes the reported one fail, and a search
    with a document's own text after a completed migration misses it.
    The witnesses of the handler facts of Dispatch.v are at the end. *)

From S2P Require Import Prelude VectorMath HnswCore HnswSearch HnswInsert HnswJson Store Indexer IndexerProofs Migration MigrationProofs Dispatch.

(** ** The embedders of the indexer objects *)

Section Embedders.
Context {Md V Num : Type} `{JsNum Num} `{Similarity V Num} `{Float32Vec V Num}.
Context (cosineSimilarity : list Num → list Num → Num) (md_empty : Md).
Context (openai : string → string → string → EmbeddingModel Num) (local : string → EmbeddingModel Num).

Abbreviation G := (SW Md V Num).
Abbreviation St := (Vectoria Md V Num).
Implicit Types (s : G).

(** The embedders of the [Vectoria] objects created so far, in order. *)
Definition embedders s : list (EmbeddingModel Num) := embedder <$> objs s.

Lemma load_embedder a s v : load a s = Ok v → embedder <$> objs s !! a = Some (embedder v).
Proof. unfold load. destruct (objs s !! a) as [v0|]; [|done]. by intros [= <-]. Qed.

(** Writing back an object with the embedder it had. *)
Lemma store_embedders a (v : St) s v0 :
  load a s = Ok v0 → embedder v = embedder v0 → embedders (store a v s) = embedders s ∧ cur (store a v s) = cur s.
Proof.
  intros Hl He. split; [|done]. apply load_embedder in Hl. unfold embedders, store. cbn.
  rewrite list_fmap_insert, He. apply list_insert_id. by rewrite list_lookup_fmap.
Qed.

Lemma pair_map_snd {A B C} (p : A * B) (g : A → C) : (let '(r, s') := p in (g r, s')).2 = p.2.
Proof. by destruct p. Qed.

(** A method call that keeps embedders. *)
Lemma call_embedders {A} a (f : exc St A) s :
  preserves embedder f → embedders (call a f s).2 = embedders s ∧ cur (call a f s).2 = cur s.
Proof.
  intros Hf. unfold call. destruct (load a s) as [v|e] eqn:Hl; [|done].
  specialize (Hf v). destruct (f v) as [r v']. cbn in *. by apply (store_embedders a v' s v).
Qed.

(** A handler keeps the embedders of the objects and the variable
    [indexer], except [CONFIGURE], which appends an object and points
    [indexer] at it. *)
Lemma dispatch_embedders ev (msg : Msg Md) s :
  embedders s `prefix_of` embedders (dispatch cosineSimilarity md_empty openai local ev msg s).2 ∧
  ((∀ c, msg ≠ CONFIGURE c) →
   embedders (dispatch cosineSimilarity md_empty openai local ev msg s).2 = embedders s ∧
   cur (dispatch cosineSimilarity md_empty openai local ev msg s).2 = cur s).
Proof.
  destruct msg as [t|its|q bf| | |c|[k e n|n]| | |ty]; cbn -[call];
    try (rewrite pair_map_snd;
         match goal with |- context [call ?a ?f ?s] =>
           destruct (call_embedders a f s ltac:(eauto with preserves)) as [-> ->] end; done);
    try done.
  - split; [|by intros Hc; destruct (Hc c)].
    destruct (make_indexer openai local c) as [v|]; [|done]. unfold embedders. cbn. rewrite fmap_app. by eexists.
  - destruct (load (cur s) s); done.
  - destruct (current s) as [j|]; [|done]. by destruct (mgrs s !! j) as [[a w]|].
  - destruct (current s) as [j|]; [|done]. by destruct (mgrs s !! j) as [[a w]|].
Qed.

Lemma handle_embedders ev (msg : Msg Md) s :
  embedders s `prefix_of` embedders (handle cosineSimilarity md_empty openai local ev msg s).2 ∧
  ((∀ c, msg ≠ CONFIGURE c) →
   embedders (handle cosineSimilarity md_empty openai local ev msg s).2 = embedders s ∧
   cur (handle cosineSimilarity md_empty openai local ev msg s).2 = cur s).
Proof.
  unfold handle. pose proof (dispatch_embedders ev msg s).
  by destruct (dispatch _ _ _ _ _ _ _).
Qed.

(** A resumption of [start] keeps the embedder of the indexer it runs
    on: [resetIndex] and [indexDocuments] do not touch it, and the
    target embedder is only used to compute the new vectors. *)
Lemma loop_head_indexer bs docs i pcount (m : MigrationManager Md V Num) :
  indexer (mgr (loop_head bs docs i pcount m)) = indexer m.
Proof. unfold loop_head, finish. by repeat case_match. Qed.

Lemma resume_embedder coins p (m : MigrationManager Md V Num) :
  embedder (indexer (mgr (resume coins p m))) = embedder (indexer m).
Proof.
  destruct p as [bs|bs docs|bs docs i pcount|bs docs i pcount|bs docs i pcount]; cbn [resume].
  - apply resetIndex_embedder.
  - by rewrite loop_head_indexer.
  - destruct (embedBatch _ _) as [embs|e]; [|done].
    pose proof (indexDocuments_embedder (updated_docs (batch_at bs i docs) embs) coins (indexer m)) as He.
    destruct (indexDocuments _ _ _) as [[] ix]; done.
  - by destruct (last _).
  - by rewrite loop_head_indexer.
Qed.

Lemma resume_at_embedders coins j s s' :
  resume_at coins j s = Some s' → embedders s' = embedders s ∧ cur s' = cur s.
Proof.
  unfold resume_at. destruct (mgrs s !! j) as [[a w]|]; [|done].
  destruct (pc w) as [p|], (load a s) as [v|] eqn:Hv; try done. intros [= <-].
  unfold set_mgrs. cbn [embedders objs cur].
  apply (store_embedders a _ s v Hv). rewrite resume_embedder. done.
Qed.
End Embedders.

Section EmbedderTheorems.
Context {Md V Num : Type} `{JsNum Num} `{Similarity V Num} `{Float32Vec V Num}.
Context (cosineSimilarity : list Num → list Num → Num) (md_empty : Md).
Context (openai : string → string → string → EmbeddingModel Num) (local : string → EmbeddingModel Num).

Abbreviation G := (SW Md V Num).
Implicit Types (s : G).

(** C20: no step of the worker replaces the embedder of an indexer.
    Along any run of messages and background migration steps, the
    objects created so far keep the embedders they were built with (new
    objects are only appended, by [CONFIGURE]); and when the run has no
    [CONFIGURE], the variable [indexer] still refers to the same object,
    so every later request embeds its text with the embedder the
    indexer had before the run, even after a migration to another
    embedder has rewritten every stored vector. *)
Theorem sw_runs_keep_embedders s tr s' :
  sw_run cosineSimilarity md_empty openai local s tr s' →
  embedders s `prefix_of` embedders s' ∧
  (Forall (λ l, ∀ c, l.1 ≠ CONFIGURE c) tr →
   embedders s' = embedders s ∧ cur s' = cur s ∧ embedders s' !! cur s' = embedders s !! cur s).
Proof.
  induction 1 as [s|s l s1 tr s2 Hs _ IH|s s1 tr s2 Hs _ IH].
  - split; [done|]. done.
  - inversion Hs as [ev msg ? | ]; subst.
    destruct (handle_embedders cosineSimilarity md_empty openai local ev msg s) as [Hp Hc].
    destruct IH as [IHp IHc]. split; [by etrans|].
    intros Hf. inversion Hf as [|? ? Hl Hf']; subst.
    destruct (Hc Hl) as [He1 Hc1]. destruct (IHc Hf') as (He2 & Hc2 & _).
    by rewrite He2, Hc2, He1, Hc1.
  - inversion Hs as [|coins j ? ? Hr]; subst.
    destruct (resume_at_embedders coins j s s1 Hr) as [He1 Hc1].
    destruct IH as [IHp IHc]. rewrite He1 in IHp. split; [done|].
    intros Hf. destruct (IHc Hf) as (He2 & Hc2 & _).
    by rewrite He2, Hc2, He1, Hc1.
Qed.

(** [MIGRATE_START] with an OpenAI target on a live indexer: a new
    running manager over it becomes [migrationManager]. *)
Lemma handle_migrate_start ev k e n s :
  cur s < length (objs s) →
  ∃ w, handle cosineSimilarity md_empty openai local ev (MIGRATE_START (EC_OpenAI k e n)) s =
         (PostResult R_Started, mkSW (idb s) (objs s) (cur s) (mgrs s ++ [(cur s, w)]) (Some (length (mgrs s))))
       ∧ isRunning (mgr w) = true ∧ shouldStop (mgr w) = false ∧ is_Some (pc w).
Proof.
  intros Hc. destruct (load_ok (cur s) s Hc) as [v Hv].
  unfold handle, dispatch. rewrite Hv. cbn. eexists. split; [reflexivity|]. cbn. split_and!; [done|done|by eexists].
Qed.

(** C22: [MIGRATE_STOP] reaches only the last migration.  Two
    [MIGRATE_START]s, on any worker whose [indexer] is live, create two
    running managers of the same indexer object; [migrationManager]
    then refers to the second, so a [MIGRATE_STOP] stops the second and
    leaves the first running, unreachable from every later message. *)
Theorem migrate_stop_reaches_last_only ev1 ev2 ev3 k e n k' e' n' s :
  cur s < length (objs s) →
  let s1 := (handle cosineSimilarity md_empty openai local ev1 (MIGRATE_START (EC_OpenAI k e n)) s).2 in
  let s2 := (handle cosineSimilarity md_empty openai local ev2 (MIGRATE_START (EC_OpenAI k' e' n')) s1).2 in
  let s3 := (handle cosineSimilarity md_empty openai local ev3 MIGRATE_STOP s2).2 in
  ∃ w1 w2, mgrs s2 = mgrs s ++ [(cur s, w1); (cur s, w2)] ∧ current s2 = Some (S (length (mgrs s))) ∧
    isRunning (mgr w1) = true ∧ isRunning (mgr w2) = true ∧
    mgrs s3 = mgrs s ++ [(cur s, w1); (cur s, mkMigState (stop (mgr w2)) (pc w2))] ∧
    shouldStop (mgr w1) = false ∧ shouldStop (stop (mgr w2)) = true ∧ current s3 = current s2.
Proof.
  intros Hc. cbv zeta.
  destruct (handle_migrate_start ev1 k e n s Hc) as (w1 & Hh1 & Hr1 & Hs1 & _). rewrite Hh1. cbn [snd].
  destruct (handle_migrate_start ev2 k' e' n' (mkSW (idb s) (objs s) (cur s) (mgrs s ++ [(cur s, w1)])
              (Some (length (mgrs s))))) as (w2 & Hh2 & Hr2 & Hs2 & _); [done|].
  rewrite Hh2. cbn [snd mgrs cur current]. exists w1, w2. rewrite <- app_assoc. cbn.
  rewrite length_app. cbn. replace (length (mgrs s) + 1) with (S (length (mgrs s))) by lia.
  split_and!; try done.
  all: unfold handle, dispatch; cbn [current mgrs];
    rewrite (lookup_app_r (mgrs s)) by lia; replace (S (length (mgrs s)) - length (mgrs s)) with 1 by lia; cbn.
  all: try done.
  rewrite insert_app_r_alt by lia. replace (S (length (mgrs s)) - length (mgrs s)) with 1 by lia. done.
Qed.
End EmbedderTheorems.

(** ** Concrete runs of the worker

    Integer embedders: the local model maps ["a"] to [(1, 0)] and ["b"]
    to [(0, 1)]; the OpenAI target swaps them.  Two documents are added
    by [ADD_DOC] to an empty database. *)

Lemma resume_at_default {Md V Num : Type} `{JsNum Num} `{Similarity V Num} `{Float32Vec V Num}
    coins j (s : SW Md V Num) :
  is_Some (resume_at coins j s) → resume_at coins j s = Some (default s (resume_at coins j s)).
Proof. by intros [? ->]. Qed.

Definition emb_local (t : string) : list Z :=
  if bool_decide (t = "a") then [1; 0]%Z else if bool_decide (t = "b") then [0; 1]%Z else [1; 1]%Z.

Definition emb_target (t : string) : list Z :=
  if bool_decide (t = "a") then [0; 1]%Z else if bool_decide (t = "b") then [1; 0]%Z else [1; 1]%Z.

Definition embedder_of (f : string → list Z) : EmbeddingModel Z :=
  mkEmbedder (λ t, Ok (f t)) (λ ts, Ok (f <$> ts)).

Definition z_openai (_ _ _ : string) : EmbeddingModel Z := embedder_of emb_target.
Definition z_local (_ : string) : EmbeddingModel Z := embedder_of emb_local.

Abbreviation zrun := (sw_run (V := list Z) zcos tt z_openai z_local).

Definition target : EmbedderChoice := EC_OpenAI "key" "https://api.openai.com/v1" "text-embedding-3-small".

(** The [Env] of an [ADD_DOC] whose [randomUUID()] is [id]. *)
Definition env_id (id : string) : Env := mkEnv id 0 (λ _, id) (λ _, 0%Z) (λ _ _, false).

(** Build a run message by message ([msg]) and background step ([bg]);
    a background step is shown possible by evaluating [is_Some]. *)
Ltac msg ev m :=
  eapply run_msg; [apply (sw_message _ _ _ _ ev m)|].
Ltac bg j :=
  lazymatch goal with
  | |- sw_run _ _ _ _ ?s _ _ =>
      eapply (run_bg _ _ _ _ s (default s (resume_at (λ _ _, false) j s)));
        [apply (sw_background _ _ _ _ (λ _ _, false) j), resume_at_default;
         apply (bool_decide_eq_true_1 _); vm_compute; reflexivity|]
  end.

(** Two [MIGRATE_START]s run two migrations of the same indexer at
    once.  After two [ADD_DOC]s, both managers snapshot and reset the
    graph; the first re-indexes the documents and completes, and the
    second, the one [migrationManager] refers to, then fails on the first
    document with the graph's duplicate-id error, which [MIGRATE_STATUS]
    reports. *)
Example concurrent_migrations_collide :
  ∃ s0 tr s, sw_init z_openai z_local db_empty = Ok s0 ∧ zrun s0 tr s ∧
    tr.*1 = [ADD_DOC "a"; ADD_DOC "b"; MIGRATE_START target; MIGRATE_START target; MIGRATE_STATUS] ∧
    drop 2 tr.*2 = [PostResult R_Started; PostResult R_Started;
                    PostResult (R_Status (mkMigrationStatus 2 0 None false (Some (DuplicateId "a"))))] ∧
    (mgrs s).*1 = [0; 0] ∧
    (λ w, (isRunning (mgr w), isComplete (status (mgr w)))) <$> (mgrs s).*2 = [(false, true); (false, false)].
Proof.
  eexists _, _, _. split; [reflexivity|]. split.
  - msg (env_id "a") (ADD_DOC (Md:=unit) "a"). msg (env_id "b") (ADD_DOC (Md:=unit) "b").
    msg (env_id "c") (MIGRATE_START (Md:=unit) target). msg (env_id "d") (MIGRATE_START (Md:=unit) target).
    bg 0. bg 1. bg 0. bg 1. bg 0. bg 1. bg 0. bg 0.
    msg (env_id "e") (MIGRATE_STATUS (Md:=unit)). apply run_nil.
  - vm_compute. repeat split.
Qed.

(** The ids of the documents a [SEARCH] reply lists, best first. *)
Definition reply_ids (r : Reply unit Z) : list string :=
  match r with PostResult (R_Search rs) => (doc_id ∘ fst) <$> rs | _ => [] end.

(** The migration re-embeds the documents with the target embedder
    but leaves the indexer's own embedder in place, so queries are still
    embedded with the old model.  After [ADD_DOC "a"], [ADD_DOC "b"] and
    a migration that completes, a [SEARCH] with the text of ["a"] ranks
    ["b"] first: the specification's scenario 3 (a search with a
    document's own text returns that document first after migration)
    does not hold. *)
Example search_after_migration_misses :
  ∃ s0 tr s, sw_init z_openai z_local db_empty = Ok s0 ∧ zrun s0 tr s ∧
    tr.*1 = [ADD_DOC "a"; ADD_DOC "b"; MIGRATE_START target; SEARCH "a" false] ∧
    ((λ w, (isRunning (mgr w), isComplete (status (mgr w)), processed (status (mgr w)))) <$> (mgrs s).*2
       = [(false, true, 2)]) ∧
    reply_ids <$> last tr.*2 = Some ["b"; "a"].
Proof.
  eexists _, _, _. split; [reflexivity|]. split.
  - msg (env_id "a") (ADD_DOC (Md:=unit) "a"). msg (env_id "b") (ADD_DOC (Md:=unit) "b").
    msg (env_id "c") (MIGRATE_START (Md:=unit) target).
    bg 0. bg 0. bg 0. bg 0. bg 0.
    msg (env_id "d") (SEARCH (Md:=unit) "a" false). apply run_nil.
  - vm_compute. repeat split.
Qed.

(** ** Witnesses *)

Definition sw_start : SW unit (list Z) Z :=
  mkSW db_empty [mkVectoria db_empty (z_local default_model) new_index false] 0 [] None.

Lemma migrate_start_never_refuses_witness :
  cur sw_start < length (objs sw_start) ∧
  ∃ v, load (cur sw_start) sw_start = Ok v ∧
    handle zcos tt z_openai z_local (env_id "c") (MIGRATE_START target) sw_start =
      (PostResult R_Started,
       mkSW (idb sw_start) (objs sw_start) (cur sw_start)
         (mgrs sw_start ++ [(cur sw_start, mkMigState (set_stop false (set_running true
            (MigrationManager_new v (z_openai "key" "https://api.openai.com/v1" "text-embedding-3-small"))))
            (Some (PC_GetAll 50)))])
         (Some (length (mgrs sw_start)))).
Proof.
  assert (Hc : cur sw_start < length (objs sw_start)) by (vm_compute; lia).
  split; [exact Hc|]. exact (migrate_start_never_refuses zcos tt z_openai z_local (env_id "c") _ _ _ sw_start Hc).
Defined.

Lemma migrate_stop_unstarted_witness :
  current sw_start = None ∧
  handle zcos tt z_openai z_local (env_id "e") MIGRATE_STOP sw_start
    = (PostResult (R_ErrorField "No migration running"), sw_start) ∧
  settle (handle zcos tt z_openai z_local (env_id "e") MIGRATE_STOP sw_start).1
    = Resolved (R_ErrorField "No migration running").
Proof.
  split; [reflexivity|]. apply migrate_stop_unstarted. reflexivity.
Defined.

Lemma sw_runs_keep_embedders_witness :
  ∃ (tr : list (Msg unit * Reply unit Z)) (s : SW unit (list Z) Z), embedders sw_start `prefix_of` embedders s ∧
    (Forall (λ l, ∀ c, l.1 ≠ CONFIGURE c) tr →
     embedders s = embedders sw_start ∧ cur s = cur sw_start ∧ embedders s !! cur s = embedders sw_start !! cur sw_start).
Proof.
  eexists _, _. eapply (sw_runs_keep_embedders zcos tt z_openai z_local sw_start).
  msg (env_id "a") (ADD_DOC (Md:=unit) "a"). msg (env_id "c") (MIGRATE_START (Md:=unit) target).
  bg 0. bg 0. apply run_nil.
Defined.

Lemma migrate_stop_reaches_last_only_witness :
  cur sw_start < length (objs sw_start) ∧
  let s1 := (handle zcos tt z_openai z_local (env_id "c") (MIGRATE_START target) sw_start).2 in
  let s2 := (handle zcos tt z_openai z_local (env_id "d") (MIGRATE_START target) s1).2 in
  let s3 := (handle zcos tt z_openai z_local (env_id "e") MIGRATE_STOP s2).2 in
  ∃ w1 w2, mgrs s2 = mgrs sw_start ++ [(cur sw_start, w1); (cur sw_start, w2)] ∧
    current s2 = Some (S (length (mgrs sw_start))) ∧
    isRunning (mgr w1) = true ∧ isRunning (mgr w2) = true ∧
    mgrs s3 = mgrs sw_start ++ [(cur sw_start, w1); (cur sw_start, mkMigState (stop (mgr w2)) (pc w2))] ∧
    shouldStop (mgr w1) = false ∧ shouldStop (stop (mgr w2)) = true ∧ current s3 = current s2.
Proof.
  assert (Hc : cur sw_start < length (objs sw_start)) by (vm_compute; lia).
  split; [exact Hc|].
  exact (migrate_stop_reaches_last_only zcos tt z_openai z_local (env_id "c") (env_id "d") (env_id "e")
           "key" "https://api.openai.com/v1" "text-embedding-3-small"
           "key" "https://api.openai.com/v1" "text-embedding-3-small" sw_start Hc).
Defined.
