(* ===== verification/Client.v ===== *)
(** * The page's client of the worker: [IndexerClient]

    sw.ts's [IndexerClient] keeps the [ServiceWorker] it sends requests
    to ([this.sw], [null] at first) and reports its progress through an
    optional status callback.  [init()] registers the worker and sets
    [this.sw] from the registration; a [controllerchange] event resets it
    to [navigator.serviceWorker.controller]; [sendMessage] throws when
    [this.sw] is [null] and otherwise posts the request and settles on
    the worker's reply ([settle] of Dispatch.v).

    The browser's part is an input: whether [navigator] has a
    [serviceWorker], what [register] resolves to (its [installing],
    [waiting] and [active] workers) or rejects with, and the [active]
    worker of the registration once [navigator.serviceWorker.ready] has
    resolved.  There is one worker state: a request from the client runs
    [handle] on it. *)

From S2P Require Import Prelude VectorMath HnswCore HnswSearch HnswInsert HnswJson Store Indexer IndexerProofs Migration Dispatch DispatchProofs.

(** A [ServiceWorkerRegistration]. *)
Record Registration (W : Type) := mkRegistration {
  installing : option W;
  waiting : option W;
  active : option W
}.
Arguments mkRegistration {W}.
Arguments installing {W}.
Arguments waiting {W}.
Arguments active {W}.

Record IndexerClient (W : Type) := mkClient {
  sw : option W;
  statusCallback : bool;          (** an [onStatusUpdate] was given *)
  statuses : list string;         (** the messages it received, in order *)
  listening : bool                (** the [controllerchange] listener is installed *)
}.
Arguments mkClient {W}.
Arguments sw {W}.
Arguments statusCallback {W}.
Arguments statuses {W}.
Arguments listening {W}.

(** What [init()] meets in the browser. *)
Record ClientEnv (W : Type) := mkClientEnv {
  ce_supported : bool;                 (** ['serviceWorker' in navigator] *)
  ce_register : res (Registration W);  (** [navigator.serviceWorker.register(...)] *)
  ce_ready_active : option W           (** [registration.active] after [ready] *)
}.
Arguments mkClientEnv {W}.
Arguments ce_supported {W}.
Arguments ce_register {W}.
Arguments ce_ready_active {W}.

(** [`${error}`] of an [Error]: its name, then its message. *)
Definition error_string (e : exn) : string :=
  let m := message e in if bool_decide (m = "") then error_name e else (error_name e ++ ": " ++ m)%string.

Section Client.
Context {W : Type}.
Implicit Types (c : IndexerClient W).

Definition IndexerClient_new (onStatusUpdate : bool) : IndexerClient W := mkClient None onStatusUpdate [] false.

Definition set_sw (x : option W) c : IndexerClient W := mkClient x (statusCallback c) (statuses c) (listening c).

Definition updateStatus (msg : string) c : IndexerClient W :=
  if statusCallback c then mkClient (sw c) true (statuses c ++ [msg]) (listening c) else c.

(** [init()]. *)
Definition client_init (env : ClientEnv W) c : res unit * IndexerClient W :=
  if negb (ce_supported env) then (Throw (JsError "Service Worker not supported"), c) else
  match ce_register env with
  | Throw e => (Throw e, updateStatus ("SW Registration failed: " ++ error_string e)%string c)
  | Ok reg =>
      let c1 := match installing reg, waiting reg, active reg with
                | Some _, _, _ => updateStatus "Service Worker installing..." c
                | None, Some _, _ => updateStatus "Service Worker installed." c
                | None, None, Some a => set_sw (Some a) (updateStatus "Service Worker active." c)
                | None, None, None => c
                end in
      let c2 := mkClient (sw c1) (statusCallback c1) (statuses c1) true in
      (Ok (), updateStatus "Service Worker Ready!" (set_sw (ce_ready_active env) c2))
  end.

(** The [controllerchange] listener, with the page's new controller. *)
Definition controllerchange (controller : option W) c : IndexerClient W :=
  if listening c then updateStatus "Service Worker controller changed." (set_sw controller c) else c.
End Client.

Section Request.
Context {Md V Num W : Type} `{JsNum Num} `{Similarity V Num} `{Float32Vec V Num}.
Context (cosineSimilarity : list Num → list Num → Num) (md_empty : Md).
Context (openai : string → string → string → EmbeddingModel Num) (local : string → EmbeddingModel Num).

(** [sendMessage(type, payload)] to the worker in state [s]: the outcome
    of its promise and the worker's next state. *)
Definition sendMessage (ev : Env) (msg : Msg Md) (c : IndexerClient W) (s : SW Md V Num)
    : res (Settled Md Num) * SW Md V Num :=
  match sw c with
  | None => (Throw (JsError "No Service Worker active"), s)
  | Some _ =>
      let '(r, s') := handle cosineSimilarity md_empty openai local ev msg s in (Ok (settle r), s')
  end.
End Request.

(** ** Properties *)

Section ClientProps.
Context {Md V Num W : Type} `{JsNum Num} `{Similarity V Num} `{Float32Vec V Num}.
Context (cosineSimilarity : list Num → list Num → Num) (md_empty : Md).
Context (openai : string → string → string → EmbeddingModel Num) (local : string → EmbeddingModel Num).

Abbreviation send := (sendMessage (W := W) cosineSimilarity md_empty openai local).

Lemma updateStatus_sw m (c : IndexerClient W) : sw (updateStatus m c) = sw c.
Proof. unfold updateStatus. by destruct (statusCallback c). Qed.

Lemma updateStatus_listening m (c : IndexerClient W) : listening (updateStatus m c) = listening c.
Proof. unfold updateStatus. by destruct (statusCallback c). Qed.

Lemma client_init_ok (env : ClientEnv W) c reg :
  ce_supported env = true → ce_register env = Ok reg →
  (client_init env c).1 = Ok () ∧ sw (client_init env c).2 = ce_ready_active env ∧
  listening (client_init env c).2 = true.
Proof.
  intros Hs Hr. unfold client_init. rewrite Hs, Hr. cbn.
  by rewrite updateStatus_sw, updateStatus_listening.
Qed.

(** C35: the client and the worker composed.  After an [init()] whose
    registration succeeds, a request reaches the worker exactly when the
    registration had an [active] worker once [ready] resolved: its
    promise then settles on the worker's reply ([settle] of [handle]) and
    the worker moves to the state [handle] gives; otherwise it throws
    ["No Service Worker active"] and the worker is untouched.  A later
    [controllerchange] to a page without a controller (a hard reload,
    an unregistered worker) makes every request throw, although the
    worker still runs. *)
Theorem client_requests_reach_worker (env : ClientEnv W) c reg ev (msg : Msg Md) s :
  ce_supported env = true → ce_register env = Ok reg →
  (client_init env c).1 = Ok () ∧
  send ev msg (client_init env c).2 s =
    match ce_ready_active env with
    | Some _ => (Ok (settle (handle cosineSimilarity md_empty openai local ev msg s).1),
                 (handle cosineSimilarity md_empty openai local ev msg s).2)
    | None => (Throw (JsError "No Service Worker active"), s)
    end ∧
  ∀ ev' (msg' : Msg Md) s', send ev' msg' (controllerchange None (client_init env c).2) s' =
                            (Throw (JsError "No Service Worker active"), s').
Proof.
  intros Hs Hr. destruct (client_init_ok env c reg Hs Hr) as (Hok & Hsw & Hl).
  split; [done|]. split.
  - unfold sendMessage. rewrite Hsw. destruct (ce_ready_active env); [|done].
    by destruct (handle _ _ _ _ ev msg s).
  - intros ev' msg' s'. unfold sendMessage, controllerchange. rewrite Hl, updateStatus_sw. done.
Qed.
End ClientProps.

(** ** Witness: the page registers an active worker, which serves
    [sw_start]. *)

Definition demo_env : ClientEnv unit := mkClientEnv true (Ok (mkRegistration None None (Some tt))) (Some tt).

Lemma client_requests_reach_worker_witness :
  ce_supported demo_env = true ∧ ce_register demo_env = Ok (mkRegistration None None (Some tt)) ∧
  (client_init demo_env (IndexerClient_new true)).1 = Ok () ∧
  sendMessage zcos tt z_openai z_local (env_id "a") GET_ALL (client_init demo_env (IndexerClient_new true)).2 sw_start =
    match ce_ready_active demo_env with
    | Some _ => (Ok (settle (handle zcos tt z_openai z_local (env_id "a") GET_ALL sw_start).1),
                 (handle zcos tt z_openai z_local (env_id "a") GET_ALL sw_start).2)
    | None => (Throw (JsError "No Service Worker active"), sw_start)
    end ∧
  ∀ ev' (msg' : Msg unit) s', sendMessage zcos tt z_openai z_local ev' msg'
      (controllerchange None (client_init demo_env (IndexerClient_new true)).2) s' =
    (Throw (JsError "No Service Worker active"), s').
Proof.
  assert (Hs : ce_supported demo_env = true) by reflexivity.
  assert (Hr : ce_register demo_env = Ok (mkRegistration None None (Some tt))) by reflexivity.
  split; [exact Hs|]. split; [exact Hr|].
  exact (client_requests_reach_worker zcos tt z_openai z_local demo_env (IndexerClient_new true) _ (env_id "a") GET_ALL sw_start Hs Hr).
Defined.
