(* ===== verification/Page.v ===== *)
(** * The demo pages: what the page scripts ask of the worker

    The two page scripts of src/unnamed/part_000 (the demo page, lines
    1-330, and the benchmark page, lines 330-666) drive the worker
    through an [IndexerClient] (Client.v).  Their DOM rendering is not
    modelled; what is modelled is every request they post and every
    piece of page state that decides which requests follow:

    - the configuration form, [updateConfig] (what it writes to
      [localStorage] and the [CONFIGURE] it posts) and the reload of the
      saved configuration at start-up, with [populateModelSelect] of
      src/ui/utils.ts; the options of the type select are in the pages'
      HTML, which is not under src/, and [embedderTypeOptions] takes
      them from the specification;
    - the migration buttons and the polling tick of
      [startMigrationPolling];
    - the [btnAdd] handler: [text.split('\n').map(trim).filter(...)] and
      one awaited [ADD_DOC] per line;
    - the benchmark's indexing loop, which posts [BATCH_ADD] on the
      slices [parsedDocs.slice(i, i + batchSize)].

    A [World] is the page, the worker's state (Dispatch.v) and the list
    of requests posted so far.  An awaited request is [send]: the
    client's [sendMessage] on the worker, whose promise resolves with
    the result or throws (the [Error] of a client without a worker, or
    the string the worker posted as [error]).  A request that is not
    awaited is posted at once as well: [postMessage] runs synchronously
    in the promise's executor, and the worker handles messages in the
    order they are posted. *)

From S2P Require Import Prelude VectorMath HnswCore HnswSearch HnswInsert HnswJson Store Indexer IndexerProofs Migration MigrationProofs Dispatch DispatchProofs Client.
From stdpp Require Import pretty.

(** ** Strings *)

(** ['\n'] *)
Definition nl : Ascii.ascii := Ascii.ascii_of_nat 10.
Arguments nl : simpl never.

(** [s.split('\n')]: the pieces between the newlines, [[""]] for the
    empty string. *)
Fixpoint split_nl (s : string) : list string :=
  match s with
  | EmptyString => [""]
  | String c s' =>
      if Ascii.eqb c nl then "" :: split_nl s'
      else match split_nl s' with
           | l0 :: ls => String c l0 :: ls
           | [] => [String c ""]
           end
  end.

(** The white space [trim()] removes, on 8-bit characters: tab, line
    feed, vertical tab, form feed, carriage return and space. *)
Definition is_ws (c : Ascii.ascii) : bool :=
  bool_decide (Ascii.nat_of_ascii c ∈ [9; 10; 11; 12; 13; 32]).

Fixpoint drop_ws (l : list Ascii.ascii) : list Ascii.ascii :=
  match l with
  | c :: l' => if is_ws c then drop_ws l' else l
  | [] => []
  end.

(** [s.trim()]: the white space removed at both ends. *)
Definition trim (s : string) : string :=
  String.string_of_list_ascii (rev (drop_ws (rev (drop_ws (String.list_ascii_of_string s))))).

(** [text.split('\n').map(line => line.trim()).filter(line => line.length > 0)] *)
Definition page_lines (text : string) : list string :=
  filter (λ l, 0 < String.length l) (trim <$> split_nl text).

(** ** JavaScript numbers of the indexing loop

    [parseInt] gives an integer or [NaN] ([None]); the loop index is
    [0], then sums of such numbers. *)

Definition js_lt (i : option Z) (n : Z) : bool :=
  match i with Some x => bool_decide (x < n)%Z | None => false end.

Definition js_add (i j : option Z) : option Z :=
  match i, j with Some x, Some y => Some (x + y)%Z | _, _ => None end.

(** The index an argument of [slice] stands for: [NaN] is [0], a
    negative index counts from the end, and the result is clamped to
    [[0, len]]. *)
Definition rel_index (len : Z) (x : option Z) : Z :=
  match x with
  | None => 0
  | Some x => if bool_decide (x < 0)%Z then Z.max (len + x) 0 else Z.min x len
  end.

(** [l.slice(b, e)] *)
Definition js_slice {A} (l : list A) (b e : option Z) : list A :=
  let len := Z.of_nat (length l) in
  let from := rel_index len b in
  let to := rel_index len e in
  take (Z.to_nat (to - from)) (drop (Z.to_nat from) l).

(** ** The configuration form *)

Record Form := mkForm {
  embedderType : string;      (** [embedderTypeEl.value] *)
  localModelSelect : string;  (** [localModelSelectEl.value] *)
  customLocalModel : string;  (** [customLocalModelEl.value] *)
  openaiKey : string;
  openaiEndpoint : string;
  openaiModel : string
}.

(** The object [updateConfig] builds. *)
Record PageConfig := mkPageConfig {
  cfg_type : string;
  cfg_local : string;         (** [local.modelName] *)
  cfg_apiKey : string;
  cfg_endpoint : string;
  cfg_modelName : string
}.

(** The three [localStorage] entries of the page; [JSON.stringify] and
    [JSON.parse] of these string records are inverse, so the records
    are kept. *)
Record Storage := mkStorage {
  st_type : option string;
  st_openai : option (string * string * string);
  st_local : option string
}.

(** [populateModelSelect(selectEl)]: the options are the models' ids,
    then ['custom']; without [selectedValue] the select shows its first
    option. *)
Definition populateModelSelect (models : list string) : list string * string :=
  let opts := models ++ ["custom"] in (opts, default "" (head opts)).

Definition config_of (f : Form) : PageConfig :=
  mkPageConfig (embedderType f)
    (if bool_decide (localModelSelect f = "custom") then customLocalModel f else localModelSelect f)
    (openaiKey f) (openaiEndpoint f) (openaiModel f).

Definition save_config (c : PageConfig) : Storage :=
  mkStorage (Some (cfg_type c)) (Some (cfg_apiKey c, cfg_endpoint c, cfg_modelName c)) (Some (cfg_local c)).

(** The worker's reading of a [CONFIGURE] payload or a [MIGRATE_START]
    target: [type === 'openai'] with its [openai] fields, or else
    [local?.modelName]. *)
Definition choice_of (c : PageConfig) : EmbedderChoice :=
  if bool_decide (cfg_type c = "openai") then EC_OpenAI (cfg_apiKey c) (cfg_endpoint c) (cfg_modelName c)
  else EC_Local (Some (cfg_local c)).

(** The options of the [embedderType] select of the demo pages' HTML,
    which is not under src/: the values of the [type] field of the
    specification's configuration. *)
Definition embedderTypeOptions : list string := ["local"; "openai"].

(** The start-up code: the saved type (a [<select>] assigned a value
    that is none of its options shows no option, and its [value] is
    [""]), the truthy fields of the saved
    OpenAI configuration, and the saved local model, selected when it is
    an option and entered as a custom model otherwise. *)
Definition load_saved (st : Storage) (opts : list string) (f : Form) : Form :=
  let f1 := match st_type st with
            | Some t => if bool_decide (t = "") then f
                        else mkForm (if bool_decide (t ∈ embedderTypeOptions) then t else "") (localModelSelect f) (customLocalModel f) (openaiKey f) (openaiEndpoint f) (openaiModel f)
            | None => f
            end in
  let f2 := match st_openai st with
            | Some (k, e, n) =>
                let pick x y := if bool_decide (x = "") then y else x in
                mkForm (embedderType f1) (localModelSelect f1) (customLocalModel f1)
                  (pick k (openaiKey f1)) (pick e (openaiEndpoint f1)) (pick n (openaiModel f1))
            | None => f1
            end in
  match st_local st with
  | Some n =>
      if bool_decide (n = "") then f2
      else if bool_decide (n ∈ opts)
      then mkForm (embedderType f2) n (customLocalModel f2) (openaiKey f2) (openaiEndpoint f2) (openaiModel f2)
      else mkForm (embedderType f2) "custom" n (openaiKey f2) (openaiEndpoint f2) (openaiModel f2)
  | None => f2
  end.

(** ** Pages and the world *)

Record Page (W : Type) := mkPage {
  client : IndexerClient W;
  form : Form;
  storage : Storage;
  docText : string;           (** [docTextEl.value] *)
  statusText : string;        (** [statusEl.textContent] *)
  polling : bool;             (** [migrationPollInterval] is set *)
  migrateDisabled : bool;     (** [btnMigrate.disabled] *)
  stopDisabled : bool;        (** [btnStopMigrate.disabled] *)
  results : list string       (** the texts [resultsEl] lists, best first *)
}.
Arguments mkPage {W}.
Arguments client {W}.
Arguments form {W}.
Arguments storage {W}.
Arguments docText {W}.
Arguments statusText {W}.
Arguments polling {W}.
Arguments migrateDisabled {W}.
Arguments stopDisabled {W}.
Arguments results {W}.

Record World (W Md V Num : Type) := mkWorld {
  page : Page W;
  worker : SW Md V Num;
  posted : list (Msg Md)
}.
Arguments mkWorld {W Md V Num}.
Arguments page {W Md V Num}.
Arguments worker {W Md V Num}.
Arguments posted {W Md V Num}.

(** What an awaited request throws: the client's [Error], or the
    worker's [error] string. *)
Inductive Thrown := ThrownError (e : exn) | ThrownValue (m : string).

(** [`${e}`] *)
Definition thrown_string (t : Thrown) : string :=
  match t with ThrownError e => error_string e | ThrownValue m => m end.

(** [e.message]: a string has none. *)
Definition thrown_message (t : Thrown) : string :=
  match t with ThrownError e => message e | ThrownValue _ => "undefined" end.

(** How a loop of awaited requests ended: it ran to its end, an awaited
    request threw, the fuel ran out, or the handler returned first. *)
Inductive Outcome := Completed | Caught (t : Thrown) | Exhausted | Returned.

Section PageState.
Context {W : Type}.
Implicit Types (p : Page W).

Definition set_storage st p : Page W :=
  mkPage (client p) (form p) st (docText p) (statusText p) (polling p) (migrateDisabled p) (stopDisabled p) (results p).
Definition set_docText t p : Page W :=
  mkPage (client p) (form p) (storage p) t (statusText p) (polling p) (migrateDisabled p) (stopDisabled p) (results p).
Definition set_status t p : Page W :=
  mkPage (client p) (form p) (storage p) (docText p) t (polling p) (migrateDisabled p) (stopDisabled p) (results p).
Definition set_polling b p : Page W :=
  mkPage (client p) (form p) (storage p) (docText p) (statusText p) b (migrateDisabled p) (stopDisabled p) (results p).
(** [btnMigrate.disabled = m; btnStopMigrate.disabled = s] *)
Definition set_buttons m s p : Page W :=
  mkPage (client p) (form p) (storage p) (docText p) (statusText p) (polling p) m s (results p).

Definition set_results rs p : Page W :=
  mkPage (client p) (form p) (storage p) (docText p) (statusText p) (polling p) (migrateDisabled p) (stopDisabled p) rs.

(** [startMigrationPolling()]: the previous interval is cleared and one
    is set. *)
Definition startMigrationPolling p : Page W := set_polling true p.
(** [stopMigrationPolling()] *)
Definition stopMigrationPolling p : Page W := set_polling false p.
End PageState.

Section Handlers.
Context {Md V Num W : Type} `{JsNum Num} `{Similarity V Num} `{Float32Vec V Num}.
Context (cosineSimilarity : list Num → list Num → Num) (md_empty : Md).
Context (openai : string → string → string → EmbeddingModel Num) (local : string → EmbeddingModel Num).
(** The object [{ source: d.source }] as the worker's metadata. *)
Context (source_md : string → Md).

Abbreviation Wd := (World W Md V Num).
Implicit Types (w : Wd).

Definition with_page (f : Page W → Page W) w : Wd := mkWorld (f (page w)) (worker w) (posted w).

(** [await client.sendMessage(type, payload)]: the value the promise
    resolves with, or what it throws. *)
Definition send (ev : Env) (msg : Msg Md) w : (Thrown + Result Md Num) * Wd :=
  match sendMessage cosineSimilarity md_empty openai local ev msg (client (page w)) (worker w) with
  | (Throw e, _) => (inl (ThrownError e), w)
  | (Ok (Resolved r), s') => (inr r, mkWorld (page w) s' (posted w ++ [msg]))
  | (Ok (Rejected m), s') => (inl (ThrownValue m), mkWorld (page w) s' (posted w ++ [msg]))
  end.

(** [updateConfig(showFeedback)]: the form's configuration is saved and
    posted as [CONFIGURE] (not awaited); with feedback, the status tells
    how the request settled.  The configuration is returned. *)
Definition updateConfig (showFeedback : bool) (ev : Env) w : PageConfig * Wd :=
  let c := config_of (form (page w)) in
  let '(r, w2) := send ev (CONFIGURE (choice_of c)) (with_page (set_storage (save_config c)) w) in
  (c, if showFeedback
      then with_page (set_status (match r with
                                  | inr _ => "Configuration saved and applied."
                                  | inl t => "Error saving configuration: " ++ thrown_message t
                                  end)) w2
      else w2).

(** The [btnMigrate] listener. *)
Definition btnMigrate (ev_cfg ev_start : Env) w : Wd :=
  let '(c, w1) := updateConfig false ev_cfg w in
  if bool_decide (cfg_type c = "openai") && bool_decide (cfg_apiKey c = "") then w1
  else match send ev_start (MIGRATE_START (choice_of c)) w1 with
       | (inr _, w2) => with_page (λ p, startMigrationPolling (set_buttons true false p)) w2
       | (inl _, w2) => w2
       end.

(** The [btnStopMigrate] listener. *)
Definition btnStopMigrate (ev : Env) w : Wd :=
  match send ev MIGRATE_STOP w with
  | (inr _, w') => with_page (λ p, set_buttons false true (stopMigrationPolling p)) w'
  | (inl _, w') => w'
  end.

(** One tick of the interval of [startMigrationPolling].  On completion
    [client.sendMessage('CONFIGURE', updateConfig())] evaluates its
    argument first: [updateConfig()] posts the form's configuration,
    then the same configuration is posted again. *)
Definition poll_tick (ev_status ev_cfg1 ev_cfg2 : Env) w : Wd :=
  match send ev_status MIGRATE_STATUS w with
  | (inr (R_Status st), w1) =>
      let w2 := if isComplete st then
                  let '(c, w3) := updateConfig false ev_cfg1
                                    (with_page (λ p, set_buttons false true (stopMigrationPolling p)) w1) in
                  (send ev_cfg2 (CONFIGURE (choice_of c)) w3).2
                else w1 in
      if bool_decide (is_Some (error st))
      then with_page (λ p, set_buttons false true (stopMigrationPolling p)) w2 else w2
  | (_, w1) => w1
  end.

(** [refreshList()] / [refreshStats()]: a [GET_ALL] whose result only
    fills a counter. *)
Definition refreshList (ev : Env) w : Wd := (send ev GET_ALL w).2.

(** The [btnSearch] listener, with the query box and the brute-force
    box as inputs.  [SEARCH] resolves with a list of results; the status
    counts them and [resultsEl] lists their texts.  (Any other value
    would fail in [results.map] and land in the [catch]; the worker
    never sends one.) *)
Definition btnSearch (ev : Env) (query : string) (useBruteForce : bool) w : Wd :=
  if bool_decide (query = "") then w else
  let w0 := with_page (set_status "Searching...") w in
  match send ev (SEARCH query useBruteForce) w0 with
  | (inr (R_Search rs), w1) =>
      with_page (λ p, set_results ((λ r, text r.1) <$> rs)
                        (set_status ("Found " ++ pretty (length rs) ++ " results.") p)) w1
  | (inr _, w1) => with_page (set_status "Error: TypeError: results.map is not a function") w1
  | (inl t, w1) => with_page (set_status ("Error: " ++ thrown_string t)) w1
  end.

(** The [btnClear] listener of the demo page, with the answer to
    [confirm(...)]: a [CLEAR], then [refreshList()].  It has no [catch]:
    a rejection leaves the page as it is. *)
Definition btnClear (confirmed : bool) (ev_clear ev_list : Env) w : Wd :=
  if confirmed then
    match send ev_clear CLEAR w with
    | (inr _, w1) => refreshList ev_list w1
    | (inl _, w1) => w1
    end
  else w.

(** The [btnLoadQA] listener, with the parsed [qa_dataset.json] as
    input ([None] when the fetch or the parse fails): [parsedDocs] is
    reset, then set to the items' texts with the source
    [QA-<category>], and the database is cleared.  The new [parsedDocs]
    is returned with the world. *)
Definition btnLoadQA (data : option (list (string * string))) (ev : Env) w
    : list (string * string) * Wd :=
  match data with
  | None => ([], w)
  | Some items =>
      let docs := (λ it, (it.1, "QA-" ++ it.2)%string) <$> items in
      match send ev CLEAR w with
      | (inr _, w1) => (docs, refreshList ev w1)
      | (inl _, w1) => (docs, w1)
      end
  end.

(** The [btnLoadHF] listener: as [btnLoadQA], with the source
    [item.metadata?.source || 'HF']; a response that is not [ok] fails
    like a failed fetch. *)
Definition btnLoadHF (data : option (list (string * option string))) (ev : Env) w
    : list (string * string) * Wd :=
  match data with
  | None => ([], w)
  | Some items =>
      let src o := match o with Some x => if bool_decide (x = "") then "HF" else x | None => "HF" end in
      let docs := (λ it, (it.1, src it.2)) <$> items in
      match send ev CLEAR w with
      | (inr _, w1) => (docs, refreshList ev w1)
      | (inl _, w1) => (docs, w1)
      end
  end.

(** A background step of the worker, between two page events. *)
Definition bg_step (coins : nat → nat → bool) (j : nat) w : Wd :=
  match resume_at coins j (worker w) with
  | Some s' => mkWorld (page w) s' (posted w)
  | None => w
  end.

(** The loop of [btnAdd]: [for (const line of lines) await
    client.sendMessage('ADD_DOC', { text: line })], the [k]-th request
    with the inputs [evs k]. *)
Fixpoint add_lines (evs : nat → Env) (k : nat) (lines : list string) w : Outcome * Wd :=
  match lines with
  | [] => (Completed, w)
  | l :: ls =>
      match send (evs k) (ADD_DOC l) w with
      | (inl t, w') => (Caught t, w')
      | (inr _, w') => add_lines evs (S k) ls w'
      end
  end.

(** The [btnAdd] listener. *)
Definition btnAdd (evs : nat → Env) w : Outcome * Wd :=
  let text := docText (page w) in
  if bool_decide (text = "") then (Returned, w) else
  let lines := page_lines text in
  if bool_decide (lines = []) then (Returned, w) else
  let n := length lines in
  let w0 := with_page (set_status ("Indexing " ++ pretty n ++ " documents... (Model might be downloading)")) w in
  match add_lines evs 0 lines w0 with
  | (Completed, w1) =>
      (Completed, refreshList (evs n)
                    (with_page (λ p, set_docText "" (set_status (pretty n ++ " documents indexed.") p)) w1))
  | (Caught t, w1) => (Caught t, with_page (set_status ("Error: " ++ thrown_string t)) w1)
  | (o, w1) => (o, w1)
  end.

(** A document of the benchmark's [parsedDocs]: its text and source. *)
Definition batch_item (d : string * string) : string * option Md := (d.1, Some (source_md d.2)).

(** The loop of [btnRunIndex]:
    [for (let i = 0; i < total; i += batchSize)] with an awaited
    [BATCH_ADD] of [parsedDocs.slice(i, i + batchSize)]; the [k]-th
    request has the inputs [evs k].  The loop is run on [fuel]. *)
Fixpoint runIndex_loop (fuel : nat) (evs : nat → Env) (k : nat) (docs : list (string * string))
    (bs i : option Z) w : Outcome * Wd :=
  match fuel with
  | 0 => (Exhausted, w)
  | S f =>
      if js_lt i (Z.of_nat (length docs)) then
        match send (evs k) (BATCH_ADD (batch_item <$> js_slice docs i (js_add i bs))) w with
        | (inl t, w') => (Caught t, w')
        | (inr _, w') => runIndex_loop f evs (S k) docs bs (js_add i bs) w'
        end
      else (Completed, w)
  end.

(** The [btnRunIndex] listener, with [parseInt(batchSizeInput.value)]
    as [bs]; on completion the statistics are refreshed. *)
Definition btnRunIndex (fuel : nat) (evs : nat → Env) (ev_stats : Env) (docs : list (string * string))
    (bs : option Z) w : Outcome * Wd :=
  match docs with
  | [] => (Returned, w)
  | _ =>
      match runIndex_loop fuel evs 0 docs bs (Some 0%Z) w with
      | (Completed, w') => (Completed, refreshList ev_stats w')
      | r => r
      end
  end.
End Handlers.

(** ** Lemmas *)

(** *** Strings *)

(** The text of lines joined by newlines, as a textarea holds it. *)
Definition join_lines (ls : list string) : string := String.concat (String nl EmptyString) ls.

(** A line as [btnAdd] keeps it: not empty, trimmed, without newline. *)
Definition clean_line (l : string) : Prop :=
  l ≠ "" ∧ trim l = l ∧ nl ∉ String.list_ascii_of_string l.

Lemma split_nl_single l : nl ∉ String.list_ascii_of_string l → split_nl l = [l].
Proof.
  induction l as [|c l IH]; [done|]. cbn. rewrite elem_of_cons. intros Hn.
  destruct (Ascii.eqb_spec c nl) as [->|_]; [naive_solver|]. rewrite IH; naive_solver.
Qed.

Lemma split_nl_app l rest :
  nl ∉ String.list_ascii_of_string l → split_nl (l ++ String nl rest) = l :: split_nl rest.
Proof.
  induction l as [|c l IH]; intros Hn.
  - change (String.append "" (String nl rest)) with (String nl rest). cbn. by rewrite Ascii.eqb_refl.
  - change (String.append (String c l) (String nl rest)) with (String c (String.append l (String nl rest))). cbn in *.
    rewrite elem_of_cons in Hn.
    destruct (Ascii.eqb_spec c nl) as [->|_]; [naive_solver|]. rewrite IH; naive_solver.
Qed.

Lemma String_append_nl x : String.append (String nl EmptyString) x = String nl x.
Proof. done. Qed.

Lemma split_nl_join ls :
  ls ≠ [] → Forall (λ l, nl ∉ String.list_ascii_of_string l) ls → split_nl (join_lines ls) = ls.
Proof.
  induction ls as [|l [|l' ls] IH]; intros Hne Hf; [done| |].
  - inversion Hf. by apply split_nl_single.
  - inversion Hf; subst. unfold join_lines. cbn [String.concat].
    rewrite (String_append_nl _ : String.append (String nl EmptyString) _ = _), split_nl_app by done.
    f_equal. by apply IH.
Qed.

Lemma filter_trim_clean ls : Forall clean_line ls → filter (λ l, 0 < String.length l) (trim <$> ls) = ls.
Proof.
  induction 1 as [|x xs (Hx & Ht & _) _ IH]; [done|].
  rewrite fmap_cons, filter_cons, Ht, IH. case_decide as Hd; [done|].
  destruct x; [done|]. cbn in Hd. lia.
Qed.

Lemma page_lines_join ls : Forall clean_line ls → page_lines (join_lines ls) = ls.
Proof.
  intros Hf. destruct ls as [|l ls]; [done|].
  assert (Hn : Forall (λ l, nl ∉ String.list_ascii_of_string l) (l :: ls))
    by (eapply Forall_impl; [done|]; by intros ? (_ & _ & ?)).
  unfold page_lines. rewrite split_nl_join by done. by apply filter_trim_clean.
Qed.

(** *** Requests *)

Section SendLemmas.
Context {Md V Num W : Type} `{JsNum Num} `{Similarity V Num} `{Float32Vec V Num}.
Context (cosineSimilarity : list Num → list Num → Num) (md_empty : Md).
Context (openai : string → string → string → EmbeddingModel Num) (local : string → EmbeddingModel Num).

Abbreviation Wd := (World W Md V Num).
Abbreviation sendw := (send cosineSimilarity md_empty openai local).
Implicit Types (w : Wd).

(** A request leaves the page as it is. *)
Lemma send_page ev (msg : Msg Md) w : page (sendw ev msg w).2 = page w.
Proof.
  unfold send, sendMessage. destruct (sw _); [|done].
  destruct (handle _ _ _ _ _ _ _) as [r s']. by destruct (settle r).
Qed.

(** It is posted exactly when the client has a worker. *)
Lemma send_posted ev (msg : Msg Md) w :
  posted (sendw ev msg w).2 = posted w ++ (if sw (client (page w)) then [msg] else []).
Proof.
  unfold send, sendMessage. destruct (sw _); [|by rewrite app_nil_r].
  destruct (handle _ _ _ _ _ _ _) as [r s']. by destruct (settle r).
Qed.

Lemma send_resolved ev (msg : Msg Md) w r : (sendw ev msg w).1 = inr r → is_Some (sw (client (page w))).
Proof.
  unfold send, sendMessage. destruct (sw _); [by eauto|done].
Qed.

(** With a worker, the worker handles it and the promise settles on the
    reply. *)
Lemma send_worker ev (msg : Msg Md) w :
  is_Some (sw (client (page w))) →
  worker (sendw ev msg w).2 = (handle cosineSimilarity md_empty openai local ev msg (worker w)).2 ∧
  (sendw ev msg w).1 = match settle (handle cosineSimilarity md_empty openai local ev msg (worker w)).1 with
                       | Resolved r => inr r
                       | Rejected m => inl (ThrownValue m)
                       end.
Proof.
  intros [x Hx]. unfold send, sendMessage. rewrite Hx.
  destruct (handle _ _ _ _ _ _ _) as [r s']. cbn. by destruct (settle r).
Qed.

Lemma with_page_posted f w : posted (with_page f w) = posted w.
Proof. done. Qed.

(** A sequence of awaited requests posts a prefix of its messages: all
    of them when it completes. *)
Lemma add_lines_posted evs k ls w :
  page (add_lines cosineSimilarity md_empty openai local evs k ls w).2 = page w ∧
  ∃ j, j ≤ length ls ∧
    posted (add_lines cosineSimilarity md_empty openai local evs k ls w).2 = posted w ++ (ADD_DOC <$> take j ls) ∧
    (((add_lines cosineSimilarity md_empty openai local evs k ls w).1 = Completed ∧ j = length ls ∧
      (ls ≠ [] → is_Some (sw (client (page w))))) ∨
     ∃ t, (add_lines cosineSimilarity md_empty openai local evs k ls w).1 = Caught t).
Proof.
  revert k w. induction ls as [|l ls IH]; intros k w.
  { split; [done|]. exists 0. rewrite app_nil_r. split; [lia|]. split; [done|]. left. naive_solver. }
  cbn [add_lines]. pose proof (send_page (evs k) (ADD_DOC l) w) as Hp.
  pose proof (send_posted (evs k) (ADD_DOC l) w) as Hq.
  pose proof (send_resolved (evs k) (ADD_DOC l) w) as Hr.
  destruct (sendw (evs k) (ADD_DOC l) w) as [[t|r] w'] eqn:E; cbn [fst snd] in Hp, Hq |- *.
  - split; [done|]. exists (if sw (client (page w)) then 1 else 0). rewrite Hq.
    split; [destruct (sw (client (page w))); cbn; lia|]. split; [by destruct (sw (client (page w)))|]. right. by eauto.
  - destruct (Hr r eq_refl) as [x Hx]. rewrite Hx in Hq.
    destruct (IH (S k) w') as (Hp' & j & Hj & Hq' & Ho). rewrite Hp', Hp. split; [done|].
    exists (S j). rewrite Hq', Hq, <- app_assoc. split; [cbn; lia|]. split; [done|].
    destruct Ho as [(? & -> & _)|?]; [left; rewrite Hx; naive_solver|by right].
Qed.
End SendLemmas.

Lemma join_lines_nonempty l ls : l ≠ "" → join_lines (l :: ls) ≠ "".
Proof. destruct l, ls; done. Qed.

(** *** Slices *)

(** The reference for the indexing loop: a list cut into consecutive
    pieces of [b] elements, the last one possibly shorter. *)
Fixpoint chunks_go {A} (n b : nat) (l : list A) : list (list A) :=
  match n with
  | 0 => []
  | S n' => match l with [] => [] | _ => take b l :: chunks_go n' b (drop b l) end
  end.
Definition chunks {A} (b : nat) (l : list A) : list (list A) := chunks_go (length l) b l.

Section Chunks.
Context {A : Type} (b : nat) (Hb : 0 < b).
Implicit Types (l : list A).

Lemma chunks_go_fuel n m l : length l ≤ n → length l ≤ m → chunks_go n b l = chunks_go m b l.
Proof.
  revert m l. induction n as [|n IH]; intros [|m] [|x l] Hn Hm; cbn in *; try done; try lia.
  f_equal. apply IH; rewrite length_drop; cbn; lia.
Qed.

Lemma chunks_cons l : l ≠ [] → chunks b l = take b l :: chunks b (drop b l).
Proof.
  intros Hl. unfold chunks. destruct l as [|x l]; [done|]. cbn [length chunks_go].
  f_equal. apply chunks_go_fuel; rewrite length_drop; cbn; lia.
Qed.

Lemma chunks_nil : chunks b (@nil A) = [].
Proof. done. Qed.

Lemma chunks_join l : mjoin (chunks b l) = l.
Proof.
  unfold chunks. remember (length l) as n eqn:En. assert (Hn : length l ≤ n) by lia. clear En.
  revert l Hn. induction n as [|n IH]; intros [|x l] Hn; cbn in *; try done; try lia.
  rewrite IH by (rewrite length_drop; cbn; lia). apply (take_drop b (x :: l)).
Qed.

Lemma chunks_sizes l : Forall (λ c, 0 < length c ≤ b) (chunks b l).
Proof.
  unfold chunks. remember (length l) as n eqn:En. assert (Hn : length l ≤ n) by lia. clear En.
  revert l Hn. induction n as [|n IH]; intros [|x l] Hn; cbn in *; try constructor; try lia.
  - rewrite length_take. cbn. lia.
  - apply IH. rewrite length_drop. cbn. lia.
Qed.
End Chunks.

(** [docs.slice(i, i + b)] from an index inside the list. *)
Lemma js_slice_inside {A} (l : list A) (n0 b : nat) :
  n0 < length l →
  js_slice l (Some (Z.of_nat n0)) (js_add (Some (Z.of_nat n0)) (Some (Z.of_nat b))) = take b (drop n0 l).
Proof.
  intros Hn. unfold js_slice, rel_index, js_add.
  rewrite !bool_decide_false by lia.
  rewrite (Z.min_l (Z.of_nat n0)) by lia. rewrite Nat2Z.id.
  destruct (decide (n0 + b ≤ length l)).
  - rewrite Z.min_l by lia. f_equal. lia.
  - rewrite Z.min_r by lia. rewrite !take_ge; [done| |]; rewrite length_drop; lia.
Qed.

(** ** Properties of the page handlers *)

Section PageProps.
Context {Md V Num W : Type} `{JsNum Num} `{Similarity V Num} `{Float32Vec V Num}.
Context (cosineSimilarity : list Num → list Num → Num) (md_empty : Md).
Context (openai : string → string → string → EmbeddingModel Num) (local : string → EmbeddingModel Num).

Abbreviation Wd := (World W Md V Num).
Abbreviation sendw := (send cosineSimilarity md_empty openai local).
Implicit Types (w : Wd).

(** C36: [btnAdd] on a textarea holding lines joined by newlines, each
    line non-empty, trimmed and without a newline, posts one [ADD_DOC]
    per line, in the order of the text.  When every request resolves it
    then clears the textarea, reports the number of lines and posts the
    [GET_ALL] of [refreshList()]; when one throws, the requests before
    it (and the throwing one, if it was posted) are all that is posted,
    the status shows [Error: ...] and the text stays. *)
Theorem btnAdd_posts_lines evs w ls :
  Forall clean_line ls → ls ≠ [] → docText (page w) = join_lines ls →
  let r := btnAdd cosineSimilarity md_empty openai local evs w in
  (r.1 = Completed ∧ posted r.2 = posted w ++ (ADD_DOC <$> ls) ++ [GET_ALL] ∧
   docText (page r.2) = "" ∧ statusText (page r.2) = (pretty (length ls) ++ " documents indexed.")%string) ∨
  (∃ t j, j ≤ length ls ∧ r.1 = Caught t ∧ posted r.2 = posted w ++ (ADD_DOC <$> take j ls) ∧
   statusText (page r.2) = ("Error: " ++ thrown_string t)%string ∧ docText (page r.2) = docText (page w)).
Proof.
  intros Hf Hne Ht. cbv zeta. unfold btnAdd. rewrite Ht.
  destruct ls as [|l ls']; [done|]. inversion Hf as [|? ? (Hl & _) _]; subst.
  rewrite bool_decide_false by (by apply join_lines_nonempty).
  rewrite page_lines_join, bool_decide_false by done.
  set (w0 := with_page _ w).
  destruct (add_lines_posted cosineSimilarity md_empty openai local evs 0 (l :: ls') w0)
    as (Hp & j & Hj & Hq & Ho).
  destruct (add_lines _ _ _ _ evs 0 (l :: ls') w0) as [o w1]; cbn [fst snd] in *.
  destruct Ho as [(-> & -> & Hsw)|[t ->]].
  - left. cbn [fst snd]. unfold refreshList. rewrite send_posted, !send_page.
    destruct (Hsw ltac:(done)) as [x Hx]. unfold w0 in *. cbn in *. rewrite Hp. cbn.
    rewrite Hx, Hq, take_ge by lia. by rewrite <- app_assoc.
  - right. exists t, j. unfold w0 in *. cbn in *. rewrite Hq, Hp. cbn. rewrite Ht. naive_solver.
Qed.
End PageProps.

Section IndexLoop.
Context {Md V Num W : Type} `{JsNum Num} `{Similarity V Num} `{Float32Vec V Num}.
Context (cosineSimilarity : list Num → list Num → Num) (md_empty : Md).
Context (openai : string → string → string → EmbeddingModel Num) (local : string → EmbeddingModel Num).
Context (source_md : string → Md).

Abbreviation Wd := (World W Md V Num).
Abbreviation sendw := (send cosineSimilarity md_empty openai local).
Abbreviation loop := (runIndex_loop cosineSimilarity md_empty openai local source_md).
Implicit Types (w : Wd) (docs : list (string * string)).

(** The request of a slice. *)
Definition batch_msg (c : list (string * string)) : Msg Md := BATCH_ADD (batch_item source_md <$> c).

(** From index [n0], with a positive batch size and enough fuel, the
    loop posts the requests of a prefix of the slices of
    [drop n0 docs]: all of them when it completes. *)
Lemma index_loop_chunks fuel evs k docs (b n0 : nat) w :
  0 < b → length docs - n0 < fuel →
  page (loop fuel evs k docs (Some (Z.of_nat b)) (Some (Z.of_nat n0)) w).2 = page w ∧
  ∃ m, m ≤ length (chunks b (drop n0 docs)) ∧
    posted (loop fuel evs k docs (Some (Z.of_nat b)) (Some (Z.of_nat n0)) w).2 =
      posted w ++ (batch_msg <$> take m (chunks b (drop n0 docs))) ∧
    (((loop fuel evs k docs (Some (Z.of_nat b)) (Some (Z.of_nat n0)) w).1 = Completed ∧
      m = length (chunks b (drop n0 docs)) ∧ (drop n0 docs ≠ [] → is_Some (sw (client (page w))))) ∨
     ∃ t, (loop fuel evs k docs (Some (Z.of_nat b)) (Some (Z.of_nat n0)) w).1 = Caught t).
Proof.
  intros Hb. revert k n0 w. induction fuel as [|f IH]; intros k n0 w Hf; [lia|].
  cbn [runIndex_loop js_lt]. case_bool_decide as Hlt.
  2:{ rewrite drop_ge by lia. split; [done|]. exists 0. rewrite app_nil_r. naive_solver. }
  rewrite js_slice_inside by lia.
  rewrite (chunks_cons b Hb) by (intros Hd; apply (f_equal length) in Hd; rewrite length_drop in Hd; cbn in Hd; lia).
  pose proof (send_page cosineSimilarity md_empty openai local (evs k) (batch_msg (take b (drop n0 docs))) w) as Hp.
  pose proof (send_posted cosineSimilarity md_empty openai local (evs k) (batch_msg (take b (drop n0 docs))) w) as Hq.
  pose proof (send_resolved cosineSimilarity md_empty openai local (evs k) (batch_msg (take b (drop n0 docs))) w) as Hr.
  unfold batch_msg in Hp, Hq, Hr.
  destruct (sendw (evs k) _ w) as [[t|r] w'] eqn:E; cbn [fst snd] in Hp, Hq |- *.
  - split; [done|]. exists (if sw (client (page w)) then 1 else 0). rewrite Hq.
    split; [destruct (sw (client (page w))); cbn; lia|].
    split; [by destruct (sw (client (page w)))|]. right. by eauto.
  - destruct (Hr r eq_refl) as [x Hx]. rewrite Hx in Hq.
    cbn [js_add]. replace (Some (Z.of_nat n0 + Z.of_nat b)%Z) with (Some (Z.of_nat (n0 + b))) by (f_equal; lia).
    destruct (IH (S k) (n0 + b) w') as (Hp' & m & Hm & Hq' & Ho); [lia|].
    rewrite Hp', Hp, drop_drop. split; [done|].
    exists (S m). rewrite Hq', Hq, <- app_assoc. split; [cbn; lia|]. split; [done|].
    destruct Ho as [(? & -> & _)|?]; [left; rewrite Hx; naive_solver|by right].
Qed.

(** With a batch size of at most [0] the index never leaves [0]'s side
    of the list: every test [i < total] holds. *)
Lemma index_loop_nonpositive fuel evs k docs (b x : Z) w :
  (b ≤ 0)%Z → (x ≤ 0)%Z → docs ≠ [] →
  (loop fuel evs k docs (Some b) (Some x) w).1 ≠ Completed.
Proof.
  intros Hb. revert k x w. induction fuel as [|f IH]; intros k x w Hx Hd; [done|].
  cbn [runIndex_loop js_lt]. rewrite bool_decide_true by (destruct docs; [done|]; cbn; lia).
  destruct (sendw (evs k) _ w) as [[t|r] w']; [done|]. apply IH; [cbn; lia|done].
Qed.

(** C37: the benchmark's indexing loop with a positive batch size [b]
    and enough fuel ([fuel > docs.length]) posts the [BATCH_ADD]s of
    consecutive slices of at most [b] documents, which together are the
    documents in order, each exactly once.  When every request resolves
    the loop completes and [refreshStats()] posts a [GET_ALL]; when one
    throws, only the slices before it (and that one, if it was posted)
    have been sent. *)
Theorem btnRunIndex_batches fuel evs ev_stats docs (b : nat) w :
  0 < b → length docs < fuel → docs ≠ [] →
  let r := btnRunIndex cosineSimilarity md_empty openai local source_md fuel evs ev_stats docs (Some (Z.of_nat b)) w in
  mjoin (chunks b docs) = docs ∧ Forall (λ c, 0 < length c ≤ b) (chunks b docs) ∧
  ((r.1 = Completed ∧ posted r.2 = posted w ++ (batch_msg <$> chunks b docs) ++ [GET_ALL]) ∨
   (∃ t m, r.1 = Caught t ∧ m ≤ length (chunks b docs) ∧
      posted r.2 = posted w ++ (batch_msg <$> take m (chunks b docs)))).
Proof.
  intros Hb Hf Hd. cbv zeta. split; [by apply chunks_join|]. split; [by apply chunks_sizes|].
  destruct (index_loop_chunks fuel evs 0 docs b 0 w Hb ltac:(lia)) as (Hp & m & Hm & Hq & Ho).
  unfold btnRunIndex. destruct docs as [|d ds]; [done|]. cbn [drop] in *.
  change (Some 0%Z) with (Some (Z.of_nat 0)).
  destruct (loop fuel evs 0 _ _ _ w) as [o w']. cbn [fst snd] in *.
  destruct Ho as [(-> & -> & Hsw)|[t ->]].
  - left. cbn [fst snd]. split; [done|]. unfold refreshList. rewrite send_posted, Hp, Hq, take_ge by lia.
    destruct (Hsw ltac:(done)) as [x ->]. by rewrite <- app_assoc.
  - right. by exists t, m.
Qed.

(** C38: with a batch size of at most [0] ([parseInt] of ["0"] or of a
    negative number) the indexing loop never completes: [i] stays at
    most [0], below the number of documents, so whatever fuel is given
    it either runs out or stops on a thrown request.  With [NaN] (an
    empty or non-numeric input) it posts one empty [BATCH_ADD] and, if
    that resolves, reports completion and refreshes the statistics. *)
Theorem btnRunIndex_bad_batch_size fuel evs ev_stats docs (b : Z) w :
  (b ≤ 0)%Z → docs ≠ [] →
  (btnRunIndex cosineSimilarity md_empty openai local source_md fuel evs ev_stats docs (Some b) w).1 ≠ Completed ∧
  btnRunIndex cosineSimilarity md_empty openai local source_md (S (S fuel)) evs ev_stats docs None w =
    match sendw (evs 0) (BATCH_ADD []) w with
    | (inl t, w') => (Caught t, w')
    | (inr _, w') => (Completed, refreshList cosineSimilarity md_empty openai local ev_stats w')
    end.
Proof.
  intros Hb Hd. unfold btnRunIndex. destruct docs as [|d ds]; [done|]. split.
  - pose proof (index_loop_nonpositive fuel evs 0 (d :: ds) b 0 w Hb ltac:(lia) Hd) as Hn.
    destruct (loop fuel evs 0 _ _ _ w) as [[| | |] w']; done.
  - cbn [runIndex_loop js_lt]. rewrite bool_decide_true by (cbn; lia).
    unfold js_slice, rel_index, js_add. rewrite bool_decide_false by lia. cbn [take].
    replace (Z.to_nat (0 - Z.min 0 _)) with 0 by lia. rewrite take_0. cbn [fmap list_fmap].
    destruct (sendw (evs 0) (BATCH_ADD []) w) as [[t|r] w']; reflexivity.
Qed.
End IndexLoop.

Section MigrateProps.
Context {Md V Num W : Type} `{JsNum Num} `{Similarity V Num} `{Float32Vec V Num}.
Context (cosineSimilarity : list Num → list Num → Num) (md_empty : Md).
Context (openai : string → string → string → EmbeddingModel Num) (local : string → EmbeddingModel Num).

Abbreviation Wd := (World W Md V Num).
Abbreviation sendw := (send cosineSimilarity md_empty openai local).
Abbreviation handlew := (handle cosineSimilarity md_empty openai local).
Implicit Types (w : Wd) (s : SW Md V Num).

(** [CONFIGURE] with an OpenAI payload appends a new [Vectoria] with
    that embedder and points [indexer] to it. *)
Lemma handle_configure_openai ev k e n s :
  handlew ev (CONFIGURE (EC_OpenAI k e n)) s =
    (PostResult R_Success, mkSW (idb s) (objs s ++ [mkVectoria db_empty (openai k e n) new_index false])
                                (length (objs s)) (mgrs s) (current s)).
Proof. done. Qed.

(** [MIGRATE_START] right after it migrates that new object. *)
Lemma handle_start_after_configure ev k e n s (v : Vectoria Md V Num) :
  ∃ m, handlew ev (MIGRATE_START (EC_OpenAI k e n)) (mkSW (idb s) (objs s ++ [v]) (length (objs s)) (mgrs s) (current s)) =
         (PostResult R_Started, mkSW (idb s) (objs s ++ [v]) (length (objs s)) (mgrs s ++ [(length (objs s), m)])
                                     (Some (length (mgrs s)))).
Proof.
  unfold handle, dispatch, load. cbn [objs cur mgrs idb].
  rewrite lookup_app_r, Nat.sub_diag by lia. cbn. by eexists.
Qed.

Lemma choice_of_openai f :
  embedderType f = "openai" →
  choice_of (config_of f) = EC_OpenAI (openaiKey f) (openaiEndpoint f) (openaiModel f).
Proof. intros Ht. unfold choice_of, config_of. cbn. by rewrite Ht, bool_decide_true. Qed.

(** C39: the Migrate button applies the form before it checks it.
    With an OpenAI form, [updateConfig()] first saves the form and posts
    [CONFIGURE], so the worker's [indexer] becomes a new [Vectoria] with
    the form's OpenAI embedder; only then is an empty API key refused
    (the alert), which leaves the worker on that key-less embedder with
    no migration.  With a key, [MIGRATE_START] follows and migrates the
    object [CONFIGURE] has just created, and polling starts. *)
Theorem btnMigrate_configures_first ev_cfg ev_start w :
  is_Some (sw (client (page w))) → embedderType (form (page w)) = "openai" →
  let f := form (page w) in
  let e := EC_OpenAI (openaiKey f) (openaiEndpoint f) (openaiModel f) in
  let s1 := (handlew ev_cfg (CONFIGURE e) (worker w)).2 in
  let w' := btnMigrate cosineSimilarity md_empty openai local ev_cfg ev_start w in
  storage (page w') = save_config (config_of f) ∧
  objs s1 = objs (worker w) ++ [mkVectoria db_empty (openai (openaiKey f) (openaiEndpoint f) (openaiModel f)) new_index false] ∧
  cur s1 = length (objs (worker w)) ∧
  (openaiKey f = "" → posted w' = posted w ++ [CONFIGURE e] ∧ worker w' = s1 ∧ polling (page w') = polling (page w)) ∧
  (openaiKey f ≠ "" → posted w' = posted w ++ [CONFIGURE e; MIGRATE_START e] ∧
     worker w' = (handlew ev_start (MIGRATE_START e) s1).2 ∧
     (mgrs (worker w')).*1 = (mgrs (worker w)).*1 ++ [length (objs (worker w))] ∧
     polling (page w') = true).
Proof.
  intros Hsw Ht. cbv zeta. unfold btnMigrate, updateConfig. rewrite choice_of_openai by done.
  pose proof (handle_configure_openai ev_cfg (openaiKey (form (page w))) (openaiEndpoint (form (page w)))
                (openaiModel (form (page w))) (worker w)) as Hc.
  destruct (handle_start_after_configure ev_start (openaiKey (form (page w))) (openaiEndpoint (form (page w)))
              (openaiModel (form (page w))) (worker w)
              (mkVectoria db_empty (openai (openaiKey (form (page w))) (openaiEndpoint (form (page w)))
                 (openaiModel (form (page w)))) new_index false)) as [m Hm].
  rewrite Hc. cbn [snd objs cur mgrs].
  remember (EC_OpenAI _ _ _) as e eqn:He.
  set (w1 := with_page _ w).
  assert (Hw1 : page w1 = set_storage (save_config (config_of (form (page w)))) (page w) ∧
                worker w1 = worker w ∧ posted w1 = posted w) by done.
  clearbody w1. destruct Hw1 as (Hp1 & Hv1 & Hq1).
  assert (Hsw1 : is_Some (sw (client (page w1)))) by (by rewrite Hp1).
  destruct (send_worker cosineSimilarity md_empty openai local ev_cfg (CONFIGURE e) w1 Hsw1) as [Hw2 Hr2].
  pose proof (send_posted cosineSimilarity md_empty openai local ev_cfg (CONFIGURE e) w1) as Hq2.
  pose proof (send_page cosineSimilarity md_empty openai local ev_cfg (CONFIGURE e) w1) as Hp2.
  rewrite Hv1, Hc in Hw2, Hr2. cbn in Hr2.
  destruct Hsw1 as [x Hx]. rewrite Hx, Hq1 in Hq2.
  destruct (sendw ev_cfg (CONFIGURE e) w1) as [r2 w2]. cbn [fst snd] in *. subst r2.
  cbn [config_of cfg_type cfg_apiKey]. rewrite Ht, bool_decide_true by done. cbn [andb].
  rewrite choice_of_openai by done. rewrite <- He.
  destruct (decide (openaiKey (form (page w)) = "")) as [Hk|Hk].
  - rewrite bool_decide_true by done.
    split; [by rewrite Hp2, Hp1|]. split; [done|]. split; [done|]. split; [|done].
    intros _. by rewrite Hp2, Hp1, Hw2, Hq2.
  - rewrite bool_decide_false by done.
    assert (Hsw2 : is_Some (sw (client (page w2)))) by (rewrite Hp2, Hx; by eexists).
    destruct (send_worker cosineSimilarity md_empty openai local ev_start (MIGRATE_START e) w2 Hsw2) as [Hw3 Hr3].
    pose proof (send_posted cosineSimilarity md_empty openai local ev_start (MIGRATE_START e) w2) as Hq3.
    pose proof (send_page cosineSimilarity md_empty openai local ev_start (MIGRATE_START e) w2) as Hp3.
    rewrite Hw2, Hm in Hw3, Hr3. cbn in Hr3.
    rewrite Hp2, Hx in Hq3.
    destruct (sendw ev_start (MIGRATE_START e) w2) as [r3 w3]. cbn [fst snd] in *. subst r3.
    cbn. rewrite Hp3, Hp2, Hp1. split; [done|]. split; [done|]. split; [done|]. split; [done|].
    intros _. rewrite Hq3, Hq2, <- app_assoc, Hw3, Hm, He. cbn. rewrite fmap_app. by split.
Qed.
End MigrateProps.

(** ** The saved configuration *)

(** C40: the configuration survives a reload.  The form's configuration,
    saved by [updateConfig] and read back by the start-up code into any
    form whose model select was filled by [populateModelSelect], gives
    the same configuration again, provided the type is one of its
    select's options (the form reads it from that select), every other
    field is non-empty (the start-up code keeps only truthy fields) and
    the local model is not named ["custom"] (the name of the select's
    own custom entry). *)
Theorem reload_restores_config f f0 models :
  embedderType f ∈ embedderTypeOptions → openaiKey f ≠ "" → openaiEndpoint f ≠ "" → openaiModel f ≠ "" →
  cfg_local (config_of f) ≠ "" → cfg_local (config_of f) ≠ "custom" →
  config_of (load_saved (save_config (config_of f)) (populateModelSelect models).1 f0) = config_of f.
Proof.
  intros Ht Hk He Hm Hl Hc.
  assert (Ht0 : embedderType f ≠ "") by (intros E; rewrite E in Ht; set_solver).
  unfold load_saved, save_config. cbn [st_type st_openai st_local].
  rewrite (bool_decide_true (embedderType f ∈ embedderTypeOptions)) by done.
  rewrite (bool_decide_false (embedderType f = "")), (bool_decide_false (openaiKey f = "")),
    (bool_decide_false (openaiEndpoint f = "")), (bool_decide_false (openaiModel f = "")),
    (bool_decide_false (cfg_local (config_of f) = "")) by done.
  remember (config_of f) as cf eqn:Hcf. clear Hcf.
  case_bool_decide; unfold config_of; cbn;
    [rewrite bool_decide_false by done|rewrite bool_decide_true by done]; by destruct cf.
Qed.

(** C23: a polling tick whose [MIGRATE_STATUS] request returns a
    status that is complete and carries no error, for any world whose
    page has a worker, posts [MIGRATE_STATUS] and then the form's
    configuration twice ([updateConfig()] and the outer [sendMessage]),
    in that order and nothing else.  It stops polling, re-enables the
    Migrate button and disables the Stop button. *)
Theorem poll_tick_complete {Md V Num W : Type} `{JsNum Num} `{Similarity V Num} `{Float32Vec V Num}
    (cosineSimilarity : list Num → list Num → Num) (md_empty : Md)
    (openai : string → string → string → EmbeddingModel Num) (local : string → EmbeddingModel Num)
    ev1 ev2 ev3 (w : World W Md V Num) st :
  is_Some (sw (client (page w))) →
  (send cosineSimilarity md_empty openai local ev1 MIGRATE_STATUS w).1 = inr (R_Status st) →
  isComplete st = true → error st = None →
  let w' := poll_tick cosineSimilarity md_empty openai local ev1 ev2 ev3 w in
  posted w' = posted w ++ [MIGRATE_STATUS; CONFIGURE (choice_of (config_of (form (page w))));
                           CONFIGURE (choice_of (config_of (form (page w))))] ∧
  polling (page w') = false ∧ migrateDisabled (page w') = false ∧ stopDisabled (page w') = true.
Proof.
  intros [x Hx] Hr Hc He. cbv zeta. unfold poll_tick.
  pose proof (send_posted cosineSimilarity md_empty openai local ev1 MIGRATE_STATUS w) as Hq1.
  pose proof (send_page cosineSimilarity md_empty openai local ev1 MIGRATE_STATUS w) as Hp1.
  destruct (send _ _ _ _ ev1 MIGRATE_STATUS w) as [r1 w1]. cbn [fst snd] in *. subst r1.
  rewrite Hc, He. cbn [is_Some]. rewrite bool_decide_false by (by intros [? ?]).
  unfold updateConfig. rewrite Hx in Hq1.
  set (w2 := with_page _ (with_page _ w1)).
  pose proof (send_posted cosineSimilarity md_empty openai local ev2 (CONFIGURE (choice_of (config_of (form (page w2))))) w2) as Hq2.
  pose proof (send_page cosineSimilarity md_empty openai local ev2 (CONFIGURE (choice_of (config_of (form (page w2))))) w2) as Hp2.
  destruct (send _ _ _ _ ev2 _ w2) as [r2 w3]. cbn [fst snd] in *.
  pose proof (send_posted cosineSimilarity md_empty openai local ev3 (CONFIGURE (choice_of (config_of (form (page w2))))) w3) as Hq3.
  pose proof (send_page cosineSimilarity md_empty openai local ev3 (CONFIGURE (choice_of (config_of (form (page w2))))) w3) as Hp3.
  destruct (send _ _ _ _ ev3 _ w3) as [r3 w4]. cbn [fst snd] in *.
  unfold w2 in *. cbn in Hq2, Hp2. rewrite Hp1, Hx in Hq2. rewrite Hp2 in Hq3, Hp3. cbn in Hq3, Hp3.
  rewrite Hp1, Hx in Hq3. rewrite Hp1 in Hp3. rewrite Hq3, Hq2, Hq1, Hp3. cbn.
  by rewrite <- !app_assoc.
Qed.

(** ** Witnesses: a page whose client reaches the worker of
    DispatchProofs.v *)

Definition demo_form (key : string) : Form :=
  mkForm "openai" "custom" "my-model" key "https://api.openai.com/v1" "text-embedding-3-small".

Definition demo_page (key text : string) : Page unit :=
  mkPage (client_init demo_env (IndexerClient_new true)).2 (demo_form key) (mkStorage None None None) text "" false false true [].

Definition demo_world (key text : string) : World unit unit (list Z) Z := mkWorld (demo_page key text) sw_start [].

Definition demo_evs (_ : nat) : Env := env_id "doc".

Definition demo_docs : list (string * string) := [("a", "QA-x"); ("b", "QA-y"); ("c", "QA-z")].

Lemma clean_ab : Forall clean_line ["a"; "b"].
Proof.
  repeat constructor; try done;
    apply (bool_decide_eq_true_1 _); vm_compute; reflexivity.
Qed.

Lemma btnAdd_posts_lines_witness :
  Forall clean_line ["a"; "b"] ∧ ["a"; "b"] ≠ [] ∧
  docText (page (demo_world "" (join_lines ["a"; "b"]))) = join_lines ["a"; "b"] ∧
  let r := btnAdd zcos tt z_openai z_local demo_evs (demo_world "" (join_lines ["a"; "b"])) in
  (r.1 = Completed ∧ posted r.2 = posted (demo_world "" (join_lines ["a"; "b"])) ++ (ADD_DOC <$> ["a"; "b"]) ++ [GET_ALL] ∧
   docText (page r.2) = "" ∧ statusText (page r.2) = (pretty (length ["a"; "b"]) ++ " documents indexed.")%string) ∨
  (∃ t j, j ≤ length ["a"; "b"] ∧ r.1 = Caught t ∧
   posted r.2 = posted (demo_world "" (join_lines ["a"; "b"])) ++ (ADD_DOC <$> take j ["a"; "b"]) ∧
   statusText (page r.2) = ("Error: " ++ thrown_string t)%string ∧
   docText (page r.2) = docText (page (demo_world "" (join_lines ["a"; "b"])))).
Proof.
  split; [exact clean_ab|]. split; [done|]. split; [reflexivity|].
  exact (btnAdd_posts_lines zcos tt z_openai z_local demo_evs (demo_world "" (join_lines ["a"; "b"])) ["a"; "b"]
           clean_ab ltac:(done) eq_refl).
Defined.

Lemma btnRunIndex_batches_witness :
  0 < 2 ∧ length demo_docs < 4 ∧ demo_docs ≠ [] ∧
  let r := btnRunIndex zcos tt z_openai z_local (λ _, tt) 4 demo_evs (env_id "s") demo_docs (Some (Z.of_nat 2))
             (demo_world "" "") in
  mjoin (chunks 2 demo_docs) = demo_docs ∧ Forall (λ c, 0 < length c ≤ 2) (chunks 2 demo_docs) ∧
  ((r.1 = Completed ∧ posted r.2 = posted (demo_world "" "") ++ (batch_msg (λ _, tt) <$> chunks 2 demo_docs) ++ [GET_ALL]) ∨
   (∃ t m, r.1 = Caught t ∧ m ≤ length (chunks 2 demo_docs) ∧
      posted r.2 = posted (demo_world "" "") ++ (batch_msg (λ _, tt) <$> take m (chunks 2 demo_docs)))).
Proof.
  assert (Hf : length demo_docs < 4) by (vm_compute; lia).
  split; [lia|]. split; [exact Hf|]. split; [done|].
  exact (btnRunIndex_batches zcos tt z_openai z_local (λ _, tt) 4 demo_evs (env_id "s") demo_docs 2
           (demo_world "" "") ltac:(lia) Hf ltac:(done)).
Defined.

Lemma btnRunIndex_bad_batch_size_witness :
  (0 ≤ 0)%Z ∧ demo_docs ≠ [] ∧
  (btnRunIndex zcos tt z_openai z_local (λ _, tt) 3 demo_evs (env_id "s") demo_docs (Some 0%Z) (demo_world "" "")).1
    ≠ Completed ∧
  btnRunIndex zcos tt z_openai z_local (λ _, tt) 5 demo_evs (env_id "s") demo_docs None (demo_world "" "") =
    match send zcos tt z_openai z_local (demo_evs 0) (BATCH_ADD []) (demo_world "" "") with
    | (inl t, w') => (Caught t, w')
    | (inr _, w') => (Completed, refreshList zcos tt z_openai z_local (env_id "s") w')
    end.
Proof.
  split; [lia|]. split; [done|].
  exact (btnRunIndex_bad_batch_size zcos tt z_openai z_local (λ _, tt) 3 demo_evs (env_id "s") demo_docs 0
           (demo_world "" "") ltac:(lia) ltac:(done)).
Defined.

Lemma demo_world_sw key text : is_Some (sw (client (page (demo_world key text)))).
Proof. by eexists. Qed.

Lemma btnMigrate_configures_first_witness :
  is_Some (sw (client (page (demo_world "" "")))) ∧ embedderType (form (page (demo_world "" ""))) = "openai" ∧
  let f := form (page (demo_world "" "")) in
  let e := EC_OpenAI (openaiKey f) (openaiEndpoint f) (openaiModel f) in
  let s1 := (handle zcos tt z_openai z_local (env_id "c") (CONFIGURE e) (worker (demo_world "" ""))).2 in
  let w' := btnMigrate zcos tt z_openai z_local (env_id "c") (env_id "m") (demo_world "" "") in
  storage (page w') = save_config (config_of f) ∧
  objs s1 = objs (worker (demo_world "" "")) ++
              [mkVectoria db_empty (z_openai (openaiKey f) (openaiEndpoint f) (openaiModel f)) new_index false] ∧
  cur s1 = length (objs (worker (demo_world "" ""))) ∧
  (openaiKey f = "" → posted w' = posted (demo_world "" "") ++ [CONFIGURE e] ∧ worker w' = s1 ∧
                      polling (page w') = polling (page (demo_world "" ""))) ∧
  (openaiKey f ≠ "" → posted w' = posted (demo_world "" "") ++ [CONFIGURE e; MIGRATE_START e] ∧
     worker w' = (handle zcos tt z_openai z_local (env_id "m") (MIGRATE_START e) s1).2 ∧
     (mgrs (worker w')).*1 = (mgrs (worker (demo_world "" ""))).*1 ++ [length (objs (worker (demo_world "" "")))] ∧
     polling (page w') = true).
Proof.
  split; [apply demo_world_sw|]. split; [reflexivity|].
  exact (btnMigrate_configures_first zcos tt z_openai z_local (env_id "c") (env_id "m") (demo_world "" "")
           (demo_world_sw "" "") eq_refl).
Defined.

Lemma reload_restores_config_witness :
  embedderType (demo_form "sk") ∈ embedderTypeOptions ∧ openaiKey (demo_form "sk") ≠ "" ∧
  openaiEndpoint (demo_form "sk") ≠ "" ∧ openaiModel (demo_form "sk") ≠ "" ∧
  cfg_local (config_of (demo_form "sk")) ≠ "" ∧ cfg_local (config_of (demo_form "sk")) ≠ "custom" ∧
  config_of (load_saved (save_config (config_of (demo_form "sk")))
               (populateModelSelect ["Xenova/all-MiniLM-L6-v2"]).1 (demo_form "")) = config_of (demo_form "sk").
Proof.
  assert (Hl : cfg_local (config_of (demo_form "sk")) = "my-model") by reflexivity.
  assert (Ht : embedderType (demo_form "sk") ∈ embedderTypeOptions) by (apply (bool_decide_unpack _); vm_compute; done).
  split; [exact Ht|]. do 3 (split; [done|]). split; [by rewrite Hl|]. split; [by rewrite Hl|].
  exact (reload_restores_config (demo_form "sk") (demo_form "") ["Xenova/all-MiniLM-L6-v2"]
           Ht ltac:(done) ltac:(done) ltac:(done) ltac:(by rewrite Hl) ltac:(by rewrite Hl)).
Defined.

(** ** The page's migration flow on a concrete run *)

(** The worker's view of the page: its inputs for the [k]-th document. *)
Definition demo_ids (k : nat) : Env := env_id (pretty k).

(** The migration as the demo page runs it: the textarea's two lines
    ["a"] and ["b"] are added, Migrate is clicked with an API key (so
    [CONFIGURE] switches the indexer to the OpenAI embedder before
    [MIGRATE_START]), the background migration runs, a polling tick sees
    it complete and posts the configuration again, and the user searches
    for ["a"]. *)
Definition page_migration_run : World unit unit (list Z) Z :=
  let w0 := demo_world "sk" (join_lines ["a"; "b"]) in
  let w1 := (btnAdd zcos tt z_openai z_local demo_ids w0).2 in
  let w2 := btnMigrate zcos tt z_openai z_local (env_id "c") (env_id "m") w1 in
  let w3 := Nat.iter 5 (bg_step (λ _ _, false) 0) w2 in
  let w4 := poll_tick zcos tt z_openai z_local (env_id "p") (env_id "c1") (env_id "c2") w3 in
  btnSearch zcos tt z_openai z_local (env_id "q") "a" false w4.

(** Unlike a [MIGRATE_START] alone (DispatchProofs.v), the page's flow
    searches with the embedder the documents were migrated to: ["a"] is
    found first.  The requests are those of the handlers, in order. *)
Example page_migration_finds_document :
  posted page_migration_run =
    [ADD_DOC "a"; ADD_DOC "b"; GET_ALL; CONFIGURE (EC_OpenAI "sk" "https://api.openai.com/v1" "text-embedding-3-small");
     MIGRATE_START (EC_OpenAI "sk" "https://api.openai.com/v1" "text-embedding-3-small"); MIGRATE_STATUS;
     CONFIGURE (EC_OpenAI "sk" "https://api.openai.com/v1" "text-embedding-3-small");
     CONFIGURE (EC_OpenAI "sk" "https://api.openai.com/v1" "text-embedding-3-small"); SEARCH "a" false] ∧
  results (page page_migration_run) = ["a"; "b"] ∧ polling (page page_migration_run) = false.
Proof. vm_compute. repeat split. Qed.

(** The world of [page_migration_run] just before its polling tick:
    the background migration has run to completion. *)
Definition page_migration_done : World unit unit (list Z) Z :=
  let w0 := demo_world "sk" (join_lines ["a"; "b"]) in
  let w1 := (btnAdd zcos tt z_openai z_local demo_ids w0).2 in
  let w2 := btnMigrate zcos tt z_openai z_local (env_id "c") (env_id "m") w1 in
  Nat.iter 5 (bg_step (λ _ _, false) 0) w2.

Lemma poll_tick_complete_witness :
  let st := mkMigrationStatus 2 2 (Some "0") true None in
  is_Some (sw (client (page page_migration_done))) ∧
  (send zcos tt z_openai z_local (env_id "p") MIGRATE_STATUS page_migration_done).1 = inr (R_Status st) ∧
  let w' := poll_tick zcos tt z_openai z_local (env_id "p") (env_id "c1") (env_id "c2") page_migration_done in
  posted w' = posted page_migration_done ++
    [MIGRATE_STATUS; CONFIGURE (choice_of (config_of (form (page page_migration_done))));
     CONFIGURE (choice_of (config_of (form (page page_migration_done))))] ∧
  polling (page w') = false ∧ migrateDisabled (page w') = false ∧ stopDisabled (page w') = true.
Proof.
  cbv zeta.
  assert (Hs : is_Some (sw (client (page page_migration_done)))) by (vm_compute; by eexists).
  assert (Hr : (send zcos tt z_openai z_local (env_id "p") MIGRATE_STATUS page_migration_done).1 =
               inr (R_Status (mkMigrationStatus 2 2 (Some "0") true None))) by (vm_compute; reflexivity).
  split; [exact Hs|]. split; [exact Hr|].
  exact (poll_tick_complete zcos tt z_openai z_local (env_id "p") (env_id "c1") (env_id "c2")
           page_migration_done _ Hs Hr eq_refl eq_refl).
Defined.
